(** * Web Story generator: segmentation, slide assembly, markup, validation

    A shallow embedding of [src/lib/story-generator.ts].

    JavaScript strings are sequences of UTF-16 code units; they are modelled
    as lists of [N].  Regular expressions are embedded as syntax trees that
    are run by a small backtracking matcher following the ECMAScript
    semantics (ordered alternatives, greedy repetition, negative lookahead),
    so that every regular expression of the source appears here as a term
    that can be compared with it symbol by symbol.

    JavaScript numbers are binary64 values; they are modelled as the
    rationals they denote.  Counts, lengths and indices are integers, on
    which the operations of the source are exact; the product and the sum
    that give a duration, and the product with the value of [Math.random],
    are rounded to the nearest binary64 value, ties to even. *)

From Stdlib Require Import List NArith ZArith QArith Qround Qpower Qabs Bool Arith Lia Lqa.
From Stdlib Require Import SpecFloat.
From Stdlib Require Import String Ascii DecimalString DecimalNat.
Import ListNotations.

Close Scope Q_scope.

(* ================================================================== *)
(** ** JavaScript strings *)
(* ================================================================== *)

Module JS.

Definition char := N.
Definition str := list char.

(** Literals.  [lit] reads a literal byte by byte.  [tpl] is used for the
    template literals of the source, which are full of double quotes: in a
    [tpl] literal a backquote stands for a double quote (no template literal
    of the source contains a backquote). *)
Definition lit (s : string) : str := map N_of_ascii (list_ascii_of_string s).

Definition code (a : ascii) : char := N_of_ascii a.

Definition dquote : char := 34%N.
Definition backquote : char := code "`".

Definition tpl (s : string) : str :=
  map (fun c => if N.eqb c backquote then dquote else c) (lit s).

(** U+26A1 HIGH VOLTAGE SIGN and U+2014 EM DASH, the two non-ASCII code units
    of the source's literals. *)
Definition highVoltage : char := 9889%N.
Definition emDash : char := 8212%N.

Definition LF : char := 10%N.
Definition CR : char := 13%N.

(** [WhiteSpace] and [LineTerminator] of ECMAScript: what [String.prototype.trim]
    strips and what [\s] matches. *)
Definition isSpace (c : char) : bool :=
  ((9 <=? c) && (c <=? 13) || (c =? 32) || (c =? 160) || (c =? 5760)
   || ((8192 <=? c) && (c <=? 8202)) || (c =? 8232) || (c =? 8233)
   || (c =? 8239) || (c =? 8287) || (c =? 12288) || (c =? 65279))%N.

Fixpoint str_eqb (a b : str) : bool :=
  match a, b with
  | [], [] => true
  | x :: a', y :: b' => N.eqb x y && str_eqb a' b'
  | _, _ => false
  end.

Definition isEmpty (s : str) : bool :=
  match s with [] => true | _ => false end.

(** A string is truthy when it is not empty. *)
Definition truthy (s : str) : bool := negb (isEmpty s).

(** [String.prototype.trimStart], [trimEnd], [trim]. *)
Fixpoint trimStart (s : str) : str :=
  match s with
  | [] => []
  | c :: t => if isSpace c then trimStart t else s
  end.

Fixpoint trimEnd (s : str) : str :=
  match s with
  | [] => []
  | c :: t =>
      match trimEnd t with
      | [] => if isSpace c then [] else [c]
      | t' => c :: t'
      end
  end.

Definition trim (s : str) : str := trimEnd (trimStart s).

(** [String.prototype.startsWith] and [includes]. *)
Fixpoint startsWith (s m : str) {struct m} : bool :=
  match m, s with
  | [], _ => true
  | a :: m', b :: s' => N.eqb a b && startsWith s' m'
  | _ :: _, [] => false
  end.

Fixpoint includes (s m : str) : bool :=
  startsWith s m
  || match s with
     | [] => false
     | _ :: t => includes t m
     end.

(** [s.split('\n')]: separator given as a one-unit string. *)
Fixpoint splitOn (sep : char) (acc : str) (s : str) : list str :=
  match s with
  | [] => [rev acc]
  | c :: t =>
      if N.eqb c sep then rev acc :: splitOn sep [] t
      else splitOn sep (c :: acc) t
  end.

(** [s.replace(pat, rep)] with a string pattern: the first occurrence only. *)
Fixpoint replaceStr (pat rep : str) (s : str) : str :=
  if startsWith s pat then rep ++ skipn (List.length pat) s
  else match s with
       | [] => []
       | c :: t => c :: replaceStr pat rep t
       end.

(** [s.substring(0, n)] for [0 <= n]. *)
Definition substring0 (n : nat) (s : str) : str := firstn n s.

(** [Array.prototype.slice(0, end)] for an integer [end]: a negative [end]
    counts from the end of the array. *)
Definition slice0 {A} (l : list A) (e : Z) : list A :=
  if (e <? 0)%Z then firstn (Z.to_nat (Z.of_nat (List.length l) + e)) l
  else firstn (Z.to_nat e) l.

(** [Array.prototype.join]. *)
Fixpoint join (sep : str) (l : list str) : str :=
  match l with
  | [] => []
  | [x] => x
  | x :: t => x ++ sep ++ join sep t
  end.

(** [Number.prototype.toString] on a natural number. *)
Definition natToString (n : nat) : str :=
  lit (NilEmpty.string_of_uint (Nat.to_uint n)).

(** [a || b] on optional strings: [undefined] and the empty string are falsy. *)
Definition orElse (a b : option str) : option str :=
  match a with
  | Some x => if truthy x then a else b
  | None => b
  end.

Definition optTruthy (a : option str) : bool :=
  match a with
  | Some x => truthy x
  | None => false
  end.

(** *** Numbers *)

(** A Number is a binary64 value (IEEE 754 double precision); a finite one
    is a rational.  An arithmetic operation of JavaScript returns the exact
    result rounded to the nearest binary64 value, ties going to the value
    with an even significand.  [fl] is that rounding: 53 bits of precision,
    a unit never finer than [2^-1074] (subnormal values).  Overflow to
    infinity is left out: the numbers of this program are word counts,
    array lengths and values below them. *)

(** The exponent [e] of a positive rational [x]: [2^e <= x < 2^(e+1)].  The
    sizes of the numerator and of the denominator give it up to one. *)
Definition expo (x : Q) : Z :=
  let e := (Z.log2 (Qnum x) - Z.log2 (Z.pos (Qden x)))%Z in
  if Qle_bool (2 ^ e) x then e else (e - 1)%Z.

(** The nearest integer, the even one of two that are equally near. *)
Definition roundHalfEven (y : Q) : Z :=
  let f := Qfloor y in
  match (y - inject_Z f ?= 1 # 2)%Q with
  | Lt => f
  | Gt => (f + 1)%Z
  | Eq => if Z.even f then f else (f + 1)%Z
  end.

(** The distance between the binary64 values around [x]. *)
Definition ulp (x : Q) : Q := (2 ^ Z.max (expo x - 52) (-1074))%Q.

Definition flPos (x : Q) : Q := (inject_Z (roundHalfEven (x / ulp x)) * ulp x)%Q.

Definition fl (x : Q) : Q :=
  match Qnum x with
  | Z0 => 0%Q
  | Zpos _ => flPos x
  | Zneg _ => (- flPos (- x))%Q
  end.

(** [a + b] and [a * b] on Numbers. *)
Definition fadd (a b : Q) : Q := fl (a + b).
Definition fmul (a b : Q) : Q := fl (a * b).

(** The rationals that are Numbers: rounding leaves them as they are. *)
Definition isDouble (x : Q) : Prop := (fl x == x)%Q.

End JS.

(* ================================================================== *)
(** ** Regular expressions *)
(* ================================================================== *)

Module Regex.
Import JS.

Inductive regex : Type :=
| Eps                             (* the empty pattern *)
| Class (p : char -> bool)        (* one code unit of a class *)
| Cat (r1 r2 : regex)             (* r1 r2 *)
| Or (r1 r2 : regex)              (* r1|r2, left alternative first *)
| Star (r : regex)                (* r*, greedy *)
| NotAhead (r : regex)            (* (?!r) *)
| WordBoundary                    (* \b *)
| Bos                             (* ^ without the m flag *)
| Group (r : regex).              (* the capture group whose text is read *)

(** The matcher's position: the code units already passed (most recent
    first), the code units ahead, and the text of the capture group. *)
Record cursor := { seen : str; ahead : str; grp : option str }.

Definition isWordChar (c : char) : bool :=
  ((48 <=? c) && (c <=? 57) || (65 <=? c) && (c <=? 90)
   || (97 <=? c) && (c <=? 122) || (c =? 95))%N.

Definition wordBefore (c : cursor) : bool :=
  match seen c with x :: _ => isWordChar x | [] => false end.

Definition wordAfter (c : cursor) : bool :=
  match ahead c with x :: _ => isWordChar x | [] => false end.

(** The iterations of a greedy star, given the matcher [step] of its body:
    one more iteration is tried first, and an iteration that consumes nothing
    is rejected, as in ECMAScript.  [n] bounds the number of iterations; the
    number of code units ahead is enough. *)
Fixpoint iterStar {A} (step : cursor -> (cursor -> option A) -> option A)
    (k : cursor -> option A) (n : nat) (c : cursor) : option A :=
  match n with
  | O => k c
  | S n' =>
      match step c (fun c' =>
              if (List.length (ahead c') <? List.length (ahead c))%nat
              then iterStar step k n' c' else None) with
      | Some a => Some a
      | None => k c
      end
  end.

(** Backtracking matcher in continuation-passing style: [run r c k] tries the
    ways [r] can match at [c] in priority order and answers with the first
    one the continuation [k] accepts. *)
Fixpoint run {A} (r : regex) (c : cursor) (k : cursor -> option A) : option A :=
  match r with
  | Eps => k c
  | Class p =>
      match ahead c with
      | x :: t =>
          if p x then k {| seen := x :: seen c; ahead := t; grp := grp c |}
          else None
      | [] => None
      end
  | Cat r1 r2 => run r1 c (fun c' => run r2 c' k)
  | Or r1 r2 =>
      match run r1 c k with
      | Some a => Some a
      | None => run r2 c k
      end
  | Star r1 => iterStar (run r1) k (List.length (ahead c)) c
  | NotAhead r1 =>
      match run r1 c (fun _ => Some tt) with
      | Some _ => None
      | None => k c
      end
  | WordBoundary => if xorb (wordBefore c) (wordAfter c) then k c else None
  | Bos => if isEmpty (seen c) then k c else None
  | Group r1 =>
      run r1 c (fun c' =>
        k {| seen := seen c'; ahead := ahead c';
             grp := Some (rev (firstn (List.length (seen c') - List.length (seen c))
                                      (seen c'))) |})
  end.

(** One attempt at a fixed position. *)
Definition matchAt (r : regex) (sn : str) (rest : str) : option cursor :=
  run r {| seen := sn; ahead := rest; grp := None |} (fun c => Some c).

(** Leftmost match at or after the current position: the text skipped and the
    cursor after the match. *)
Fixpoint findFrom (r : regex) (sn : str) (rest : str) : option (str * cursor) :=
  match matchAt r sn rest with
  | Some c => Some ([], c)
  | None =>
      match rest with
      | [] => None
      | x :: t =>
          match findFrom r (x :: sn) t with
          | Some (sk, c) => Some (x :: sk, c)
          | None => None
          end
      end
  end.

(** [re.test(s)]. *)
Definition test (r : regex) (s : str) : bool :=
  match findFrom r [] s with Some _ => true | None => false end.

(** [s.match(re)[1]] for a regular expression without the g flag. *)
Definition matchGroup (r : regex) (s : str) : option str :=
  match findFrom r [] s with
  | Some (_, c) => grp c
  | None => None
  end.

(** [s.replace(re, rep)] without the g flag. *)
Definition replaceFirst (r : regex) (rep : str) (s : str) : str :=
  match findFrom r [] s with
  | Some (sk, c) => sk ++ rep ++ ahead c
  | None => s
  end.

(** [s.replace(re, rep)] with the g flag.  After an empty match the next
    code unit is copied and the search resumes behind it. *)
Fixpoint replaceAllFrom (fuel : nat) (r : regex) (rep : str) (sn rest : str) : str :=
  match fuel with
  | O => rest
  | S f =>
      match findFrom r sn rest with
      | None => rest
      | Some (sk, c) =>
          if (List.length (ahead c) + List.length sk <? List.length rest)%nat
          then sk ++ rep ++ replaceAllFrom f r rep (seen c) (ahead c)
          else match ahead c with
               | [] => sk ++ rep
               | x :: t => sk ++ rep ++ x :: replaceAllFrom f r rep (x :: seen c) t
               end
      end
  end.

Definition replaceAll (r : regex) (rep : str) (s : str) : str :=
  replaceAllFrom (S (List.length s)) r rep [] s.

(** The loop [while ((match = re.exec(s)) !== null) out.push(match[1])] for a
    regular expression with the g flag whose matches are never empty. *)
Fixpoint execAllFrom (fuel : nat) (r : regex) (sn rest : str) : list (option str) :=
  match fuel with
  | O => []
  | S f =>
      match findFrom r sn rest with
      | None => []
      | Some (_, c) => grp c :: execAllFrom f r (seen c) (ahead c)
      end
  end.

Definition execAll (r : regex) (s : str) : list (option str) :=
  execAllFrom (S (List.length s)) r [] s.

(** [s.split(re)]: the separator is searched at each position before the end
    of the string; a match that ends where the current piece starts is
    skipped. *)
Fixpoint splitFrom (fuel : nat) (r : regex) (sn : str) (piece : str) (rest : str)
  : list str :=
  match fuel with
  | O => [rev piece ++ rest]
  | S f =>
      match rest with
      | [] => [rev piece]
      | x :: t =>
          match matchAt r sn rest with
          | Some c =>
              if isEmpty piece
                 && (List.length rest <=? List.length (ahead c))%nat
              then splitFrom f r (x :: sn) (x :: piece) t
              else rev piece :: splitFrom f r (seen c) [] (ahead c)
          | None => splitFrom f r (x :: sn) (x :: piece) t
          end
      end
  end.

Definition split (r : regex) (s : str) : list str :=
  match s with
  | [] => match matchAt r [] [] with Some _ => [] | None => [[]] end
  | _ => splitFrom (2 * List.length s + 2) r [] [] s
  end.

(** *** Pattern combinators *)

Definition chr (c : char) : regex := Class (N.eqb c).
Definition notChr (c : char) : regex := Class (fun x => negb (N.eqb x c)).
Definition oneOf (cs : str) : regex := Class (fun x => existsb (N.eqb x) cs).
Definition noneOf (cs : str) : regex := Class (fun x => negb (existsb (N.eqb x) cs)).
Definition range (lo hi : char) : regex := Class (fun x => (lo <=? x) && (x <=? hi))%N.
Definition space : regex := Class isSpace.

Definition plus (r : regex) : regex := Cat r (Star r).
Definition opt (r : regex) : regex := Or r Eps.

(** [r{1,n+1}], greedy. *)
Fixpoint upTo (n : nat) (r : regex) : regex :=
  match n with
  | O => r
  | S n' => Cat r (opt (upTo n' r))
  end.

(** Case folding of the i flag on ASCII letters. *)
Definition lower (c : char) : char :=
  if ((65 <=? c) && (c <=? 90))%N then (c + 32)%N else c.

Definition chrI (c : char) : regex := Class (fun x => N.eqb (lower x) (lower c)).

Fixpoint seqOf (f : char -> regex) (s : str) : regex :=
  match s with
  | [] => Eps
  | [c] => f c
  | c :: t => Cat (f c) (seqOf f t)
  end.

(** A literal, case-sensitive and under the i flag. *)
Definition text (s : string) : regex := seqOf chr (lit s).
Definition textI (s : string) : regex := seqOf chrI (lit s).

End Regex.

(* ================================================================== *)
(** ** The generator *)
(* ================================================================== *)

Module StoryGenerator.
Import JS Regex.

Declare Scope regex_scope.
Delimit Scope regex_scope with re.
Infix ">>" := Cat (at level 40, left associativity) : regex_scope.
Infix "<|>" := Or (at level 50, left associativity) : regex_scope.
Local Open Scope regex_scope.

(** *** Data model *)

Inductive SlideType := title_ | content_ | image_ | quote_ | cta_.
Inductive TextAlign := left_ | center_ | right_.
Inductive Layout := fill_ | fixed_ | intrinsic_ | responsive_.

Definition SlideType_eqb (a b : SlideType) : bool :=
  match a, b with
  | title_, title_ | content_, content_ | image_, image_
  | quote_, quote_ | cta_, cta_ => true
  | _, _ => false
  end.

Module Content.
Record t := {
  title : option str;
  subtitle : option str;
  text : option str;
  image : option str;
  imageAlt : option str;
  quote : option str;
  author : option str;
  buttonText : option str;
  buttonUrl : option str
}.
End Content.

Module Style.
Record t := {
  backgroundColor : str;
  textColor : str;
  accentColor : option str;
  fontFamily : str;
  animation : option str;
  duration : Q;
  textAlign : option TextAlign
}.
End Style.

Module Slide.
Record t := {
  id : str;
  type : SlideType;
  content : Content.t;
  style : Style.t;
  layout : option Layout
}.
End Slide.
Abbreviation StorySlide := Slide.t.

Module Config.
Record t := {
  backgroundColor : str;
  textColor : str;
  accentColor : str;
  fontFamily : str;
  animations : list str
}.
End Config.

(** [Partial<StoryTemplate['config']>]: a field is absent or holds a value. *)
Module PartialConfig.
Record t := {
  backgroundColor : option str;
  textColor : option str;
  accentColor : option str;
  fontFamily : option str;
  animations : option (list str)
}.
Definition empty : t := Build_t None None None None None.
End PartialConfig.

Module Template.
Record t := {
  id : str;
  name : str;
  category : str;
  config : Config.t
}.
End Template.
Abbreviation StoryTemplate := Template.t.

Module Post.
Record t := {
  title : str;
  content : str;
  excerpt : option str;
  featuredImage : option str;
  categories : list str;
  tags : list str;
  author : str
}.
End Post.
Abbreviation WordPressPostData := Post.t.

(** The options object of [generateStory]; an absent field takes its default. *)
Module Options.
Record t := {
  maxSlides : option Z;
  includeTitle : option bool;
  includeCTA : option bool;
  ctaText : option str;
  ctaUrl : option str;
  customizations : option PartialConfig.t
}.
Definition empty : t := Build_t None None None None None None.
End Options.

(** The chunks of [segmentContent]. *)
Module Chunk.
Record t := {
  title : option str;
  text : str;
  image : option str;
  imageAlt : option str;
  hasImage : bool;
  isQuote : bool
}.
End Chunk.

Definition default {A} (o : option A) (d : A) : A :=
  match o with Some a => a | None => d end.

(** [{ ...this.template.config, ...customizations }] *)
Definition mergeConfig (c : Config.t) (p : PartialConfig.t) : Config.t :=
  {| Config.backgroundColor := default (PartialConfig.backgroundColor p) (Config.backgroundColor c);
     Config.textColor := default (PartialConfig.textColor p) (Config.textColor c);
     Config.accentColor := default (PartialConfig.accentColor p) (Config.accentColor c);
     Config.fontFamily := default (PartialConfig.fontFamily p) (Config.fontFamily c);
     Config.animations := default (PartialConfig.animations p) (Config.animations c) |}.

(** *** Sanitizer and paragraph classification *)

Definition lt_ : char := code "<".
Definition gt_ : char := code ">".
Definition slash_ : char := code "/".
Definition hash_ : char := code "#".
Definition squote_ : char := code "'".
Definition digit1to6 : regex := range (code "1") (code "6").

(** The pattern that removes script blocks, and the same one for [style].
    Written with blanks between its parts, which are not part of it:
    [/<script\b [^<]* (?: (?!<\/script>) <[^<]* )* <\/script>/gi]. *)
Definition blockOf (tag : string) : regex :=
  chr lt_ >> textI tag >> WordBoundary >> Star (notChr lt_)
  >> Star (NotAhead (textI "</" >> textI tag >> chr gt_) >> chr lt_ >> Star (notChr lt_))
  >> (textI "</" >> textI tag >> chr gt_).

(** [/<br\s*\/?>/gi] *)
Definition reBr : regex := textI "<br" >> Star space >> opt (chr slash_) >> chr gt_.
(** [/<\/p>/gi] *)
Definition rePClose : regex := textI "</p>".
(** [/<p[^>]*>/gi] *)
Definition rePOpen : regex := textI "<p" >> Star (notChr gt_) >> chr gt_.
(** [/<(?!\/?(strong|b|em|i|h[1-6]|blockquote|img)\b) [^>]* >/gi], written
    with blanks around its last star. *)
Definition reOtherTag : regex :=
  chr lt_
  >> NotAhead (opt (chr slash_)
               >> (textI "strong" <|> textI "b" <|> textI "em" <|> textI "i"
                   <|> (textI "h" >> digit1to6) <|> textI "blockquote"
                   <|> textI "img")
               >> WordBoundary)
  >> Star (notChr gt_) >> chr gt_.
(** [/\n\s*\n\s*\n/g] *)
Definition reBlankLines : regex :=
  chr LF >> Star space >> chr LF >> Star space >> chr LF.
(** [/\n\s*\n/] *)
Definition reParagraphBreak : regex := chr LF >> Star space >> chr LF.

Definition cleanHTML (html : str) : str :=
  let content := replaceAll (blockOf "script") [] html in
  let content := replaceAll (blockOf "style") [] content in
  let content := replaceAll (text "&nbsp;") (lit " ") content in
  let content := replaceAll (text "&amp;") (lit "&") content in
  let content := replaceAll (text "&lt;") (lit "<") content in
  let content := replaceAll (text "&gt;") (lit ">") content in
  let content := replaceAll (text "&quot;") [dquote] content in
  let content := replaceAll (text "&#39;") (lit "'") content in
  let content := replaceAll reBr [LF] content in
  let content := replaceAll rePClose [LF; LF] content in
  let content := replaceAll rePOpen [] content in
  let content := replaceAll reOtherTag [] content in
  let content := replaceAll reBlankLines [LF; LF] content in
  trim content.

(** [/^<h[1-6]|^#{1,6}\s/.test(text.trim())] *)
Definition reHeading : regex :=
  (Bos >> text "<h" >> digit1to6) <|> (Bos >> upTo 5 (chr hash_) >> space).

Definition isHeading (text : str) : bool := test reHeading (trim text).

(** [/^<blockquote|^>/.test(text.trim()) || text.includes('<blockquote')] *)
Definition reQuote : regex := (Bos >> text "<blockquote") <|> (Bos >> chr gt_).

Definition isQuote (text : str) : bool :=
  test reQuote (trim text) || includes text (lit "<blockquote").

(** [/<img[^>]*src/i] *)
Definition reImgSrc : regex := textI "<img" >> Star (notChr gt_) >> textI "src".

Definition hasImageInParagraph (text : str) : bool := test reImgSrc text.

Definition quoteChars : str := [dquote; squote_].

(** [/<img[^>]*ATTR=[Q]([^Q]+)[Q][^>]*>/i], where Q stands for the two quote
    characters (double and single) and ATTR is [src] or [alt]. *)
Definition reImgAttr (attr : string) : regex :=
  textI "<img" >> Star (notChr gt_) >> textI attr >> chr (code "=")
  >> oneOf quoteChars >> Group (plus (noneOf quoteChars)) >> oneOf quoteChars
  >> Star (notChr gt_) >> chr gt_.

Definition extractImageFromParagraph (text : str) : option str :=
  matchGroup (reImgAttr "src") text.

Definition extractImageAlt (text : str) : option str :=
  matchGroup (reImgAttr "alt") text.

(** [/<\/?h[1-6][^>]*>/gi] and [/^#{1,6}\s/] *)
Definition reHeadingTag : regex :=
  chr lt_ >> opt (chr slash_) >> textI "h" >> digit1to6
  >> Star (notChr gt_) >> chr gt_.
Definition reHashes : regex := Bos >> upTo 5 (chr hash_) >> space.

Definition cleanHeadingText (text : str) : str :=
  trim (replaceFirst reHashes [] (replaceAll reHeadingTag [] text)).

(** [/<\/?blockquote[^>]*>/gi] and [/^>\s?/] *)
Definition reBlockquoteTag : regex :=
  chr lt_ >> opt (chr slash_) >> textI "blockquote"
  >> Star (notChr gt_) >> chr gt_.
Definition reQuoteMark : regex := Bos >> chr gt_ >> opt space.

Definition cleanQuoteText (text : str) : str :=
  trim (replaceFirst reQuoteMark [] (replaceAll reBlockquoteTag [] text)).

Definition extractTitle (text : str) : option str :=
  let lines := filter (fun line => truthy (trim line)) (splitOn LF [] text) in
  match lines with
  | [] => None
  | l0 :: more =>
      let firstLine := trim l0 in
      match more with
      | l1 :: _ =>
          if (List.length firstLine <? 100)%nat
             && (List.length firstLine <? List.length l1)%nat
          then Some firstLine else None
      | [] => None
      end
  end.

(** [/<img[^>]+src=[Q]([^Q]+)[Q][^>]*>/gi], Q as above. *)
Definition reImgGlobal : regex :=
  textI "<img" >> plus (notChr gt_) >> textI "src=" 
  >> oneOf quoteChars >> Group (plus (noneOf quoteChars)) >> oneOf quoteChars
  >> Star (notChr gt_) >> chr gt_.

Definition extractImages (htmlContent : str) : list str :=
  map (fun g => default g []) (execAll reImgGlobal htmlContent).

(** *** Segmenter *)

Definition maxWordsPerSlide : nat := 50.

(** [/\s+/] *)
Definition reSpaces : regex := plus space.

(** [paragraph.trim().split(/\s+/)] *)
Definition wordsOf (paragraph : str) : list str :=
  split reSpaces (trim paragraph).

(** [cleanContent.split(/\n\s*\n/).filter(p => p.trim().length > 0)] *)
Definition paragraphsOf (cleanContent : str) : list str :=
  filter (fun p => (0 <? List.length (trim p))%nat) (split reParagraphBreak cleanContent).

(** The variables of the loop of [segmentContent]. *)
Record SegState := {
  chunks : list Chunk.t;
  currentChunk : str;
  chunkWordCount : nat
}.

Definition plainChunk (title : option str) (text : str) : Chunk.t :=
  {| Chunk.title := title; Chunk.text := text; Chunk.image := None;
     Chunk.imageAlt := None; Chunk.hasImage := false; Chunk.isQuote := false |}.

Definition resetBuffer (cs : list Chunk.t) : SegState :=
  {| chunks := cs; currentChunk := []; chunkWordCount := 0 |}.

(** A heading closes a non-empty buffer. *)
Definition closeBeforeHeading (paragraph : str) (st : SegState) : SegState :=
  if isHeading paragraph && truthy (currentChunk st)
  then resetBuffer (chunks st ++ [plainChunk None (trim (currentChunk st))])
  else st.

(** A paragraph that does not fit closes a non-empty buffer. *)
Definition closeOnOverflow (paragraph : str) (st : SegState) : SegState :=
  if (maxWordsPerSlide <? chunkWordCount st + List.length (wordsOf paragraph))%nat
     && truthy (currentChunk st)
  then resetBuffer
         (chunks st ++
          [plainChunk (if isHeading paragraph then None
                       else extractTitle (currentChunk st))
                      (trim (currentChunk st))])
  else st.

Definition appendParagraph (paragraph : str) (st : SegState) : SegState :=
  {| chunks := chunks st;
     currentChunk :=
       (if truthy (currentChunk st) then currentChunk st ++ [LF; LF]
        else currentChunk st) ++ paragraph;
     chunkWordCount := chunkWordCount st + List.length (wordsOf paragraph) |}.

(** A quote or an image closes the buffer at once. *)
Definition closeOnQuoteOrImage (paragraph : str) (st : SegState) : SegState :=
  let isQ := isQuote paragraph in
  let hasI := hasImageInParagraph paragraph in
  if isQ || hasI
  then resetBuffer
         (chunks st ++
          [{| Chunk.title := if isHeading paragraph
                             then Some (cleanHeadingText paragraph) else None;
              Chunk.text := if isQ then cleanQuoteText paragraph
                            else trim (currentChunk st);
              Chunk.image := if hasI then extractImageFromParagraph paragraph
                             else None;
              Chunk.imageAlt := if hasI then extractImageAlt paragraph else None;
              Chunk.hasImage := hasI;
              Chunk.isQuote := isQ |}])
  else st.

(** The body of the loop, up to the test that leaves it. *)
Definition segStep (st : SegState) (paragraph : str) : SegState :=
  closeOnQuoteOrImage paragraph
    (appendParagraph paragraph
       (closeOnOverflow paragraph
          (closeBeforeHeading paragraph st))).

(** [for (const paragraph of paragraphs) { ...; if (chunks.length >= maxChunks) break; }] *)
Fixpoint segLoop (maxChunks : Z) (st : SegState) (paragraphs : list str) : SegState :=
  match paragraphs with
  | [] => st
  | paragraph :: more =>
      let st' := segStep st paragraph in
      if (maxChunks <=? Z.of_nat (List.length (chunks st')))%Z then st'
      else segLoop maxChunks st' more
  end.

Definition segInit : SegState := resetBuffer [].

(** The remaining buffer becomes the last chunk; the result is cut at
    [maxChunks]. *)
Definition segFinish (maxChunks : Z) (st : SegState) : list Chunk.t :=
  let cs :=
    if truthy (trim (currentChunk st))
       && (Z.of_nat (List.length (chunks st)) <? maxChunks)%Z
    then chunks st ++ [plainChunk None (trim (currentChunk st))]
    else chunks st in
  slice0 cs maxChunks.

Definition segmentParagraphs (paragraphs : list str) (maxChunks : Z) : list Chunk.t :=
  segFinish maxChunks (segLoop maxChunks segInit paragraphs).

Definition segmentContent (htmlContent : str) (maxChunks : Z) : list Chunk.t :=
  segmentParagraphs (paragraphsOf (cleanHTML htmlContent)) maxChunks.

(** *** Excerpt, animation, colour variant, duration *)

(** [/[.!?]+/] *)
Definition reSentenceEnd : regex := plus (oneOf (lit ".!?")).

(** The loop of [generateExcerpt]; it stops at the first sentence that does
    not fit. *)
Fixpoint excerptLoop (maxLength : nat) (excerpt : str) (sentences : list str) : str :=
  match sentences with
  | [] => excerpt
  | sentence :: more =>
      if (maxLength <? List.length (excerpt ++ sentence))%nat then excerpt
      else excerptLoop maxLength (excerpt ++ sentence ++ lit ". ") more
  end.

Definition generateExcerptWith (maxLength : nat) (content : str) : str :=
  let cleanContent := cleanHTML content in
  let sentences :=
    filter (fun s => (0 <? List.length (trim s))%nat) (split reSentenceEnd cleanContent) in
  let excerpt := excerptLoop maxLength [] sentences in
  if truthy (trim excerpt) then trim excerpt
  else substring0 maxLength cleanContent ++ lit "...".

Definition generateExcerpt (content : str) : str := generateExcerptWith 160 content.

(** [animations[Math.floor(Math.random() * animations.length)]], given the
    Number [r] that [Math.random()] returned; the product is rounded. *)
Definition getRandomAnimation (r : Q) (animations : list str) : option str :=
  let i := Qfloor (fmul r (inject_Z (Z.of_nat (List.length animations)))) in
  if (i <? 0)%Z then None else nth_error animations (Z.to_nat i).

Definition getVariantColor (baseColor : str) (index : nat) : str :=
  if includes baseColor (lit "gradient") then
    let variants :=
      [ baseColor;
        replaceStr (lit "135deg") (lit "45deg") baseColor;
        replaceStr (lit "135deg") (lit "225deg") baseColor;
        replaceStr (lit "135deg") (lit "315deg") baseColor ] in
    nth (index mod List.length variants) variants baseColor
  else baseColor.

(** [text.trim().split(/\s+/).length] *)
Definition wordCount (text : str) : nat := List.length (wordsOf text).

(** Durations are Numbers.  The literal [0.1] denotes the binary64 value
    nearest to one tenth; 3 and 8 are binary64 values themselves. *)
Definition baseTime : Q := 3.
Definition timePerWord : Q := fl (1 # 10).

Definition Qmin (a b : Q) : Q := if Qle_bool a b then a else b.
Definition Qmax (a b : Q) : Q := if Qle_bool a b then b else a.

(** [Math.min(Math.max(baseTime + (wordCount * timePerWord), 3), 8)]: the
    product is rounded, then the sum; [Math.max] and [Math.min] return one
    of their arguments. *)
Definition calculateSlideDuration (text : str) : Q :=
  Qmin (Qmax (fadd baseTime (fmul (inject_Z (Z.of_nat (wordCount text))) timePerWord)) 3) 8.

(** *** Slide assembly *)

Section Generator.

(** The generator object holds its template. *)
Variable template : StoryTemplate.

(** [Math.random]: the Number returned by the call of a given rank
    (0 for the first call of an invocation of [generateStory]). *)
Variable random : nat -> Q.

Definition createTitleSlide (postData : WordPressPostData) (config : Config.t)
    (call : nat) : StorySlide :=
  {| Slide.id := lit "1";
     Slide.type := title_;
     Slide.content :=
       {| Content.title := Some (Post.title postData);
          Content.subtitle :=
            Some (if optTruthy (Post.excerpt postData)
                  then default (Post.excerpt postData) []
                  else generateExcerpt (Post.content postData));
          Content.text := None;
          Content.image := Post.featuredImage postData;
          Content.imageAlt := None;
          Content.quote := None;
          Content.author := None;
          Content.buttonText := None;
          Content.buttonUrl := None |};
     Slide.style :=
       {| Style.backgroundColor := Config.backgroundColor config;
          Style.textColor := Config.textColor config;
          Style.accentColor := Some (Config.accentColor config);
          Style.fontFamily := Config.fontFamily config;
          Style.animation := getRandomAnimation (random call) (Config.animations config);
          Style.duration := 6;
          Style.textAlign := Some center_ |};
     Slide.layout := Some fill_ |}.

(** The slide built from the chunk of rank [index]. *)
Definition contentSlide (postData : WordPressPostData) (config : Config.t)
    (images : list str) (call : nat) (index : nat) (chunk : Chunk.t) : StorySlide :=
  let slideType :=
    if Chunk.isQuote chunk then quote_
    else if Chunk.hasImage chunk && (0 <? List.length images)%nat then image_
    else content_ in
  {| Slide.id := natToString (index + 2);
     Slide.type := slideType;
     Slide.content :=
       {| Content.title := Chunk.title chunk;
          Content.subtitle := None;
          Content.text := Some (Chunk.text chunk);
          Content.image :=
            orElse (Chunk.image chunk)
                   (orElse (nth_error images (index mod List.length images)) None);
          Content.imageAlt := Chunk.imageAlt chunk;
          Content.quote := if Chunk.isQuote chunk then Some (Chunk.text chunk) else None;
          Content.author := if Chunk.isQuote chunk then Some (Post.author postData) else None;
          Content.buttonText := None;
          Content.buttonUrl := None |};
     Slide.style :=
       {| Style.backgroundColor := getVariantColor (Config.backgroundColor config) index;
          Style.textColor := Config.textColor config;
          Style.accentColor := Some (Config.accentColor config);
          Style.fontFamily := Config.fontFamily config;
          Style.animation := getRandomAnimation (random (call + index)) (Config.animations config);
          Style.duration := calculateSlideDuration (Chunk.text chunk);
          Style.textAlign :=
            Some (if SlideType_eqb slideType quote_ then center_ else left_) |};
     Slide.layout :=
       Some (if SlideType_eqb slideType image_ then fill_ else responsive_) |}.

(** [contentChunks.forEach((chunk, index) => ...)] *)
Fixpoint eachChunk (f : nat -> Chunk.t -> StorySlide) (index : nat)
    (contentChunks : list Chunk.t) : list StorySlide :=
  match contentChunks with
  | [] => []
  | chunk :: more => f index chunk :: eachChunk f (S index) more
  end.

(** [call] is the number of calls of [Math.random] made before this one;
    each chunk makes one. *)
Definition createContentSlides (postData : WordPressPostData) (config : Config.t)
    (maxSlides : Z) (call : nat) : list StorySlide :=
  let contentChunks := segmentContent (Post.content postData) maxSlides in
  let images := extractImages (Post.content postData) in
  let slides := eachChunk (contentSlide postData config images call) 0 contentChunks in
  slice0 slides maxSlides.

Definition createCTASlide (postData : WordPressPostData) (config : Config.t)
    (ctaText ctaUrl : str) : StorySlide :=
  {| Slide.id := lit "cta";
     Slide.type := cta_;
     Slide.content :=
       {| Content.title := Some (lit "Learn More About " ++ Post.title postData);
          Content.subtitle :=
            Some (lit "Continue reading the full article for more insights");
          Content.text := None;
          Content.image := None;
          Content.imageAlt := None;
          Content.quote := None;
          Content.author := None;
          Content.buttonText := Some ctaText;
          Content.buttonUrl := Some ctaUrl |};
     Slide.style :=
       {| Style.backgroundColor :=
            if truthy (Config.accentColor config) then Config.accentColor config
            else Config.backgroundColor config;
          Style.textColor := Config.textColor config;
          Style.accentColor := Some (Config.backgroundColor config);
          Style.fontFamily := Config.fontFamily config;
          Style.animation := Some (lit "zoom");
          Style.duration := 5;
          Style.textAlign := Some center_ |};
     Slide.layout := Some fill_ |}.

Definition optMaxSlides (options : Options.t) : Z := default (Options.maxSlides options) 10%Z.
Definition optIncludeTitle (options : Options.t) : bool := default (Options.includeTitle options) true.
Definition optIncludeCTA (options : Options.t) : bool := default (Options.includeCTA options) true.
Definition optCtaText (options : Options.t) : str :=
  default (Options.ctaText options) (lit "Read Full Article").
Definition optCtaUrl (options : Options.t) : str := default (Options.ctaUrl options) (lit "#").
Definition optCustomizations (options : Options.t) : PartialConfig.t :=
  default (Options.customizations options) PartialConfig.empty.

(** [maxSlides - (includeTitle ? 1 : 0) - (includeCTA ? 1 : 0)] *)
Definition contentBudget (options : Options.t) : Z :=
  (optMaxSlides options - (if optIncludeTitle options then 1 else 0)
   - (if optIncludeCTA options then 1 else 0))%Z.

Definition generateStory (postData : WordPressPostData) (options : Options.t)
  : list StorySlide :=
  let config := mergeConfig (Template.config template) (optCustomizations options) in
  let slides := [] in
  let slides :=
    if optIncludeTitle options then slides ++ [createTitleSlide postData config 0]
    else slides in
  let contentSlides :=
    createContentSlides postData config (contentBudget options)
      (if optIncludeTitle options then 1 else 0) in
  let slides := slides ++ contentSlides in
  let slides :=
    if optIncludeCTA options
    then slides ++ [createCTASlide postData config (optCtaText options) (optCtaUrl options)]
    else slides in
  slides.

End Generator.

(** [createStoryGenerator]: the generator is its template; [None] stands for
    the error thrown when no template has the id. *)
Definition createStoryGenerator (templateId : str) (templates : list StoryTemplate)
  : option StoryTemplate :=
  find (fun t => str_eqb (Template.id t) templateId) templates.

End StoryGenerator.

(* ================================================================== *)
(** ** Markup renderer and validator *)
(* ================================================================== *)

Module Markup.
Import JS Regex StoryGenerator.

Module Metadata.
Record t := {
  title : str;
  description : str;
  author : str;
  publisherName : str;
  publisherLogo : str;
  canonicalUrl : str
}.
End Metadata.

(** [a || d] where [a] may be undefined. *)
Definition strOr (a : option str) (d : str) : str :=
  match a with
  | Some x => if truthy x then x else d
  | None => d
  end.

Definition alignName (a : TextAlign) : str :=
  match a with
  | left_ => lit "left"
  | center_ => lit "center"
  | right_ => lit "right"
  end.

(** [arr.map((x, index) => f(x, index))] *)
Fixpoint mapIndexed {A B} (f : A -> nat -> B) (index : nat) (l : list A) : list B :=
  match l with
  | [] => []
  | x :: t => f x index :: mapIndexed f (S index) t
  end.

(** Backslash, for the replacement strings of [escapeJSON]. *)
Definition backslash : char := 92%N.

Definition escapeJSON (s : str) : str :=
  replaceAll (chr CR) [backslash; code "r"]
    (replaceAll (chr LF) [backslash; code "n"]
       (replaceAll (chr dquote) [backslash; dquote] s)).

Section Renderer.

(** [escapeHTML] goes through the host's document object
    ([div.textContent = str; return div.innerHTML]); it is a parameter of the
    renderer.  So is the time stamp [new Date().toISOString()]. *)
Variable escapeHTML : str -> str.
Variable nowISO : str.

Definition generateTitleSlideAMP (slide : StorySlide) : str :=
  (tpl "
        <div class=`story-title-container` style=`text-align: "
 ++ alignName (default (Style.textAlign (Slide.style slide)) center_)
 ++ tpl "; color: "
 ++ Style.textColor (Slide.style slide)
 ++ tpl "; font-family: "
 ++ Style.fontFamily (Slide.style slide)
 ++ tpl ";`>
          <h1 style=`font-size: 2.5em; margin-bottom: 0.5em; line-height: 1.2;`>
            "
 ++ escapeHTML (strOr (Content.title (Slide.content slide)) [])
 ++ tpl "
          </h1>
          "
 ++ (if optTruthy (Content.subtitle (Slide.content slide))
 then (tpl "
          <p style=`font-size: 1.2em; opacity: 0.9; line-height: 1.4;`>
            "
 ++ escapeHTML (default (Content.subtitle (Slide.content slide)) [])
 ++ tpl "
          </p>")
 else [])
 ++ tpl "
        </div>").

Definition generateContentSlideAMP (slide : StorySlide) : str :=
  (tpl "
        <div class=`story-content-container` style=`color: "
 ++ Style.textColor (Slide.style slide)
 ++ tpl "; font-family: "
 ++ Style.fontFamily (Slide.style slide)
 ++ tpl ";`>
          "
 ++ (if optTruthy (Content.title (Slide.content slide))
 then (tpl "
          <h2 style=`font-size: 1.8em; margin-bottom: 1em; color: "
 ++ strOr (Style.accentColor (Slide.style slide)) (Style.textColor (Slide.style slide))
 ++ tpl ";`>
            "
 ++ escapeHTML (default (Content.title (Slide.content slide)) [])
 ++ tpl "
          </h2>")
 else [])
 ++ tpl "
          <div style=`font-size: 1.1em; line-height: 1.6; text-align: "
 ++ alignName (default (Style.textAlign (Slide.style slide)) left_)
 ++ tpl ";`>
            "
 ++ replaceAll (chr LF) (lit "<br>") (escapeHTML (strOr (Content.text (Slide.content slide)) []))
 ++ tpl "
          </div>
        </div>").

Definition generateImageSlideAMP (slide : StorySlide) : str :=
  (tpl "
        "
 ++ (if optTruthy (Content.image (Slide.content slide))
 then (tpl "
        <amp-img src=`"
 ++ default (Content.image (Slide.content slide)) []
 ++ tpl "`
                 alt=`"
 ++ escapeHTML (strOr (Content.imageAlt (Slide.content slide)) [])
 ++ tpl "`
                 layout=`fill`
                 object-fit=`cover`>
        </amp-img>")
 else [])
 ++ tpl "
        <div class=`story-image-overlay` style=`background: linear-gradient(transparent, rgba(0,0,0,0.7)); color: "
 ++ Style.textColor (Slide.style slide)
 ++ tpl "; font-family: "
 ++ Style.fontFamily (Slide.style slide)
 ++ tpl ";`>
          "
 ++ (if optTruthy (Content.title (Slide.content slide))
 then (tpl "
          <h2 style=`font-size: 1.8em; margin-bottom: 0.5em;`>
            "
 ++ escapeHTML (default (Content.title (Slide.content slide)) [])
 ++ tpl "
          </h2>")
 else [])
 ++ tpl "
          "
 ++ (if optTruthy (Content.text (Slide.content slide))
 then (tpl "
          <p style=`font-size: 1.1em; line-height: 1.5;`>
            "
 ++ escapeHTML (default (Content.text (Slide.content slide)) [])
 ++ tpl "
          </p>")
 else [])
 ++ tpl "
        </div>").

Definition generateQuoteSlideAMP (slide : StorySlide) : str :=
  (tpl "
        <div class=`story-quote-container` style=`text-align: center; color: "
 ++ Style.textColor (Slide.style slide)
 ++ tpl "; font-family: "
 ++ Style.fontFamily (Slide.style slide)
 ++ tpl ";`>
          <blockquote style=`font-size: 1.5em; line-height: 1.4; margin: 0; font-style: italic;`>
            `"
 ++ escapeHTML (strOr (Content.quote (Slide.content slide)) (strOr (Content.text (Slide.content slide)) []))
 ++ tpl "`
          </blockquote>
          "
 ++ (if optTruthy (Content.author (Slide.content slide))
 then (tpl "
          <cite style=`display: block; margin-top: 1em; font-size: 1em; opacity: 0.8;`>
            "
 ++ [emDash]
 ++ tpl " "
 ++ escapeHTML (default (Content.author (Slide.content slide)) [])
 ++ tpl "
          </cite>")
 else [])
 ++ tpl "
        </div>").

Definition generateCTASlideAMP (slide : StorySlide) : str :=
  (tpl "
        <div class=`story-cta-container` style=`text-align: center; color: "
 ++ Style.textColor (Slide.style slide)
 ++ tpl "; font-family: "
 ++ Style.fontFamily (Slide.style slide)
 ++ tpl ";`>
          <h2 style=`font-size: 2em; margin-bottom: 0.5em;`>
            "
 ++ escapeHTML (strOr (Content.title (Slide.content slide)) [])
 ++ tpl "
          </h2>
          "
 ++ (if optTruthy (Content.subtitle (Slide.content slide))
 then (tpl "
          <p style=`font-size: 1.2em; margin-bottom: 2em; opacity: 0.9;`>
            "
 ++ escapeHTML (default (Content.subtitle (Slide.content slide)) [])
 ++ tpl "
          </p>")
 else [])
 ++ tpl "
          "
 ++ (if optTruthy (Content.buttonUrl (Slide.content slide))
 then (tpl "
          <a href=`"
 ++ default (Content.buttonUrl (Slide.content slide)) []
 ++ tpl "` 
             style=`display: inline-block; background: "
 ++ strOr (Style.accentColor (Slide.style slide)) (Style.textColor (Slide.style slide))
 ++ tpl "; color: "
 ++ Style.backgroundColor (Slide.style slide)
 ++ tpl "; padding: 1em 2em; text-decoration: none; border-radius: 2em; font-weight: bold;`>
            "
 ++ escapeHTML (strOr (Content.buttonText (Slide.content slide)) (lit "Learn More"))
 ++ tpl "
          </a>")
 else [])
 ++ tpl "
        </div>").

Definition generateSlideAMP (slide : StorySlide) (index : nat) : str :=
  let slideId := lit "slide-" ++ Slide.id slide in
  let slideContent :=
    match Slide.type slide with
    | title_ => generateTitleSlideAMP slide
    | content_ => generateContentSlideAMP slide
    | image_ => generateImageSlideAMP slide
    | quote_ => generateQuoteSlideAMP slide
    | cta_ => generateCTASlideAMP slide
    end in
  (tpl "
    <amp-story-page id=`"
 ++ slideId
 ++ tpl "`>
      <amp-story-grid-layer template=`fill` style=`background: "
 ++ Style.backgroundColor (Slide.style slide)
 ++ tpl ";`>
      </amp-story-grid-layer>
      <amp-story-grid-layer template=`vertical`>
        "
 ++ slideContent
 ++ tpl "
      </amp-story-grid-layer>
    </amp-story-page>").

(** [slides[0]?.content.image || metadata.publisherLogo] *)
Definition posterOf (slides : list StorySlide) (metadata : Metadata.t) : str :=
  match slides with
  | slide :: _ => strOr (Content.image (Slide.content slide)) (Metadata.publisherLogo metadata)
  | [] => Metadata.publisherLogo metadata
  end.

(** The template literal of [generateAMPHTML], before it is trimmed. *)
Definition ampTemplate (slides : list StorySlide) (metadata : Metadata.t) : str :=
  (tpl "
<!doctype html>
<html "
 ++ [highVoltage]
 ++ tpl " lang=`en`>
<head>
  <meta charset=`utf-8`>
  <title>"
 ++ escapeHTML (Metadata.title metadata)
 ++ tpl "</title>
  <link rel=`canonical` href=`"
 ++ Metadata.canonicalUrl metadata
 ++ tpl "`>
  <meta name=`viewport` content=`width=device-width,minimum-scale=1,initial-scale=1`>
  <meta name=`description` content=`"
 ++ escapeHTML (Metadata.description metadata)
 ++ tpl "`>
  
  <!-- Web Stories specific meta -->
  <meta property=`og:type` content=`article`>
  <meta property=`og:title` content=`"
 ++ escapeHTML (Metadata.title metadata)
 ++ tpl "`>
  <meta property=`og:description` content=`"
 ++ escapeHTML (Metadata.description metadata)
 ++ tpl "`>
  
  <!-- AMP boilerplate -->
  <style amp-boilerplate>body{-webkit-animation:-amp-start 8s steps(1,end) 0s 1 normal both;-moz-animation:-amp-start 8s steps(1,end) 0s 1 normal both;-ms-animation:-amp-start 8s steps(1,end) 0s 1 normal both;animation:-amp-start 8s steps(1,end) 0s 1 normal both}@-webkit-keyframes -amp-start{from{visibility:hidden}to{visibility:visible}}@-moz-keyframes -amp-start{from{visibility:hidden}to{visibility:visible}}@-ms-keyframes -amp-start{from{visibility:hidden}to{visibility:visible}}@-o-keyframes -amp-start{from{visibility:hidden}to{visibility:visible}}@keyframes -amp-start{from{visibility:hidden}to{visibility:visible}}</style><noscript><style amp-boilerplate>body{-webkit-animation:none;-moz-animation:none;-ms-animation:none;animation:none}</style></noscript>
  
  <!-- AMP Web Story -->
  <script async src=`https://cdn.ampproject.org/v0.js`></script>
  <script async custom-element=`amp-story` src=`https://cdn.ampproject.org/v0/amp-story-1.0.js`></script>
  <script async custom-element=`amp-story-auto-ads` src=`https://cdn.ampproject.org/v0/amp-story-auto-ads-0.1.js`></script>
  
  <!-- JSON-LD structured data -->
  <script type=`application/ld+json`>
  {
    `@context`: `http://schema.org`,
    `@type`: `Article`,
    `headline`: `"
 ++ escapeJSON (Metadata.title metadata)
 ++ tpl "`,
    `description`: `"
 ++ escapeJSON (Metadata.description metadata)
 ++ tpl "`,
    `author`: {
      `@type`: `Person`,
      `name`: `"
 ++ escapeJSON (Metadata.author metadata)
 ++ tpl "`
    },
    `publisher`: {
      `@type`: `Organization`,
      `name`: `"
 ++ escapeJSON (Metadata.publisherName metadata)
 ++ tpl "`,
      `logo`: {
        `@type`: `ImageObject`,
        `url`: `"
 ++ Metadata.publisherLogo metadata
 ++ tpl "`
      }
    },
    `url`: `"
 ++ Metadata.canonicalUrl metadata
 ++ tpl "`,
    `datePublished`: `"
 ++ nowISO
 ++ tpl "`
  }
  </script>
</head>

<body>
  <amp-story standalone
            title=`"
 ++ escapeHTML (Metadata.title metadata)
 ++ tpl "`
            publisher=`"
 ++ escapeHTML (Metadata.publisherName metadata)
 ++ tpl "`
            publisher-logo-src=`"
 ++ Metadata.publisherLogo metadata
 ++ tpl "`
            poster-portrait-src=`"
 ++ posterOf slides metadata
 ++ tpl "`>
    
    "
 ++ join [LF] (mapIndexed generateSlideAMP 0 slides)
 ++ tpl "
    
    <!-- Auto ads (optional) -->
    <amp-story-auto-ads>
      <script type=`application/json`>
      {
        `ad-attributes`: {
          `type`: `doubleclick`,
          `data-slot`: `/30497360/a4a/amp_story_dfp_example`
        }
      }
      </script>
    </amp-story-auto-ads>
  </amp-story>
</body>
</html>").

Definition generateAMPHTML (slides : list StorySlide) (metadata : Metadata.t) : str :=
  trim (ampTemplate slides metadata).

End Renderer.

Module Validation.
Record t := {
  isValid : bool;
  errors : list str;
  warnings : list str
}.
End Validation.

(** [errors.length === 0] *)
Definition isEmpty_list {A} (l : list A) : bool :=
  match l with [] => true | _ => false end.

(** [if (cond) list.push(message)] *)
Definition pushIf {A} (cond : bool) (x : A) (l : list A) : list A :=
  if cond then l ++ [x] else l.

Definition validateAMPHTML (ampHTML : str) : Validation.t :=
  let errors := [] in
  let warnings := [] in
  let errors :=
    pushIf (negb (includes ampHTML [highVoltage]) && negb (includes ampHTML (lit "amp")))
           (lit "Missing AMP attribute in html tag") errors in
  let errors :=
    pushIf (negb (includes ampHTML (lit "amp-story")))
           (lit "Missing amp-story component") errors in
  let warnings :=
    pushIf (negb (includes ampHTML (lit "application/ld+json")))
           (lit "Missing structured data (JSON-LD)") warnings in
  let errors :=
    pushIf (negb (includes ampHTML (lit "viewport")))
           (lit "Missing viewport meta tag") errors in
  let warnings :=
    pushIf (negb (includes ampHTML (lit "canonical")))
           (lit "Missing canonical URL") warnings in
  {| Validation.isValid := isEmpty_list errors;
     Validation.errors := errors;
     Validation.warnings := warnings |}.

End Markup.

(* ================================================================== *)
(** ** Vocabulary of the statements and sample inputs *)
(* ================================================================== *)

Import JS Regex StoryGenerator Markup.

(** The pieces of [s] between its maximal runs of white space: a run at
    either end of the string leaves an empty piece there, and the empty
    string gives one empty piece.  [inSep] says that the previous code unit
    belonged to a separator.  This is what [s.split(/\s+/)] computes
    ([split_spaces] below). *)
Fixpoint splitSpaces (inSep : bool) (acc : str) (s : str) : list str :=
  match s with
  | [] => [rev acc]
  | c :: t =>
      if isSpace c then
        if inSep then splitSpaces true acc t
        else rev acc :: splitSpaces true [] t
      else splitSpaces false (c :: acc) t
  end.

(** The cursor behind the white space at a position. *)
Fixpoint skipSpaces (sn rest : str) (g : option str) : cursor :=
  match rest with
  | x :: t => if isSpace x then skipSpaces (x :: sn) t g
              else {| seen := sn; ahead := rest; grp := g |}
  | [] => {| seen := sn; ahead := []; grp := g |}
  end.

(** A string is blank when it holds white space only. *)
Definition blank (s : str) : bool := forallb isSpace s.

(** Number of words of [s]: the code units that are not white space and
    follow white space ([prev] tells whether the code unit before [s] is
    white space, or [s] starts the string). *)
Fixpoint nruns (prev : bool) (s : str) : nat :=
  match s with
  | [] => 0
  | c :: t =>
      if isSpace c then nruns true t
      else (if prev then 1 else 0) + nruns false t
  end.

(** Number of runs of white space in [s]. *)
Fixpoint nsep (prev : bool) (s : str) : nat :=
  match s with
  | [] => 0
  | c :: t =>
      if isSpace c then (if prev then 0 else 1) + nsep true t
      else nsep false t
  end.

(** Whether the last code unit is white space. *)
Fixpoint lastSpace (prev : bool) (s : str) : bool :=
  match s with
  | [] => prev
  | c :: t => lastSpace (isSpace c) t
  end.

Definition b2n (b : bool) : nat := if b then 1 else 0.

(** What the segmenter guarantees of a chunk, given the paragraphs [ps] of
    the content: a quote chunk holds the cleaned text of one paragraph; any
    other chunk is within the budget or holds one paragraph alone. *)
Definition withinBudget (ps : list str) (c : Chunk.t) : Prop :=
  (Chunk.isQuote c = true
   /\ exists p, In p ps /\ Chunk.text c = cleanQuoteText p)
  \/ (Chunk.isQuote c = false
      /\ (wordCount (Chunk.text c) <= maxWordsPerSlide
          \/ exists p, In p ps /\ Chunk.text c = trim p)).

(** The open buffer is empty, or it is not blank, its words are counted, and
    it is within the budget or holds one paragraph alone. *)
Definition bufferOk (ps : list str) (st : SegState) : Prop :=
  (currentChunk st = [] /\ chunkWordCount st = 0)
  \/ (blank (currentChunk st) = false
      /\ nruns true (currentChunk st) = chunkWordCount st
      /\ (chunkWordCount st <= maxWordsPerSlide \/ In (currentChunk st) ps)).

Definition segInv (ps : list str) (st : SegState) : Prop :=
  Forall (withinBudget ps) (chunks st) /\ bufferOk ps st.

(** Four for each chunk closed, plus one for every eleven words of the
    open buffer, at most four. *)
Definition packMeasure (st : SegState) : nat :=
  4 * List.length (chunks st) + Nat.min 4 (chunkWordCount st / 11).

(** The buffer is empty, with no word counted, or it is not blank. *)
Definition bufferInUse (st : SegState) : Prop :=
  (currentChunk st = [] /\ chunkWordCount st = 0)
  \/ blank (currentChunk st) = false.

(** A paragraph that closes a chunk at once. *)
Definition closesChunk (p : str) : bool := isQuote p || hasImageInParagraph p.

Definition countClosing (ps : list str) : nat := List.length (filter closesChunk ps).

(** The types a slide built from a chunk can have. *)
Definition isMiddleType (ty : SlideType) : Prop :=
  ty = content_ \/ ty = quote_ \/ ty = image_.

Definition countType (ty : SlideType) (slides : list StorySlide) : nat :=
  List.length (filter (fun s => SlideType_eqb (Slide.type s) ty) slides).

(** [(includeTitle ? 1 : 0) + (includeCTA ? 1 : 0)] *)
Definition fixedSlides (options : Options.t) : Z :=
  ((if optIncludeTitle options then 1 else 0)
   + (if optIncludeCTA options then 1 else 0))%Z.

(** [n] copies of [s], one after the other. *)
Definition copies (n : nat) (s : str) : str := List.concat (repeat s n).

(** The word count the loop keeps: the sum over the paragraphs. *)
Definition totalWords (ps : list str) : nat := list_sum (map wordCount ps).

(** A paragraph that is neither a heading, nor a quote, nor image-bearing. *)
Definition plainParagraph (p : str) : Prop :=
  isHeading p = false /\ isQuote p = false /\ hasImageInParagraph p = false.

(** The chunk a quote paragraph is closed as. *)
Definition quoteChunk (paragraph : str) : Chunk.t :=
  {| Chunk.title := if isHeading paragraph
                    then Some (cleanHeadingText paragraph) else None;
     Chunk.text := cleanQuoteText paragraph;
     Chunk.image := if hasImageInParagraph paragraph
                    then extractImageFromParagraph paragraph else None;
     Chunk.imageAlt := if hasImageInParagraph paragraph
                       then extractImageAlt paragraph else None;
     Chunk.hasImage := hasImageInParagraph paragraph;
     Chunk.isQuote := true |}.

(** One plain paragraph of 51 words. *)
Definition content51 : str := copies 51 (lit "word ").

(** Text before a heading in a short content. *)
Definition contentWithHeading : str :=
  lit "<p>Intro text</p><h2>Head</h2><p>Body text</p>".

(** A quote that is also a heading, after a plain paragraph. *)
Definition contentHeadingQuote : str :=
  lit "<p>intro words</p><h2><blockquote>q</blockquote></h2>".

(** Paragraphs: two plain ones, a quote, and a last plain one. *)
Definition contentBufferedQuote : list str :=
  [lit "First plain paragraph."; lit "Second one."; lit "> Quoted words";
   lit "Afterwards."].

(** Two quote paragraphs, the second one indented. *)
Definition contentIndentedQuote : str :=
  lit "> one" ++ [LF; LF] ++ lit " > two".

(** [clamp(x, lo, hi)] as the specification words it. *)
Definition clamp (x lo hi : Q) : Q :=
  if Qle_bool lo x then (if Qle_bool x hi then x else hi) else lo.

(** The duration of a text of [n] words as the specification gives it:
    [clamp(3 + n * 0.1, 3, 8)], in exact arithmetic. *)
Definition exactDuration (n : nat) : Q :=
  clamp (3 + inject_Z (Z.of_nat n) * (1 # 10))%Q 3 8.

(** The number of words of a text. *)
Definition wordsIn (text : str) : nat := nruns true text.

(** The duration the specification gives to a text. *)
Definition claimedDuration (text : str) : Q := exactDuration (wordsIn text).

(** The duration the code computes from a word count. *)
Definition durationOfCount (n : nat) : Q :=
  Qmin (Qmax (fadd baseTime (fmul (inject_Z (Z.of_nat n)) timePerWord)) 3) 8.

(** What is checked of each word count below 50: the duration is at least
    3.1 and below 8, not above that of the next count, and within [2^-50]
    of the exact value. *)
Definition durationRow (n : nat) : bool :=
  Qle_bool (31 # 10) (durationOfCount n)
  && negb (Qle_bool 8 (durationOfCount n))
  && Qle_bool (durationOfCount n) (durationOfCount (S n))
  && Qle_bool (Qabs (durationOfCount n - exactDuration n)) (1 # 1125899906842624).

(** The rounded product and sum of [calculateSlideDuration] once more, in
    the Standard Library's specification of IEEE 754 arithmetic at the
    binary64 format (53 bits of precision, exponents below 1024); [0.1] is
    the quotient of 1 by 10 there. *)
Definition b64_of_Z (z : Z) : spec_float := binary_normalize 53 1024 z 0 false.

Definition b64_toQ (f : spec_float) : option Q :=
  match f with
  | S754_zero _ => Some 0%Q
  | S754_finite s m e =>
      Some ((if s then - inject_Z (Z.pos m) else inject_Z (Z.pos m)) * 2 ^ e)%Q
  | _ => None
  end.

Definition b64_tenth : spec_float := SFdiv 53 1024 (b64_of_Z 1) (b64_of_Z 10).

Definition b64_sum (n : nat) : option Q :=
  b64_toQ (SFadd 53 1024 (b64_of_Z 3)
             (SFmul 53 1024 (b64_of_Z (Z.of_nat n)) b64_tenth)).

Definition sameNumber (a : option Q) (b : Q) : bool :=
  match a with
  | Some q => Qeq_bool q b
  | None => false
  end.

(** A text of 23 words. *)
Definition twentyThreeWords : str := copies 23 (lit "word ").

(** The duration of each slide of a story. *)
Definition slideDurationOk (s : StorySlide) : Prop :=
  let d := Style.duration (Slide.style s) in
  match Slide.type s with
  | title_ => d = 6%Q
  | cta_ => d = 5%Q
  | _ => exists text,
           Content.text (Slide.content s) = Some text
           /\ d = calculateSlideDuration text
  end
  /\ (31 # 10 <= d <= 8)%Q.

(** The binary64 value just below one third: [0.3333333333333333]. *)
Definition belowOneThird : Q := 6004799503160661 # 18014398509481984.

(** A document with no viewport marker, and one with no canonical marker. *)
Definition docNoViewport : str := lit "<html amp><amp-story></amp-story></html>".
Definition docNoCanonical : str :=
  lit "<html amp><meta name=viewport><amp-story></amp-story></html>".

Definition sampleTemplate : StoryTemplate :=
  {| Template.id := lit "modern";
     Template.name := lit "Modern";
     Template.category := lit "news";
     Template.config :=
       {| Config.backgroundColor := lit "linear-gradient(135deg, #667eea, #764ba2)";
          Config.textColor := lit "#ffffff";
          Config.accentColor := lit "#ffd700";
          Config.fontFamily := lit "Inter";
          Config.animations := [lit "fade-in"; lit "fly-in-left"] |} |}.

(** A stand-in for [Math.random]: 0, 1/4, 1/2, 3/4, 0, ... *)
Definition sampleRandom (call : nat) : Q := (Z.of_nat (call mod 4) # 4)%Q.

Definition postWith (content : str) : WordPressPostData :=
  {| Post.title := lit "Hello World";
     Post.content := content;
     Post.excerpt := None;
     Post.featuredImage := None;
     Post.categories := [];
     Post.tags := [];
     Post.author := lit "Ada" |}.

Definition optionsWith (maxSlides : Z) (includeTitle includeCTA : bool) : Options.t :=
  {| Options.maxSlides := Some maxSlides;
     Options.includeTitle := Some includeTitle;
     Options.includeCTA := Some includeCTA;
     Options.ctaText := None;
     Options.ctaUrl := None;
     Options.customizations := None |}.

(** Ten paragraphs of one word each, and ten of 26 words each. *)
Definition tenShortParagraphs : str :=
  lit "<p>a</p><p>b</p><p>c</p><p>d</p><p>e</p><p>f</p><p>g</p><p>h</p><p>i</p><p>j</p>".

Definition tenLongParagraphs : str :=
  copies 10 (lit "<p>" ++ copies 26 (lit "word ") ++ lit "</p>").

(** Ten quote paragraphs of two words each. *)
Definition tenQuoteParagraphs : str := copies 10 (lit "<p>&gt; q</p>").

(** Ten paragraphs of 20 words each. *)
Definition tenMediumParagraphs : str :=
  copies 10 (lit "<p>" ++ copies 20 (lit "word ") ++ lit "</p>").

Definition twoParagraphs : str :=
  lit "<p>First paragraph text here.</p><p>Second paragraph.</p>".

(** *** Vocabulary of the further properties *)

(** [c'] is [c] moved forward over some code units. *)
Definition advances (c c' : cursor) : Prop :=
  exists mid, ahead c = mid ++ ahead c' /\ seen c' = rev mid ++ seen c.

(** The class of the code unit a pattern must start with, when its syntax
    shows one. *)
Fixpoint leading (r : regex) : option (char -> bool) :=
  match r with
  | Class p => Some p
  | Cat r1 _ => leading r1
  | Group r1 => leading r1
  | _ => None
  end.

(** The code units that can start a replacement of [cleanHTML]: the opening
    angle bracket, the ampersand and the line feed. *)
Definition startsMarkup (x : char) : bool :=
  N.eqb x (code "<") || N.eqb x (code "&") || N.eqb x LF.

(** A text with no tag, no entity and no line break. *)
Definition markupFree (s : str) : bool := forallb (fun x => negb (startsMarkup x)) s.

(** Plain text between white space. *)
Definition paddedPlainText : str := lit "  Plain text, no markup at all.  ".

(** The chunk closed at a quote or image-bearing paragraph, given the buffer
    after the paragraph was appended. *)
Definition triggerChunk (paragraph buffer : str) : Chunk.t :=
  {| Chunk.title := if isHeading paragraph
                    then Some (cleanHeadingText paragraph) else None;
     Chunk.text := if isQuote paragraph then cleanQuoteText paragraph
                   else trim buffer;
     Chunk.image := if hasImageInParagraph paragraph
                    then extractImageFromParagraph paragraph else None;
     Chunk.imageAlt := if hasImageInParagraph paragraph
                       then extractImageAlt paragraph else None;
     Chunk.hasImage := hasImageInParagraph paragraph;
     Chunk.isQuote := isQuote paragraph |}.

(** The buffer is empty or not blank. *)
Definition bufferTidy (st : SegState) : Prop :=
  currentChunk st = [] \/ blank (currentChunk st) = false.

(** A text, a picture with a caption, and a last text. *)
Definition contentWithImage : str :=
  lit "<p>Before the picture.</p><p><img src='sea.png' alt='The sea'> A caption.</p><p>After it.</p>".

(** The ids of [k] content slides: "2", "3", ... *)
Definition contentIds (k : nat) : list str :=
  map (fun j => natToString (j + 2)) (seq 0 k).

(** The layout and the alignment [generateStory] gives to a slide of a type. *)
Definition layoutOf (ty : SlideType) : Layout :=
  match ty with
  | content_ | quote_ => responsive_
  | _ => fill_
  end.

Definition alignOf (ty : SlideType) : TextAlign :=
  match ty with
  | content_ | image_ => left_
  | _ => center_
  end.

(** What a slide shows besides its text, by type. *)
Definition slideShapeOk (author : str) (s : StorySlide) : Prop :=
  Slide.layout s = Some (layoutOf (Slide.type s))
  /\ Style.textAlign (Slide.style s) = Some (alignOf (Slide.type s))
  /\ (Slide.type s = quote_ ->
      Content.quote (Slide.content s) = Content.text (Slide.content s)
      /\ Content.author (Slide.content s) = Some author)
  /\ (Slide.type s <> quote_ ->
      Content.quote (Slide.content s) = None
      /\ Content.author (Slide.content s) = None).

(** What [escapeJSON] writes for one code unit. *)
Definition escapeUnit (x : char) : str :=
  if N.eqb x dquote then [backslash; dquote]
  else if N.eqb x LF then [backslash; code "n"]
  else if N.eqb x CR then [backslash; code "r"]
  else [x].

(** Replacement of every occurrence of one code unit. *)
Definition replaceUnit (c : char) (rep : str) (x : char) : str :=
  if N.eqb c x then rep else [x].

(** The text of a quote paragraph behind its marker and one white space. *)
Definition afterQuoteMark (rest : str) : str :=
  match rest with
  | x :: t => if isSpace x then t else rest
  | [] => []
  end.

(** The opening tag of the page of a slide. *)
Definition pageTag (slide : StorySlide) : str :=
  tpl "<amp-story-page id=`slide-" ++ Slide.id slide ++ tpl "`>".

(* ================================================================== *)
(** ** Facts about strings *)
(* ================================================================== *)

Section StringFacts.

Lemma startsWith_refl_app (m b : str) : startsWith (m ++ b) m = true.
Proof.
  induction m as [|a m IH]; simpl; [reflexivity|].
  now rewrite N.eqb_refl, IH.
Qed.

Lemma startsWith_app_l (a b m : str) :
  startsWith a m = true -> startsWith (a ++ b) m = true.
Proof.
  revert a; induction m as [|x m IH]; intros a H; [reflexivity|].
  destruct a as [|y a]; simpl in *; [discriminate|].
  apply andb_true_iff in H as [H1 H2].
  now rewrite H1, (IH _ H2).
Qed.

Lemma includes_app_l (a b m : str) :
  includes a m = true -> includes (a ++ b) m = true.
Proof.
  induction a as [|x a IH]; simpl; intros H.
  - rewrite orb_false_r in H. destruct m; [|discriminate].
    destruct b; reflexivity.
  - apply orb_true_iff in H as [H|H].
    + apply (startsWith_app_l (x :: a) b) in H. simpl in H. now rewrite H.
    + rewrite (IH H). apply orb_true_r.
Qed.

Lemma includes_app_r (a b m : str) :
  includes b m = true -> includes (a ++ b) m = true.
Proof.
  induction a as [|x a IH]; simpl; intros H; [assumption|].
  rewrite (IH H). apply orb_true_r.
Qed.

Lemma trimEnd_blank (s : str) : blank s = true -> trimEnd s = [].
Proof.
  induction s as [|c s IH]; simpl; [reflexivity|].
  intros H. apply andb_true_iff in H as [Hc Hs].
  now rewrite (IH Hs), Hc.
Qed.

Lemma trimEnd_nil_blank (s : str) : trimEnd s = [] -> blank s = true.
Proof.
  induction s as [|c s IH]; simpl; [reflexivity|].
  destruct (trimEnd s) eqn:E.
  - destruct (isSpace c); [intros _; now rewrite IH | discriminate].
  - discriminate.
Qed.

Lemma trimStart_blank (s : str) : blank s = true -> trimStart s = [].
Proof.
  induction s as [|c s IH]; simpl; [reflexivity|].
  intros H. apply andb_true_iff in H as [Hc Hs].
  rewrite Hc. now apply IH.
Qed.

Lemma blank_trimStart (s : str) : blank (trimStart s) = blank s.
Proof.
  induction s as [|c s IH]; simpl; [reflexivity|].
  destruct (isSpace c) eqn:E; simpl; [assumption | now rewrite E].
Qed.

(** [trimEnd] is [trimStart] read from the other end. *)
Lemma trimEnd_snoc (s : str) (c : char) :
  trimEnd (s ++ [c]) = if isSpace c then trimEnd s else s ++ [c].
Proof.
  induction s as [|x s IH]; simpl; [reflexivity|].
  rewrite IH. destruct (isSpace c); [reflexivity|].
  now destruct s.
Qed.

Lemma trimEnd_rev (s : str) : trimEnd s = rev (trimStart (rev s)).
Proof.
  induction s as [|c s IH] using rev_ind; [reflexivity|].
  rewrite trimEnd_snoc, rev_app_distr. simpl.
  destruct (isSpace c); [exact IH|].
  simpl. now rewrite rev_involutive.
Qed.

Lemma trim_nil_iff (s : str) : trim s = [] <-> blank s = true.
Proof.
  unfold trim. split; intros H.
  - apply trimEnd_nil_blank in H. now rewrite blank_trimStart in H.
  - apply trimEnd_blank. now rewrite blank_trimStart.
Qed.

Lemma truthy_trim (s : str) : truthy (trim s) = negb (blank s).
Proof.
  destruct (blank s) eqn:E.
  - apply trim_nil_iff in E. now rewrite E.
  - destruct (trim s) eqn:T; [|reflexivity].
    apply trim_nil_iff in T. congruence.
Qed.

Lemma blank_app (a b : str) : blank (a ++ b) = blank a && blank b.
Proof. apply forallb_app. Qed.

Lemma not_blank_nonempty (s : str) : blank s = false -> truthy s = true.
Proof. destruct s; [discriminate | reflexivity]. Qed.

(** A string that ends with a code unit that is not white space is its own
    [trimEnd]. *)
Lemma trimEnd_last_nonspace (s : str) (c : char) :
  isSpace c = false -> trimEnd (s ++ [c]) = s ++ [c].
Proof.
  intros Hc. induction s as [|x s IH]; simpl.
  - now rewrite Hc.
  - rewrite IH. destruct (s ++ [c]) eqn:E; [|reflexivity].
    destruct s; discriminate.
Qed.

(** *** Counting words *)

(** *** [split(/\s+/)] through the matcher *)

Lemma iterStar_spaces (n : nat) : forall c,
  List.length (ahead c) <= n ->
  iterStar (run space) (fun c' => Some c') n c
  = Some (skipSpaces (seen c) (ahead c) (grp c)).
Proof.
  induction n as [|n IH]; intros [sn rest g] Hn; cbn [ahead seen grp] in *.
  - destruct rest; [reflexivity | simpl in Hn; lia].
  - cbn [iterStar run space ahead seen grp].
    destruct rest as [|x t]; [reflexivity|].
    cbn [skipSpaces]. destruct (isSpace x); [|reflexivity].
    cbn [ahead List.length]. rewrite (proj2 (Nat.ltb_lt _ _) (Nat.lt_succ_diag_r _)).
    rewrite IH by (simpl in *; lia). reflexivity.
Qed.

Lemma matchAt_spaces (sn rest : str) :
  matchAt reSpaces sn rest
  = match rest with
    | x :: t => if isSpace x then Some (skipSpaces (x :: sn) t None) else None
    | [] => None
    end.
Proof.
  unfold matchAt, reSpaces, plus. cbn [run space ahead seen grp].
  destruct rest as [|x t]; [reflexivity|].
  destruct (isSpace x); [|reflexivity].
  now rewrite iterStar_spaces.
Qed.

Lemma skipSpaces_ahead (rest : str) : forall sn g,
  List.length (ahead (skipSpaces sn rest g)) <= List.length rest.
Proof.
  induction rest as [|x t IH]; intros sn g; simpl; [lia|].
  destruct (isSpace x); [specialize (IH (x :: sn) g); lia | simpl; lia].
Qed.

Lemma splitSpaces_skip (rest : str) : forall sn g,
  splitSpaces true [] rest = splitSpaces false [] (ahead (skipSpaces sn rest g))
  \/ (exists x t, ahead (skipSpaces sn rest g) = x :: t /\ isSpace x = true).
Proof.
  induction rest as [|x t IH]; intros sn g; simpl; [now left|].
  destruct (isSpace x) eqn:E; [apply IH|]. left. simpl. now rewrite E.
Qed.

Lemma skipSpaces_head (rest : str) : forall sn g x t,
  ahead (skipSpaces sn rest g) = x :: t -> isSpace x = false.
Proof.
  induction rest as [|y r IH]; intros sn g x t; simpl; [discriminate|].
  destruct (isSpace y) eqn:E; [apply IH|].
  simpl. intros H. inversion H. now subst.
Qed.

Lemma splitFrom_spaces (fuel : nat) : forall sn piece rest,
  List.length rest < fuel ->
  splitFrom fuel reSpaces sn piece rest = splitSpaces false piece rest.
Proof.
  induction fuel as [|f IH]; intros sn piece rest Hf; [lia|].
  cbn [splitFrom]. destruct rest as [|x t]; [reflexivity|].
  rewrite matchAt_spaces. cbn [splitSpaces].
  destruct (isSpace x) eqn:E.
  - pose proof (skipSpaces_ahead t (x :: sn) None) as Hlen.
    assert (Hno : (List.length (x :: t)
                   <=? List.length (ahead (skipSpaces (x :: sn) t None))) = false).
    { apply Nat.leb_gt. simpl. lia. }
    rewrite Hno, andb_false_r. f_equal.
    rewrite IH by (simpl in Hf; lia).
    destruct (splitSpaces_skip t (x :: sn) None) as [H|(y & r & Hy & Hs)].
    + now rewrite H.
    + rewrite (skipSpaces_head _ _ _ _ _ Hy) in Hs. discriminate.
  - apply IH. simpl in Hf. lia.
Qed.

(** The word split of the source, through the matcher, is [splitSpaces]. *)
Lemma split_spaces (s : str) : split reSpaces s = splitSpaces false [] s.
Proof.
  unfold split. destruct s as [|x t]; [reflexivity|].
  apply splitFrom_spaces. simpl. lia.
Qed.

Lemma splitSpaces_length (s : str) : forall inSep acc,
  List.length (splitSpaces inSep acc s) = S (nsep inSep s).
Proof.
  induction s as [|c s IH]; intros inSep acc; simpl; [reflexivity|].
  destruct (isSpace c); [destruct inSep; simpl|]; now rewrite IH.
Qed.

Lemma nruns_nsep (s : str) : forall p,
  nruns p s + b2n (lastSpace p s) = nsep p s + b2n p.
Proof.
  induction s as [|c s IH]; intros p; simpl; [reflexivity|].
  destruct (isSpace c) eqn:E.
  - rewrite IH. destruct p; simpl; lia.
  - specialize (IH false). simpl in IH. destruct p; simpl; lia.
Qed.

Lemma nruns_blank (s : str) : forall p, blank s = true -> nruns p s = 0.
Proof.
  induction s as [|c s IH]; intros p H; simpl in *; [reflexivity|].
  apply andb_true_iff in H as [Hc Hs]. rewrite Hc. now apply IH.
Qed.

Lemma nruns_trimStart (s : str) : nruns true (trimStart s) = nruns true s.
Proof.
  induction s as [|c s IH]; simpl; [reflexivity|].
  destruct (isSpace c) eqn:E; [assumption | simpl; now rewrite E].
Qed.

Lemma nruns_trimEnd (s : str) : forall p, nruns p (trimEnd s) = nruns p s.
Proof.
  induction s as [|c s IH]; intros p; simpl; [reflexivity|].
  destruct (trimEnd s) as [|y t'] eqn:E.
  - pose proof (trimEnd_nil_blank s E) as Hb.
    destruct (isSpace c) eqn:Ec; simpl; rewrite ?Ec, !nruns_blank by assumption;
      reflexivity.
  - change (nruns p (c :: y :: t'))
      with (if isSpace c then nruns true (y :: t')
            else (if p then 1 else 0) + nruns false (y :: t')).
    now rewrite !IH.
Qed.

Lemma nruns_trim (s : str) : nruns true (trim s) = nruns true s.
Proof. unfold trim. now rewrite nruns_trimEnd, nruns_trimStart. Qed.

Lemma lastSpace_trimEnd (s : str) : forall p,
  lastSpace p (trimEnd s) = match trimEnd s with [] => p | _ => false end.
Proof.
  induction s as [|c s IH]; intros p; simpl; [reflexivity|].
  destruct (trimEnd s) as [|y t'] eqn:E.
  - destruct (isSpace c) eqn:Ec; simpl; [reflexivity | assumption].
  - simpl. specialize (IH (isSpace c)). simpl in IH. exact IH.
Qed.

Lemma trimEnd_head (s : str) (c : char) (t : str) :
  trimEnd s = c :: t -> exists t', s = c :: t'.
Proof.
  destruct s as [|x s]; simpl; [discriminate|].
  destruct (trimEnd s); [destruct (isSpace x)|]; intros H; inversion H; eauto.
Qed.

Lemma trimStart_head (s : str) (c : char) (t : str) :
  trimStart s = c :: t -> isSpace c = false.
Proof.
  induction s as [|x s IH]; simpl; [discriminate|].
  destruct (isSpace x) eqn:E; [assumption|].
  intros H. inversion H. now subst.
Qed.

(** The word count of the source, [text.trim().split(/\s+/).length], is the
    number of words, except on a blank text, where it is 1. *)
Lemma wordCount_nruns (s : str) : blank s = false -> wordCount s = nruns true s.
Proof.
  intros Hb. unfold wordCount, wordsOf.
  rewrite split_spaces, splitSpaces_length, <- nruns_trim.
  destruct (trim s) as [|c t] eqn:T.
  - apply trim_nil_iff in T. congruence.
  - pose proof (nruns_nsep (c :: t) false) as H.
    assert (Hl : lastSpace false (c :: t) = false).
    { unfold trim in T. rewrite <- T, lastSpace_trimEnd. now rewrite T. }
    rewrite Hl in H. simpl b2n in H.
    assert (Hc : isSpace c = false).
    { unfold trim in T. destruct (trimEnd_head _ _ _ T) as [t' Ht'].
      exact (trimStart_head _ _ _ Ht'). }
    simpl in *. rewrite Hc in *. simpl. lia.
Qed.

Lemma wordCount_blank (s : str) : blank s = true -> wordCount s = 1.
Proof.
  intros Hb. unfold wordCount, wordsOf.
  apply trim_nil_iff in Hb. now rewrite Hb.
Qed.

Lemma wordCount_pos (s : str) : 1 <= wordCount s.
Proof. unfold wordCount, wordsOf. rewrite split_spaces, splitSpaces_length. lia. Qed.

Lemma blank_trim (s : str) : blank (trim s) = blank s.
Proof.
  destruct (blank s) eqn:E.
  - apply trim_nil_iff in E. now rewrite E.
  - destruct (trim s) as [|c t] eqn:T.
    + apply trim_nil_iff in T. congruence.
    + unfold trim in T. destruct (trimEnd_head _ _ _ T) as [t' Ht'].
      simpl. now rewrite (trimStart_head _ _ _ Ht').
Qed.

Lemma wordCount_trim (s : str) : wordCount (trim s) = wordCount s.
Proof.
  destruct (blank s) eqn:E.
  - rewrite !wordCount_blank; rewrite ?blank_trim; auto.
  - rewrite !wordCount_nruns; rewrite ?blank_trim; auto using nruns_trim.
Qed.

Lemma nruns_app (a b : str) : forall p,
  nruns p (a ++ b) = nruns p a + nruns (lastSpace p a) b.
Proof.
  induction a as [|c a IH]; intros p; simpl; [reflexivity|].
  destruct (isSpace c); rewrite IH; lia.
Qed.

(** Words add up over paragraphs joined by a blank line. *)
Lemma nruns_joined (a b : str) :
  nruns true (a ++ [LF; LF] ++ b) = nruns true a + nruns true b.
Proof. rewrite nruns_app. reflexivity. Qed.

End StringFacts.

(* ================================================================== *)
(** ** Facts about numbers *)
(* ================================================================== *)

Section NumberFacts.

Lemma Qle_bool_false (a b : Q) : Qle_bool a b = false -> (b < a)%Q.
Proof.
  intros H. apply Qnot_le_lt. intros Hle.
  apply Qle_bool_iff in Hle. congruence.
Qed.

Lemma pow2_pos (k : Z) : (0 < 2 ^ k)%Q.
Proof. apply Qpower_0_lt. reflexivity. Qed.

Lemma pow2_succ (k : Z) : (2 ^ (k + 1) == 2 * 2 ^ k)%Q.
Proof. rewrite Qpower_plus by discriminate. change (2 ^ 1)%Q with 2%Q. ring. Qed.

Lemma pow2_le (j k : Z) : (j <= k)%Z -> (2 ^ j <= 2 ^ k)%Q.
Proof. intros H. apply Qpower_le_compat_l; [assumption | discriminate]. Qed.

Lemma pow2_lt_inv (j k : Z) : (2 ^ j < 2 ^ k)%Q -> (j < k)%Z.
Proof. intros H. apply (Qpower_lt_compat_l_inv 2); [assumption | reflexivity]. Qed.

Lemma pow2_inject (k : Z) : (0 <= k)%Z -> (inject_Z (2 ^ k) == 2 ^ k)%Q.
Proof. intros H. now rewrite Zpower_Qpower. Qed.

(** A positive rational lies between two powers of two given by the sizes of
    its numerator and of its denominator. *)
Lemma log2_bounds (x : Q) :
  (0 < x)%Q ->
  let e := (Z.log2 (Qnum x) - Z.log2 (Z.pos (Qden x)))%Z in
  (2 ^ (e - 1) < x)%Q /\ (x < 2 ^ (e + 1))%Q.
Proof.
  intros Hx. destruct x as [p q]. cbn [Qnum Qden].
  assert (Hp : (0 < p)%Z).
  { unfold Qlt in Hx. cbn in Hx. lia. }
  set (a := Z.log2 p). set (b := Z.log2 (Z.pos q)).
  destruct (Z.log2_spec p Hp) as [Ha1 Ha2]. fold a in Ha1, Ha2.
  destruct (Z.log2_spec (Z.pos q) eq_refl) as [Hb1 Hb2]. fold b in Hb1, Hb2.
  assert (Ha0 : (0 <= a)%Z) by apply Z.log2_nonneg.
  assert (Hb0 : (0 <= b)%Z) by apply Z.log2_nonneg.
  assert (Ea : (inject_Z (2 ^ a) == 2 ^ a)%Q) by now apply pow2_inject.
  assert (Eb : (inject_Z (2 ^ b) == 2 ^ b)%Q) by now apply pow2_inject.
  assert (Qa1 : (2 ^ a <= inject_Z p)%Q) by (rewrite <- Ea, <- Zle_Qle; lia).
  assert (Qa2 : (inject_Z p < 2 * 2 ^ a)%Q).
  { rewrite <- Ea. change 2%Q with (inject_Z 2). rewrite <- inject_Z_mult, <- Zlt_Qlt.
    rewrite <- Z.pow_succ_r in * by lia. lia. }
  assert (Qb1 : (2 ^ b <= inject_Z (Z.pos q))%Q) by (rewrite <- Eb, <- Zle_Qle; lia).
  assert (Qb2 : (inject_Z (Z.pos q) < 2 * 2 ^ b)%Q).
  { rewrite <- Eb. change 2%Q with (inject_Z 2). rewrite <- inject_Z_mult, <- Zlt_Qlt.
    rewrite <- Z.pow_succ_r in * by lia. lia. }
  assert (Ex : (p # q == inject_Z p / inject_Z (Z.pos q))%Q) by apply Qmake_Qdiv.
  assert (Hq : (0 < inject_Z (Z.pos q))%Q) by reflexivity.
  pose proof (pow2_pos a) as Pa. pose proof (pow2_pos b) as Pb.
  assert (E1 : (2 ^ (a - b - 1) == 2 ^ a / (2 * 2 ^ b))%Q).
  { replace (a - b - 1)%Z with (a - (b + 1))%Z by lia.
    rewrite Qpower_minus by discriminate. now rewrite pow2_succ. }
  assert (E2 : (2 ^ (a - b + 1) == 2 * 2 ^ a / 2 ^ b)%Q).
  { replace (a - b + 1)%Z with ((a + 1) - b)%Z by lia.
    rewrite Qpower_minus by discriminate. now rewrite pow2_succ. }
  rewrite E1, E2, Ex. split.
  - apply Qlt_shift_div_l; [assumption|].
    assert (Hf : (inject_Z (Z.pos q) / (2 * 2 ^ b) < 1)%Q).
    { apply Qlt_shift_div_r; lra. }
    setoid_replace (2 ^ a / (2 * 2 ^ b) * inject_Z (Z.pos q))%Q
      with (2 ^ a * (inject_Z (Z.pos q) / (2 * 2 ^ b)))%Q by (field; lra).
    nra.
  - apply Qlt_shift_div_r; [assumption|].
    assert (Hf : (1 <= inject_Z (Z.pos q) / 2 ^ b)%Q).
    { apply Qle_shift_div_l; lra. }
    setoid_replace (2 * 2 ^ a / 2 ^ b * inject_Z (Z.pos q))%Q
      with (2 * 2 ^ a * (inject_Z (Z.pos q) / 2 ^ b))%Q by (field; lra).
    nra.
Qed.

Lemma expo_lower (x : Q) : (0 < x)%Q -> (2 ^ expo x <= x)%Q.
Proof.
  intros Hx. unfold expo. cbv zeta.
  destruct (Qle_bool _ x) eqn:E.
  - now apply Qle_bool_iff.
  - apply Qlt_le_weak. exact (proj1 (log2_bounds x Hx)).
Qed.

Lemma expo_upper (x : Q) : (0 < x)%Q -> (x < 2 ^ (expo x + 1))%Q.
Proof.
  intros Hx. unfold expo. cbv zeta.
  destruct (Qle_bool _ x) eqn:E.
  - exact (proj2 (log2_bounds x Hx)).
  - apply Qle_bool_false in E.
    now replace (Z.log2 (Qnum x) - Z.log2 (Z.pos (Qden x)) - 1 + 1)%Z
      with (Z.log2 (Qnum x) - Z.log2 (Z.pos (Qden x)))%Z by lia.
Qed.

Lemma expo_ge (x : Q) (k : Z) : (2 ^ k <= x)%Q -> (k <= expo x)%Z.
Proof.
  intros H.
  assert (Hx : (0 < x)%Q) by (pose proof (pow2_pos k); lra).
  pose proof (expo_upper x Hx) as Hu.
  assert (Hlt : (2 ^ k < 2 ^ (expo x + 1))%Q) by lra.
  apply pow2_lt_inv in Hlt. lia.
Qed.

Lemma expo_lt (x : Q) (k : Z) : (0 < x)%Q -> (x < 2 ^ k)%Q -> (expo x < k)%Z.
Proof.
  intros Hx H. pose proof (expo_lower x Hx) as Hl.
  assert (Hlt : (2 ^ expo x < 2 ^ k)%Q) by lra.
  now apply pow2_lt_inv in Hlt.
Qed.

(** *** Rounding to an integer *)

Lemma roundHalfEven_floor (y : Q) :
  roundHalfEven y = Qfloor y \/ roundHalfEven y = (Qfloor y + 1)%Z.
Proof.
  unfold roundHalfEven. cbv zeta.
  destruct (_ ?= _)%Q; [destruct (Z.even _)|..]; auto.
Qed.

Lemma roundHalfEven_up (y : Q) : (inject_Z (roundHalfEven y) <= y + (1 # 2))%Q.
Proof.
  unfold roundHalfEven. cbv zeta.
  pose proof (Qfloor_le y) as Hf.
  destruct (_ ?= _)%Q eqn:E.
  - apply Qeq_alt in E.
    destruct (Z.even _); [lra|]. rewrite inject_Z_plus. change (inject_Z 1) with 1%Q. lra.
  - lra.
  - apply Qgt_alt in E. rewrite inject_Z_plus. change (inject_Z 1) with 1%Q. lra.
Qed.

Lemma roundHalfEven_ge (y : Q) (z : Z) : (inject_Z z <= y)%Q -> (z <= roundHalfEven y)%Z.
Proof.
  intros H. apply Qfloor_resp_le in H. rewrite Qfloor_Z in H.
  destruct (roundHalfEven_floor y) as [-> | ->]; lia.
Qed.

(** *** Rounding to a Number *)

Lemma ulp_pos (x : Q) : (0 < ulp x)%Q.
Proof. apply pow2_pos. Qed.

Lemma fl_pos (x : Q) : (0 < x)%Q -> fl x = flPos x.
Proof.
  intros Hx. unfold fl. destruct x as [[|p|p] q]; try reflexivity;
    unfold Qlt in Hx; cbn in Hx; lia.
Qed.

Lemma fl_zero (x : Q) : (x == 0)%Q -> fl x = 0%Q.
Proof.
  intros Hx. unfold fl. destruct x as [[|p|p] q]; try reflexivity;
    unfold Qeq in Hx; cbn in Hx; lia.
Qed.

Lemma fl_nonneg (x : Q) : (0 <= x)%Q -> (0 <= fl x)%Q.
Proof.
  intros Hx. destruct (Qlt_le_dec 0 x) as [Hp|Hn].
  - rewrite (fl_pos x Hp). unfold flPos.
    pose proof (ulp_pos x) as Hu.
    assert (H0 : (0 <= roundHalfEven (x / ulp x))%Z).
    { apply roundHalfEven_ge. change (inject_Z 0) with 0%Q.
      apply Qle_shift_div_l; [assumption | lra]. }
    rewrite Zle_Qle in H0. change (inject_Z 0) with 0%Q in H0. nra.
  - rewrite fl_zero; lra.
Qed.

(** Rounding does not go below a power of two that the number has reached. *)
Lemma fl_ge_pow2 (x : Q) (k : Z) :
  (-1022 <= k)%Z -> (2 ^ k <= x)%Q -> (2 ^ k <= fl x)%Q.
Proof.
  intros Hk H.
  assert (Hx : (0 < x)%Q) by (pose proof (pow2_pos k); lra).
  rewrite (fl_pos x Hx). unfold flPos, ulp.
  pose proof (expo_ge x k H) as He. pose proof (expo_lower x Hx) as Hl.
  rewrite Z.max_l by lia.
  set (e := expo x) in *. pose proof (pow2_pos (e - 52)) as Hs.
  assert (E : (2 ^ e == 2 ^ 52 * 2 ^ (e - 52))%Q).
  { rewrite <- Qpower_plus by discriminate. now replace (52 + (e - 52))%Z with e by lia. }
  assert (H52 : (2 ^ 52 <= roundHalfEven (x / 2 ^ (e - 52)))%Z).
  { apply roundHalfEven_ge. rewrite pow2_inject by lia.
    apply Qle_shift_div_l; [assumption | lra]. }
  rewrite Zle_Qle, pow2_inject in H52 by lia.
  pose proof (pow2_le k e He) as Hke.
  pose proof (pow2_pos 52) as H52p.
  nra.
Qed.

(** Rounding does not go below a number [m * 2^j] that the number has
    reached, when [m] has at most 53 bits: such a number is a Number. *)
Lemma fl_ge_dyadic (x : Q) (m j : Z) :
  (0 < m < 2 ^ 53)%Z -> (-1074 <= j)%Z ->
  (inject_Z m * 2 ^ j <= x)%Q -> (inject_Z m * 2 ^ j <= fl x)%Q.
Proof.
  intros Hm Hj H.
  pose proof (pow2_pos j) as Pj.
  assert (Hm' : (0 < inject_Z m)%Q) by (change 0%Q with (inject_Z 0); rewrite <- Zlt_Qlt; lia).
  assert (Hx : (0 < x)%Q) by nra.
  destruct (Qlt_le_dec x (2 ^ (j + 53))) as [Hlt|Hge].
  - (* the unit of [x] divides [2^j] *)
    rewrite (fl_pos x Hx). unfold flPos, ulp.
    pose proof (expo_lt x (j + 53) Hx Hlt) as He.
    set (u := Z.max (expo x - 52) (-1074)).
    assert (Hu : (u <= j)%Z) by (unfold u; lia).
    pose proof (pow2_pos u) as Pu.
    assert (E : (2 ^ j == inject_Z (2 ^ (j - u)) * 2 ^ u)%Q).
    { rewrite pow2_inject by lia. rewrite <- Qpower_plus by discriminate.
      now replace (j - u + u)%Z with j by lia. }
    assert (Hr : (m * 2 ^ (j - u) <= roundHalfEven (x / 2 ^ u))%Z).
    { apply roundHalfEven_ge. rewrite inject_Z_mult.
      apply Qle_shift_div_l; [assumption|]. rewrite E in H. lra. }
    rewrite Zle_Qle, inject_Z_mult in Hr. rewrite E.
    nra.
  - (* [x] has reached the next power of two *)
    assert (Hk : (inject_Z m * 2 ^ j <= 2 ^ (j + 53))%Q).
    { rewrite Qpower_plus by discriminate.
      assert (Hm2 : (inject_Z m <= 2 ^ 53)%Q).
      { rewrite <- pow2_inject by lia. rewrite <- Zle_Qle. lia. }
      rewrite (Qmult_comm (2 ^ j)). nra. }
    pose proof (fl_ge_pow2 x (j + 53) ltac:(lia) Hge). lra.
Qed.

(** A Number below 1 is at most [1 - 2^-53]. *)
Lemma double_below_one (r : Q) :
  isDouble r -> (r < 1)%Q -> (r <= 1 - 2 ^ (-53))%Q.
Proof.
  intros Hd H1. unfold isDouble in Hd.
  assert (P53 : (2 ^ (-53) == 1 # 9007199254740992)%Q) by reflexivity.
  destruct (Qlt_le_dec 0 r) as [Hp|Hn]; [|rewrite P53; lra].
  rewrite (fl_pos r Hp) in Hd. unfold flPos, ulp in Hd.
  pose proof (expo_lt r 0 Hp H1) as He.
  destruct (Z.eq_dec (expo r) (-1)) as [E|E].
  - rewrite E in Hd. change (Z.max (-1 - 52) (-1074)) with (-53)%Z in Hd.
    set (m := roundHalfEven (r / 2 ^ (-53))) in *.
    assert (P : (2 ^ 53 == 9007199254740992)%Q) by reflexivity.
    assert (Hm : (m < 2 ^ 53)%Z).
    { rewrite Zlt_Qlt, pow2_inject by lia.
      rewrite P53 in Hd. rewrite P. lra. }
    assert (Hm' : (inject_Z m <= 2 ^ 53 - 1)%Q).
    { rewrite <- pow2_inject by lia. change 1%Q with (inject_Z 1).
      unfold Qminus. rewrite <- inject_Z_opp, <- inject_Z_plus, <- Zle_Qle. lia. }
    rewrite P in Hm'. rewrite P53 in *. lra.
  - pose proof (expo_upper r Hp) as Hu.
    assert (Hle : (2 ^ (expo r + 1) <= 2 ^ (-1))%Q) by (apply pow2_le; lia).
    assert (P1 : (2 ^ (-1) == 1 # 2)%Q) by reflexivity.
    rewrite P53. lra.
Qed.

(** The rounded product of a Number below 1 and a positive integer stays
    below the integer: the exact product is more than half a unit below. *)
Lemma fl_scale_lt (r : Q) (n : Z) :
  isDouble r -> (0 <= r)%Q -> (r < 1)%Q -> (1 <= n)%Z ->
  (fl (r * inject_Z n) < inject_Z n)%Q.
Proof.
  intros Hd H0 H1 Hn.
  pose proof (double_below_one r Hd H1) as Hr.
  assert (P53 : (2 ^ (-53) == 1 # 9007199254740992)%Q) by reflexivity.
  assert (P52 : (2 ^ (-52) == 1 # 4503599627370496)%Q) by reflexivity.
  assert (Hn' : (1 <= inject_Z n)%Q) by (change 1%Q with (inject_Z 1); rewrite <- Zle_Qle; lia).
  set (x := (r * inject_Z n)%Q).
  assert (Hxn : (x <= inject_Z n - inject_Z n * 2 ^ (-53))%Q) by (unfold x; rewrite P53 in *; nra).
  destruct (Qlt_le_dec 0 x) as [Hp|Hz].
  - rewrite (fl_pos x Hp). unfold flPos, ulp.
    set (u := Z.max (expo x - 52) (-1074)).
    pose proof (pow2_pos u) as Pu.
    pose proof (roundHalfEven_up (x / 2 ^ u)) as Hup.
    assert (Hhalf : (2 ^ u < 2 * (inject_Z n - x))%Q).
    { destruct (Z.max_spec (expo x - 52) (-1074)) as [[_ E]|[_ E]]; fold u in E; rewrite E.
      - assert (Hs : (2 ^ (-1074) < 2 ^ (-52))%Q) by (apply Qpower_lt_compat_l; [lia | reflexivity]).
        rewrite P53 in Hxn. rewrite P52 in Hs. nra.
      - pose proof (expo_lower x Hp) as Hl.
        assert (Es : (2 ^ (expo x - 52) == 2 ^ expo x * 2 ^ (-52))%Q).
        { rewrite <- Qpower_plus by discriminate. reflexivity. }
        assert (Hxlt : (x < inject_Z n)%Q) by (rewrite P53 in Hxn; nra).
        rewrite Es, P52. rewrite P53 in Hxn. nra. }
    assert (Hdiv : (x / 2 ^ u * 2 ^ u == x)%Q) by (field; lra).
    nra.
  - rewrite fl_zero; [lra|]. unfold x in *. nra.
Qed.

(** The rounding of this file and the Standard Library's specification of
    binary64 arithmetic give the same sum for every word count below 1000,
    and the same product of the Number below one third by 3. *)
Lemma rounding_matches_IEEE :
  forallb (fun n => sameNumber (b64_sum n)
                      (fadd baseTime (fmul (inject_Z (Z.of_nat n)) timePerWord)))
          (seq 0 1000) = true
  /\ sameNumber
       (b64_toQ (SFmul 53 1024
                   (binary_normalize 53 1024 6004799503160661 (-54) false)
                   (b64_of_Z 3)))
       (fmul belowOneThird 3) = true.
Proof. split; vm_compute; reflexivity. Qed.

(** *** The duration as a function of the word count *)

Lemma calculateSlideDuration_count (text : str) :
  calculateSlideDuration text = durationOfCount (wordCount text).
Proof. reflexivity. Qed.

Lemma duration_table : forallb durationRow (seq 1 49) = true.
Proof. vm_compute. reflexivity. Qed.

Lemma duration_small (n : nat) :
  1 <= n < 50 ->
  (31 # 10 <= durationOfCount n)%Q
  /\ (durationOfCount n < 8)%Q
  /\ (durationOfCount n <= durationOfCount (S n))%Q
  /\ (Qabs (durationOfCount n - exactDuration n) <= 1 # 1125899906842624)%Q.
Proof.
  intros Hn.
  assert (Hin : In n (seq 1 49)) by (apply in_seq; lia).
  pose proof (proj1 (forallb_forall durationRow (seq 1 49)) duration_table n Hin) as H.
  unfold durationRow in H.
  apply andb_true_iff in H as [H H4]. apply andb_true_iff in H as [H H3].
  apply andb_true_iff in H as [H1 H2].
  apply Qle_bool_iff in H1, H3, H4. apply negb_true_iff, Qle_bool_false in H2.
  auto.
Qed.

Lemma timePerWord_value : (timePerWord == 3602879701896397 # 36028797018963968)%Q.
Proof. vm_compute. reflexivity. Qed.

(** From 50 words on, the rounded product has reached 5 and the rounded sum
    has reached 8. *)
Lemma duration_large (n : nat) : 50 <= n -> (durationOfCount n == 8)%Q.
Proof.
  intros Hn. unfold durationOfCount, fadd, fmul, baseTime.
  set (x := (inject_Z (Z.of_nat n) * timePerWord)%Q).
  assert (Hq : (50 <= inject_Z (Z.of_nat n))%Q).
  { change 50%Q with (inject_Z 50). rewrite <- Zle_Qle. lia. }
  assert (Hx : (inject_Z 5 * 2 ^ 0 <= x)%Q).
  { unfold x. rewrite timePerWord_value. change (inject_Z 5 * 2 ^ 0)%Q with (5 * 1)%Q. lra. }
  apply fl_ge_dyadic in Hx; [|lia|lia].
  change (inject_Z 5 * 2 ^ 0)%Q with (5 * 1)%Q in Hx.
  assert (H8 : (2 ^ 3 <= fl (3 + fl x))%Q).
  { apply fl_ge_pow2; [lia|]. change (2 ^ 3)%Q with 8%Q. lra. }
  change (2 ^ 3)%Q with 8%Q in H8.
  unfold Qmin, Qmax.
  destruct (Qle_bool (fl (3 + fl x)) 3) eqn:E3.
  - apply Qle_bool_iff in E3. lra.
  - destruct (Qle_bool (fl (3 + fl x)) 8) eqn:E8; [|reflexivity].
    apply Qle_bool_iff in E8. lra.
Qed.

Lemma exactDuration_large (n : nat) : 50 <= n -> (exactDuration n == 8)%Q.
Proof.
  intros Hn. unfold exactDuration, clamp.
  assert (Hq : (50 <= inject_Z (Z.of_nat n))%Q).
  { change 50%Q with (inject_Z 50). rewrite <- Zle_Qle. lia. }
  destruct (Qle_bool 3 _) eqn:E3.
  - destruct (Qle_bool _ 8) eqn:E8; [|reflexivity]. apply Qle_bool_iff in E8. lra.
  - apply Qle_bool_false in E3. lra.
Qed.

Lemma duration_le_8 (n : nat) : (durationOfCount n <= 8)%Q.
Proof.
  unfold durationOfCount, Qmin.
  destruct (Qle_bool _ 8) eqn:E; [now apply Qle_bool_iff | lra].
Qed.

Lemma duration_ge (n : nat) : 1 <= n -> (31 # 10 <= durationOfCount n)%Q.
Proof.
  intros Hn. destruct (Nat.lt_ge_cases n 50) as [Hs|Hl].
  - apply duration_small. lia.
  - rewrite (duration_large n Hl). lra.
Qed.

Lemma duration_mono (n m : nat) :
  1 <= n <= m -> (durationOfCount n <= durationOfCount m)%Q.
Proof.
  intros [H1 Hnm]. induction Hnm as [|m Hnm IH]; [lra|].
  destruct (Nat.lt_ge_cases m 50) as [Hs|Hl].
  - destruct (duration_small m ltac:(lia)) as (_ & _ & Hstep & _). lra.
  - rewrite (duration_large (S m)) by lia. apply duration_le_8.
Qed.

Lemma duration_eight (n : nat) : 1 <= n -> (durationOfCount n == 8)%Q <-> 50 <= n.
Proof.
  intros Hn. split.
  - intros H8. destruct (Nat.lt_ge_cases n 50) as [Hs|Hl]; [|assumption].
    destruct (duration_small n ltac:(lia)) as (_ & Hlt & _). lra.
  - apply duration_large.
Qed.

Lemma duration_error (n : nat) :
  1 <= n -> (Qabs (durationOfCount n - exactDuration n) <= 1 # 1125899906842624)%Q.
Proof.
  intros Hn. destruct (Nat.lt_ge_cases n 50) as [Hs|Hl].
  - apply duration_small. lia.
  - apply Qabs_Qle_condition.
    rewrite (duration_large n Hl), (exactDuration_large n Hl). lra.
Qed.

(** [Math.min(Math.max(x, 3), 8)] is [clamp(x, 3, 8)]. *)
Lemma clamp_min_max (x : Q) : (Qmin (Qmax x 3) 8 == clamp x 3 8)%Q.
Proof.
  unfold Qmin, Qmax, clamp.
  destruct (Qle_bool x 3) eqn:E1.
  - apply Qle_bool_iff in E1. cbn.
    destruct (Qle_bool 3 x) eqn:E2; [|reflexivity].
    apply Qle_bool_iff in E2.
    destruct (Qle_bool x 8) eqn:E3; [lra|]. apply Qle_bool_false in E3. lra.
  - apply Qle_bool_false in E1.
    assert (E2 : Qle_bool 3 x = true) by (apply Qle_bool_iff; lra).
    rewrite E2. destruct (Qle_bool x 8); reflexivity.
Qed.

End NumberFacts.

(* ================================================================== *)
(** ** Facts about segmentation *)
(* ================================================================== *)

Section SegmentationFacts.

Lemma paragraphsOf_nonblank (s p : str) :
  In p (paragraphsOf s) -> blank p = false.
Proof.
  unfold paragraphsOf. intros H. apply filter_In in H as [_ H].
  destruct (blank p) eqn:E; [|reflexivity].
  apply trim_nil_iff in E. rewrite E in H. discriminate.
Qed.

Lemma firstn_incl {A} (n : nat) (l : list A) (x : A) : In x (firstn n l) -> In x l.
Proof.
  intros H. rewrite <- (firstn_skipn n l). apply in_or_app. now left.
Qed.

Lemma slice0_incl {A} (l : list A) (e : Z) (x : A) : In x (slice0 l e) -> In x l.
Proof. unfold slice0. destruct (e <? 0)%Z; apply firstn_incl. Qed.

Lemma slice0_length_le {A} (l : list A) (e : Z) :
  (0 <= e)%Z -> (Z.of_nat (List.length (slice0 l e)) <= e)%Z.
Proof.
  intros He. unfold slice0.
  destruct (e <? 0)%Z eqn:E; [apply Z.ltb_lt in E; lia|].
  rewrite length_firstn. lia.
Qed.

Lemma slice0_all {A} (l : list A) (e : Z) :
  (Z.of_nat (List.length l) <= e)%Z -> slice0 l e = l.
Proof.
  intros He. unfold slice0.
  destruct (e <? 0)%Z eqn:E; [apply Z.ltb_lt in E; lia|].
  apply firstn_all2. lia.
Qed.

Lemma slice0_length_ge {A} (l : list A) (e : Z) :
  (0 <= e <= Z.of_nat (List.length l))%Z ->
  Z.of_nat (List.length (slice0 l e)) = e.
Proof.
  intros He. unfold slice0.
  destruct (e <? 0)%Z eqn:E; [apply Z.ltb_lt in E; lia|].
  rewrite length_firstn. lia.
Qed.

(** *** The word budget *)

Lemma segInv_init (ps : list str) : segInv ps segInit.
Proof. split; [constructor | left; split; reflexivity]. Qed.

(** Closing a buffer as a plain chunk keeps the invariant. *)
Lemma close_plain_inv (ps : list str) (st : SegState) (t : option str) :
  segInv ps st -> truthy (currentChunk st) = true ->
  segInv ps (resetBuffer (chunks st ++ [plainChunk t (trim (currentChunk st))])).
Proof.
  intros [Hc Hb] Ht. split; [|left; split; reflexivity].
  simpl. apply Forall_app. split; [assumption|].
  constructor; [|constructor].
  right. split; [reflexivity|]. simpl.
  destruct Hb as [[E _]|(Hn & Hw & Hcase)].
  - rewrite E in Ht. discriminate.
  - destruct Hcase as [Hle|Hin].
    + left. rewrite wordCount_trim, wordCount_nruns by assumption. lia.
    + right. eauto.
Qed.

Lemma closeBeforeHeading_inv (ps : list str) (p : str) (st : SegState) :
  segInv ps st -> segInv ps (closeBeforeHeading p st).
Proof.
  intros H. unfold closeBeforeHeading.
  destruct (isHeading p && truthy (currentChunk st)) eqn:E; [|assumption].
  apply andb_true_iff in E as [_ E]. now apply close_plain_inv.
Qed.

Lemma closeOnOverflow_inv (ps : list str) (p : str) (st : SegState) :
  segInv ps st ->
  segInv ps (closeOnOverflow p st)
  /\ (currentChunk (closeOnOverflow p st) = []
      \/ chunkWordCount (closeOnOverflow p st) + wordCount p <= maxWordsPerSlide).
Proof.
  intros H. unfold closeOnOverflow. fold (wordCount p).
  destruct (maxWordsPerSlide <? chunkWordCount st + wordCount p) eqn:E1;
    destruct (truthy (currentChunk st)) eqn:E2; simpl andb; cbv iota.
  - split; [now apply close_plain_inv | left; reflexivity].
  - split; [assumption | left]. now destruct (currentChunk st).
  - split; [assumption | right]. apply Nat.ltb_ge in E1. exact E1.
  - split; [assumption | right]. apply Nat.ltb_ge in E1. exact E1.
Qed.

Lemma appendParagraph_inv (ps : list str) (p : str) (st : SegState) :
  segInv ps st ->
  currentChunk st = [] \/ chunkWordCount st + wordCount p <= maxWordsPerSlide ->
  In p ps -> blank p = false ->
  segInv ps (appendParagraph p st)
  /\ blank (currentChunk (appendParagraph p st)) = false.
Proof.
  intros [Hc Hb] Hfit Hin Hp.
  assert (Hbl : blank (currentChunk (appendParagraph p st)) = false).
  { simpl. rewrite blank_app, Hp. apply andb_false_r. }
  split; [|exact Hbl]. split; [exact Hc|].
  right. split; [exact Hbl|]. simpl. fold (wordCount p).
  destruct Hb as [[E Ez]|(Hn & Hw & Hcase)].
  - rewrite E, Ez. simpl. split; [now rewrite wordCount_nruns | now right].
  - rewrite (not_blank_nonempty _ Hn).
    destruct Hfit as [E|Hle]; [rewrite E in Hn; discriminate|].
    rewrite <- app_assoc, nruns_joined, Hw, wordCount_nruns by assumption.
    split; [reflexivity|]. left. rewrite <- wordCount_nruns by assumption. exact Hle.
Qed.

Lemma closeOnQuoteOrImage_inv (ps : list str) (p : str) (st : SegState) :
  segInv ps st -> blank (currentChunk st) = false -> In p ps ->
  segInv ps (closeOnQuoteOrImage p st).
Proof.
  intros [Hc Hb] Hn Hin. unfold closeOnQuoteOrImage.
  destruct (isQuote p || hasImageInParagraph p) eqn:E; [|split; assumption].
  split; [|left; split; reflexivity].
  simpl. apply Forall_app. split; [assumption|].
  constructor; [|constructor].
  destruct (isQuote p) eqn:Eq.
  - left. simpl. split; [reflexivity|]. eauto.
  - right. simpl. split; [reflexivity|].
    destruct Hb as [[Ee _]|(_ & Hw & Hcase)]; [rewrite Ee in Hn; discriminate|].
    destruct Hcase as [Hle|Hin'].
    + left. rewrite wordCount_trim, wordCount_nruns by assumption. lia.
    + right. eauto.
Qed.

Lemma segStep_inv (ps : list str) (p : str) (st : SegState) :
  segInv ps st -> In p ps -> blank p = false ->
  segInv ps (segStep st p).
Proof.
  intros H Hin Hp. unfold segStep.
  destruct (@closeOnOverflow_inv ps p _ (@closeBeforeHeading_inv ps p _ H)) as [H1 Hfit].
  destruct (@appendParagraph_inv ps p _ H1 Hfit Hin Hp) as [H2 Hbl].
  now apply closeOnQuoteOrImage_inv.
Qed.

Lemma segLoop_inv (ps : list str) (m : Z) (qs : list str) : forall st,
  segInv ps st -> incl qs ps -> Forall (fun p => blank p = false) qs ->
  segInv ps (segLoop m st qs).
Proof.
  induction qs as [|q qs IH]; intros st H Hincl Hq; simpl; [assumption|].
  inversion Hq; subst.
  assert (H' : segInv ps (segStep st q)).
  { apply segStep_inv; auto. apply Hincl. now left. }
  destruct (m <=? _)%Z; [assumption|].
  apply IH; auto. intros x Hx. apply Hincl. now right.
Qed.

Lemma segFinish_inv (ps : list str) (m : Z) (st : SegState) :
  segInv ps st -> Forall (withinBudget ps) (segFinish m st).
Proof.
  intros H. apply Forall_forall. intros c Hc.
  unfold segFinish in Hc. apply slice0_incl in Hc.
  destruct (truthy (trim (currentChunk st)) && _) eqn:E.
  - apply andb_true_iff in E as [E _].
    assert (Ht : truthy (currentChunk st) = true).
    { destruct (currentChunk st); [discriminate | reflexivity]. }
    pose proof (@close_plain_inv ps st None H Ht) as [Hall _]. simpl in Hall.
    rewrite Forall_forall in Hall. now apply Hall.
  - destruct H as [Hall _]. rewrite Forall_forall in Hall. now apply Hall.
Qed.

(** *** At least one chunk, at most [maxChunks] *)

Lemma segmentParagraphs_length_le (ps : list str) (m : Z) :
  (0 <= m)%Z -> (Z.of_nat (List.length (segmentParagraphs ps m)) <= m)%Z.
Proof. intros Hm. unfold segmentParagraphs, segFinish. now apply slice0_length_le. Qed.

Lemma closeOnQuoteOrImage_progress (p : str) (st : SegState) :
  blank (currentChunk st) = false ->
  chunks (closeOnQuoteOrImage p st) <> []
  \/ blank (currentChunk (closeOnQuoteOrImage p st)) = false.
Proof.
  intros Hn. unfold closeOnQuoteOrImage.
  destruct (isQuote p || hasImageInParagraph p); [left | now right].
  simpl. intros E. now apply app_eq_nil in E as [_ E].
Qed.

Lemma segStep_progress (ps : list str) (p : str) (st : SegState) :
  segInv ps st -> In p ps -> blank p = false ->
  chunks (segStep st p) <> [] \/ blank (currentChunk (segStep st p)) = false.
Proof.
  intros H Hin Hp. unfold segStep.
  destruct (@closeOnOverflow_inv ps p _ (@closeBeforeHeading_inv ps p _ H)) as [H1 Hfit].
  destruct (@appendParagraph_inv ps p _ H1 Hfit Hin Hp) as [_ Hbl].
  now apply closeOnQuoteOrImage_progress.
Qed.

Lemma segLoop_progress (ps : list str) (m : Z) (qs : list str) : forall q st,
  segInv ps st -> incl (q :: qs) ps -> Forall (fun p => blank p = false) (q :: qs) ->
  chunks (segLoop m st (q :: qs)) <> []
  \/ blank (currentChunk (segLoop m st (q :: qs))) = false.
Proof.
  induction qs as [|q' qs IH]; intros q st H Hincl Hq;
    inversion Hq as [|? ? Hq1 Hq2]; subst.
  - simpl. destruct (m <=? _)%Z; apply (@segStep_progress ps); auto;
      apply Hincl; now left.
  - change (segLoop m st (q :: q' :: qs))
      with (let st' := segStep st q in
            if (m <=? Z.of_nat (List.length (chunks st')))%Z then st'
            else segLoop m st' (q' :: qs)).
    cbv zeta. destruct (m <=? _)%Z.
    + apply (@segStep_progress ps); auto. apply Hincl. now left.
    + apply IH; auto.
      * apply segStep_inv; auto. apply Hincl. now left.
      * intros x Hx. apply Hincl. now right.
Qed.

Lemma segFinish_nonempty (m : Z) (st : SegState) :
  (1 <= m)%Z ->
  chunks st <> [] \/ blank (currentChunk st) = false ->
  segFinish m st <> [].
Proof.
  intros Hm H. unfold segFinish.
  assert (Hs : forall l : list Chunk.t, l <> [] -> slice0 l m <> []).
  { intros l Hl. unfold slice0.
    destruct (m <? 0)%Z eqn:E; [apply Z.ltb_lt in E; lia|].
    destruct l; [congruence|].
    destruct (Z.to_nat m) eqn:En; [lia | discriminate]. }
  apply Hs.
  destruct (chunks st) as [|c cs] eqn:Ec.
  - destruct H as [H|H]; [congruence|].
    rewrite truthy_trim, H. simpl.
    destruct (0 <? m)%Z eqn:E; [discriminate|]. apply Z.ltb_ge in E. lia.
  - destruct (_ && _); discriminate.
Qed.

Lemma segmentParagraphs_nonempty (ps : list str) (m : Z) :
  ps <> [] -> Forall (fun p => blank p = false) ps -> (1 <= m)%Z ->
  segmentParagraphs ps m <> [].
Proof.
  intros Hne Hall Hm. unfold segmentParagraphs.
  destruct ps as [|q qs]; [congruence|].
  apply segFinish_nonempty; [assumption|].
  apply (@segLoop_progress (q :: qs)); auto using segInv_init, incl_refl.
Qed.

(** *** When the paragraphs make three chunks *)

Lemma long_not_blank (p : str) : 10 < wordCount p -> blank p = false.
Proof.
  intros H. destruct (blank p) eqn:E; [|reflexivity].
  rewrite (wordCount_blank _ E) in H. lia.
Qed.

(** A paragraph of more than 10 words adds at least one to the measure: no
    chunk holds five of them. *)
Lemma segStep_pack (p : str) (st : SegState) :
  bufferInUse st -> 10 < wordCount p ->
  bufferInUse (segStep st p) /\ packMeasure st + 1 <= packMeasure (segStep st p).
Proof.
  intros Hu Hp.
  pose proof (long_not_blank p Hp) as Hnb.
  assert (Hjoin : forall b : str, blank (b ++ p) = false).
  { intros b. rewrite blank_app, Hnb. apply andb_false_r. }
  destruct st as [cs buf cnt].
  unfold segStep, closeOnQuoteOrImage, appendParagraph, closeOnOverflow,
    closeBeforeHeading, packMeasure, bufferInUse in *.
  fold (wordCount p).
  cbn [currentChunk chunkWordCount chunks] in Hu.
  cbn [currentChunk chunkWordCount chunks].
  destruct (isHeading p && truthy buf) eqn:Eh;
    cbn [resetBuffer currentChunk chunkWordCount chunks truthy isEmpty negb andb app].
  - rewrite andb_false_r.
    cbn [resetBuffer currentChunk chunkWordCount chunks truthy isEmpty negb andb app].
    destruct (isQuote p || hasImageInParagraph p);
      cbn [resetBuffer currentChunk chunkWordCount chunks].
    + split; [left; auto|]. rewrite !length_app. cbn [List.length].
      pose proof (Nat.le_min_l 4 (cnt / 11)). change (0 / 11) with 0. lia.
    + split; [right; apply (Hjoin [])|]. rewrite !length_app. cbn [List.length].
      assert (1 <= wordCount p / 11) by (apply Nat.div_le_lower_bound; lia).
      pose proof (Nat.le_min_l 4 (cnt / 11)). cbn [Nat.add]. lia.
  - destruct ((maxWordsPerSlide <? cnt + wordCount p) && truthy buf) eqn:Eo;
      cbn [resetBuffer currentChunk chunkWordCount chunks truthy isEmpty negb andb app].
    + destruct (isQuote p || hasImageInParagraph p);
        cbn [resetBuffer currentChunk chunkWordCount chunks].
      * split; [left; auto|]. rewrite !length_app. cbn [List.length].
        pose proof (Nat.le_min_l 4 (cnt / 11)). change (0 / 11) with 0. lia.
      * split; [right; apply (Hjoin [])|]. rewrite !length_app. cbn [List.length].
        assert (1 <= wordCount p / 11) by (apply Nat.div_le_lower_bound; lia).
        pose proof (Nat.le_min_l 4 (cnt / 11)). cbn [Nat.add]. lia.
    + (* the paragraph joins the buffer *)
      assert (Hfit : buf = [] /\ cnt = 0 \/ cnt + wordCount p <= 50).
      { destruct Hu as [[-> ->]|Hb]; [now left | right].
        rewrite (not_blank_nonempty _ Hb), andb_true_r in Eo.
        apply Nat.ltb_ge in Eo. exact Eo. }
      assert (Hgrow : Nat.min 4 (cnt / 11) + 1 <= Nat.min 4 ((cnt + wordCount p) / 11)
                      /\ Nat.min 4 (cnt / 11) <= 3).
      { destruct Hfit as [[_ ->]|Hle].
        - cbn [Nat.add]. change (0 / 11) with 0.
          assert (1 <= wordCount p / 11) by (apply Nat.div_le_lower_bound; lia). lia.
        - assert (cnt / 11 <= 3).
          { apply Nat.lt_succ_r, Nat.Div0.div_lt_upper_bound. lia. }
          assert (cnt / 11 + 1 <= (cnt + wordCount p) / 11).
          { replace (cnt / 11 + 1) with ((cnt + 1 * 11) / 11)
              by (rewrite Nat.div_add by lia; reflexivity).
            apply Nat.Div0.div_le_mono. lia. }
          assert ((cnt + wordCount p) / 11 <= 4).
          { apply Nat.lt_succ_r, Nat.Div0.div_lt_upper_bound. lia. }
          lia. }
      destruct (isQuote p || hasImageInParagraph p);
        cbn [resetBuffer currentChunk chunkWordCount chunks].
      * split; [left; auto|]. rewrite !length_app. cbn [List.length].
        change (0 / 11) with 0. lia.
      * split; [right; apply Hjoin|]. lia.
Qed.

Lemma segLoop_pack (m : Z) (qs : list str) : forall st,
  bufferInUse st -> Forall (fun p => 10 < wordCount p) qs ->
  (m <= Z.of_nat (List.length (chunks (segLoop m st qs))))%Z
  \/ (bufferInUse (segLoop m st qs)
      /\ packMeasure st + List.length qs <= packMeasure (segLoop m st qs)).
Proof.
  induction qs as [|q qs IH]; intros st Hu Hq; cbn [segLoop List.length].
  - right. split; [assumption | lia].
  - inversion Hq as [|? ? Hq1 Hq2]; subst.
    destruct (segStep_pack q st Hu Hq1) as [Hu' Hm'].
    destruct (m <=? _)%Z eqn:E.
    + left. now apply Z.leb_le in E.
    + destruct (IH _ Hu' Hq2) as [Hl|[Hu2 Hm2]]; [now left | right].
      split; [assumption | lia].
Qed.

Lemma segFinish_three (st : SegState) :
  3 <= List.length (chunks st)
  \/ (List.length (chunks st) = 2 /\ blank (currentChunk st) = false) ->
  List.length (segFinish 3 st) = 3.
Proof.
  intros H. unfold segFinish.
  assert (Hs : forall l : list Chunk.t, 3 <= List.length l -> List.length (slice0 l 3) = 3).
  { intros l Hl. pose proof (@slice0_length_ge _ l 3). lia. }
  apply Hs. destruct H as [H|[H2 Hb]].
  - destruct (_ && _); rewrite ?length_app; lia.
  - rewrite truthy_trim, Hb, H2. cbn [negb andb Z.of_nat].
    change (Z.pos (Pos.of_succ_nat 1) <? 3)%Z with true. cbv iota.
    rewrite length_app, H2. reflexivity.
Qed.

(** Nine paragraphs of more than 10 words each make three chunks. *)
Lemma segmentParagraphs_packed (ps : list str) :
  9 <= List.length ps -> Forall (fun p => 10 < wordCount p) ps ->
  List.length (segmentParagraphs ps 3) = 3.
Proof.
  intros Hlen Hall. unfold segmentParagraphs.
  apply segFinish_three.
  destruct (segLoop_pack 3 ps segInit) as [H|[Hu Hm]]; auto.
  - left. split; reflexivity.
  - left. lia.
  - change (packMeasure segInit) with 0 in Hm.
    unfold packMeasure in Hm.
    set (st := segLoop 3 segInit ps) in *.
    destruct (Nat.le_gt_cases 3 (List.length (chunks st))) as [H3|H3]; [now left | right].
    pose proof (Nat.le_min_l 4 (chunkWordCount st / 11)) as H4.
    split; [lia|].
    destruct Hu as [[_ Hz]|Hb]; [|exact Hb].
    rewrite Hz in Hm. change (0 / 11) with 0 in Hm. lia.
Qed.

(** *** Quotes and images *)

Lemma segStep_closing (p : str) (st : SegState) :
  List.length (chunks st) + b2n (closesChunk p) <= List.length (chunks (segStep st p)).
Proof.
  destruct st as [cs buf cnt].
  unfold segStep, closeOnQuoteOrImage, appendParagraph, closeOnOverflow,
    closeBeforeHeading, closesChunk.
  cbn [currentChunk chunkWordCount chunks].
  destruct (isHeading p && truthy buf);
    cbn [resetBuffer currentChunk chunkWordCount chunks];
    destruct (_ && _);
    cbn [resetBuffer currentChunk chunkWordCount chunks];
    destruct (isQuote p || hasImageInParagraph p);
    cbn [resetBuffer currentChunk chunkWordCount chunks b2n];
    rewrite ?length_app; cbn [List.length]; lia.
Qed.

Lemma segLoop_closing (m : Z) (qs : list str) : forall st,
  (m <= Z.of_nat (List.length (chunks (segLoop m st qs))))%Z
  \/ List.length (chunks st) + countClosing qs
     <= List.length (chunks (segLoop m st qs)).
Proof.
  induction qs as [|q qs IH]; intros st; cbn [segLoop].
  - right. unfold countClosing. cbn. lia.
  - pose proof (segStep_closing q st) as Hs.
    destruct (m <=? _)%Z eqn:E.
    + left. now apply Z.leb_le in E.
    + destruct (IH (segStep st q)) as [Hl|Hr]; [now left | right].
      unfold countClosing in *. cbn [filter].
      destruct (closesChunk q); cbn [List.length b2n] in *; lia.
Qed.

(** Three paragraphs that are quotes or hold an image make three chunks. *)
Lemma segmentParagraphs_closing (ps : list str) :
  3 <= countClosing ps -> List.length (segmentParagraphs ps 3) = 3.
Proof.
  intros H. unfold segmentParagraphs. apply segFinish_three. left.
  destruct (segLoop_closing 3 ps segInit) as [Hl|Hr]; [lia|].
  change (List.length (chunks segInit)) with 0 in Hr. lia.
Qed.

End SegmentationFacts.

(* ================================================================== *)
(** ** Facts about slide assembly *)
(* ================================================================== *)

Section AssemblyFacts.

Variable template : StoryTemplate.
Variable random : nat -> Q.

Lemma eachChunk_length (f : nat -> Chunk.t -> StorySlide) (cs : list Chunk.t) :
  forall i, List.length (eachChunk f i cs) = List.length cs.
Proof. induction cs as [|c cs IH]; intros i; simpl; [reflexivity | now rewrite IH]. Qed.

Lemma contentSlide_type post config images call index chunk :
  isMiddleType (Slide.type (contentSlide random post config images call index chunk)).
Proof.
  unfold contentSlide, isMiddleType. simpl.
  destruct (Chunk.isQuote chunk); [auto|].
  destruct (Chunk.hasImage chunk && _); auto.
Qed.

Lemma eachChunk_types post config images call (cs : list Chunk.t) : forall i,
  Forall (fun s => isMiddleType (Slide.type s))
         (eachChunk (contentSlide random post config images call) i cs).
Proof.
  induction cs as [|c cs IH]; intros i; simpl; constructor;
    [apply contentSlide_type | apply IH].
Qed.

Lemma createContentSlides_types post config m call :
  Forall (fun s => isMiddleType (Slide.type s))
         (createContentSlides random post config m call).
Proof.
  unfold createContentSlides. apply Forall_forall. intros s Hs.
  apply slice0_incl in Hs. revert s Hs. apply Forall_forall, eachChunk_types.
Qed.

Lemma createContentSlides_length post config m call :
  (0 <= m)%Z ->
  List.length (createContentSlides random post config m call)
  = List.length (segmentContent (Post.content post) m).
Proof.
  intros Hm. unfold createContentSlides.
  rewrite slice0_all; rewrite eachChunk_length; [reflexivity|].
  now apply segmentParagraphs_length_le.
Qed.

Lemma countType_app ty (a b : list StorySlide) :
  countType ty (a ++ b) = countType ty a + countType ty b.
Proof. unfold countType. now rewrite filter_app, length_app. Qed.

Lemma countType_middle ty (l : list StorySlide) :
  ~ isMiddleType ty ->
  Forall (fun s => isMiddleType (Slide.type s)) l -> countType ty l = 0.
Proof.
  intros Hty Hl. unfold countType.
  induction Hl as [|s l Hs _ IH]; simpl; [reflexivity|].
  destruct (SlideType_eqb (Slide.type s) ty) eqn:E; [|assumption].
  exfalso. apply Hty.
  destruct (Slide.type s), ty; try discriminate; exact Hs.
Qed.

(** The shape of the list [generateStory] returns. *)
Lemma generateStory_shape post options :
  generateStory template random post options
  = (if optIncludeTitle options
     then [createTitleSlide random post
             (mergeConfig (Template.config template) (optCustomizations options)) 0]
     else [])
    ++ createContentSlides random post
         (mergeConfig (Template.config template) (optCustomizations options))
         (contentBudget options) (if optIncludeTitle options then 1 else 0)
    ++ (if optIncludeCTA options
        then [createCTASlide post
                (mergeConfig (Template.config template) (optCustomizations options))
                (optCtaText options) (optCtaUrl options)]
        else []).
Proof.
  unfold generateStory.
  destruct (optIncludeTitle options), (optIncludeCTA options); simpl;
    rewrite ?app_nil_r; reflexivity.
Qed.

End AssemblyFacts.

(* ================================================================== *)
(** ** Claims about [generateStory] *)
(* ================================================================== *)

Section StoryClaims.

Variable template : StoryTemplate.
Variable random : nat -> Q.

(** C2 (as amended): when [maxSlides] is at least the number of slides
    requested besides the content (one for the title, one for the CTA), the
    list returned has at least that many slides and at most [maxSlides]; so
    it is not empty as soon as a title or a CTA is requested, or the content
    has a paragraph and leaves room for a chunk.  The chunks in excess are
    dropped; [generateStory] is total, it raises no error. *)
Theorem C2_slide_count (post : WordPressPostData) (options : Options.t) :
  (fixedSlides options <= optMaxSlides options)%Z ->
  let n := Z.of_nat (List.length (generateStory template random post options)) in
  (fixedSlides options <= n <= optMaxSlides options)%Z
  /\ (optIncludeTitle options = true \/ optIncludeCTA options = true -> (1 <= n)%Z)
  /\ (paragraphsOf (cleanHTML (Post.content post)) <> [] ->
      (fixedSlides options < optMaxSlides options)%Z -> (1 <= n)%Z).
Proof.
  intros Hfix n. subst n.
  rewrite generateStory_shape, !length_app.
  assert (Hb : (0 <= contentBudget options)%Z).
  { unfold contentBudget, fixedSlides in *.
    destruct (optIncludeTitle options), (optIncludeCTA options); lia. }
  rewrite createContentSlides_length by assumption.
  pose proof (@segmentParagraphs_length_le
                (paragraphsOf (cleanHTML (Post.content post))) _ Hb) as Hle.
  fold (segmentContent (Post.content post) (contentBudget options)) in Hle.
  assert (Hbudget : contentBudget options = (optMaxSlides options - fixedSlides options)%Z).
  { unfold contentBudget, fixedSlides.
    destruct (optIncludeTitle options), (optIncludeCTA options); lia. }
  assert (Hfixed :
    (Z.of_nat (List.length (if optIncludeTitle options
                           then [createTitleSlide random post
                                   (mergeConfig (Template.config template)
                                      (optCustomizations options)) 0]
                           else []))
    + Z.of_nat (List.length (if optIncludeCTA options
                             then [createCTASlide post
                                     (mergeConfig (Template.config template)
                                        (optCustomizations options))
                                     (optCtaText options) (optCtaUrl options)]
                             else []))
    = fixedSlides options)%Z).
  { unfold fixedSlides.
    destruct (optIncludeTitle options), (optIncludeCTA options); reflexivity. }
  split; [lia|]. split.
  - intros Hor. unfold fixedSlides in *.
    destruct (optIncludeTitle options), (optIncludeCTA options);
      simpl List.length in *; first [lia | destruct Hor; discriminate].
  - intros Hne Hroom.
    assert (Hch : segmentContent (Post.content post) (contentBudget options) <> []).
    { unfold segmentContent. apply segmentParagraphs_nonempty; [assumption| |lia].
      apply Forall_forall. intros p Hp. exact (paragraphsOf_nonblank _ _ Hp). }
    destruct (segmentContent (Post.content post) (contentBudget options));
      [congruence|]. simpl List.length. lia.
Qed.

(** C3: the list returned by [generateStory] has exactly one slide of type
    title if and only if [includeTitle] is true (and none otherwise), and
    exactly one slide of type cta if and only if [includeCTA] is true (and
    none otherwise); the title slide, when there is one, is the first
    element, and the cta slide, when there is one, is the last. *)
Theorem C3_title_and_cta (post : WordPressPostData) (options : Options.t) :
  let slides := generateStory template random post options in
  (countType title_ slides = 1 <-> optIncludeTitle options = true)
  /\ (countType cta_ slides = 1 <-> optIncludeCTA options = true)
  /\ countType title_ slides = (if optIncludeTitle options then 1 else 0)
  /\ countType cta_ slides = (if optIncludeCTA options then 1 else 0)
  /\ (optIncludeTitle options = true ->
      exists t rest, slides = t :: rest /\ Slide.type t = title_)
  /\ (optIncludeCTA options = true ->
      exists front c, slides = front ++ [c] /\ Slide.type c = cta_).
Proof.
  intros slides. subst slides.
  rewrite generateStory_shape.
  set (config := mergeConfig _ _).
  set (mid := createContentSlides random post config _ _).
  assert (Hmid : Forall (fun s => isMiddleType (Slide.type s)) mid)
    by apply createContentSlides_types.
  assert (Ht : countType title_ mid = 0).
  { apply countType_middle; [|assumption]. intros [H|[H|H]]; discriminate. }
  assert (Hc : countType cta_ mid = 0).
  { apply countType_middle; [|assumption]. intros [H|[H|H]]; discriminate. }
  rewrite !countType_app, Ht, Hc.
  destruct (optIncludeTitle options), (optIncludeCTA options); simpl;
    repeat split; try reflexivity; try discriminate; try lia; intros _.
  all: try (eexists _, _; split; [reflexivity | reflexivity]).
  all: try (eexists (_ :: mid), _; split; [reflexivity | reflexivity]).
  all: try (eexists mid, _; split; [reflexivity | reflexivity]).
Qed.

End StoryClaims.

(* ================================================================== *)
(** ** Claims about segmentation *)
(* ================================================================== *)

Section SegmentationClaims.

(** C4, counterexample: a single plain paragraph of 51 words, with no quote,
    no image and no heading anywhere, comes out as one chunk of 51 words. *)
Lemma C4_counterexample :
  forallb (fun p => negb (isHeading p) && negb (isQuote p)
                    && negb (hasImageInParagraph p))
          (paragraphsOf (cleanHTML content51)) = true
  /\ exists c,
       segmentContent content51 10 = [c]
       /\ Chunk.isQuote c = false
       /\ Chunk.hasImage c = false
       /\ wordCount (Chunk.text c) = 51
       /\ (maxWordsPerSlide <? wordCount (Chunk.text c)) = true.
Proof.
  split; [vm_compute; reflexivity|].
  eexists. split; [vm_compute; reflexivity|].
  split; [reflexivity|]. split; [reflexivity|].
  split; vm_compute; reflexivity.
Qed.

(** C4 (as amended): every chunk produced by segmentation has a text of at
    most 50 words unless it holds one paragraph alone, which is never split
    however long it is: a quote chunk holds the cleaned text of its quote
    paragraph, and any other chunk over the budget is one trimmed paragraph.
    Chunks closed by an image or before a heading obey the same bound. *)
Theorem C4_word_budget (htmlContent : str) (maxChunks : Z) (c : Chunk.t) :
  In c (segmentContent htmlContent maxChunks) ->
  (Chunk.isQuote c = true
   /\ exists p, In p (paragraphsOf (cleanHTML htmlContent))
                /\ Chunk.text c = cleanQuoteText p)
  \/ (Chunk.isQuote c = false
      /\ (wordCount (Chunk.text c) <= 50
          \/ exists p, In p (paragraphsOf (cleanHTML htmlContent))
                       /\ Chunk.text c = trim p)).
Proof.
  intros Hc. unfold segmentContent, segmentParagraphs in Hc.
  set (ps := paragraphsOf (cleanHTML htmlContent)) in *.
  assert (Hinv : segInv ps (segLoop maxChunks segInit ps)).
  { apply segLoop_inv; auto using segInv_init, incl_refl.
    apply Forall_forall. intros p Hp. exact (paragraphsOf_nonblank _ _ Hp). }
  pose proof (@segFinish_inv ps maxChunks _ Hinv) as Hall.
  rewrite Forall_forall in Hall. exact (Hall c Hc).
Qed.

(** *** Plain paragraphs under the budget *)

Lemma segStep_first (p : str) :
  isQuote p = false -> hasImageInParagraph p = false ->
  segStep segInit p
  = {| chunks := []; currentChunk := p; chunkWordCount := wordCount p |}.
Proof.
  intros Hq Hi.
  unfold segStep, closeOnQuoteOrImage, appendParagraph, closeOnOverflow,
    closeBeforeHeading, segInit, resetBuffer.
  cbn [currentChunk chunkWordCount chunks truthy isEmpty negb].
  rewrite !andb_false_r.
  cbn [currentChunk chunkWordCount chunks truthy isEmpty negb app].
  now rewrite Hq, Hi.
Qed.

Lemma segStep_plain (st : SegState) (p : str) :
  plainParagraph p ->
  chunkWordCount st + wordCount p <= maxWordsPerSlide ->
  segStep st p
  = {| chunks := chunks st;
       currentChunk := (if truthy (currentChunk st) then currentChunk st ++ [LF; LF]
                        else currentChunk st) ++ p;
       chunkWordCount := chunkWordCount st + wordCount p |}.
Proof.
  intros (Hh & Hq & Hi) Hfit. destruct st as [cs buf cnt].
  unfold segStep, closeOnQuoteOrImage, appendParagraph, closeOnOverflow,
    closeBeforeHeading.
  fold (wordCount p). cbn [currentChunk chunkWordCount chunks] in *.
  rewrite Hh. cbn [andb currentChunk chunkWordCount chunks].
  apply Nat.ltb_ge in Hfit. rewrite Hfit.
  cbn [andb currentChunk chunkWordCount chunks].
  now rewrite Hq, Hi.
Qed.

Lemma segStep_quote (st : SegState) (q : str) :
  isQuote q = true -> isHeading q = false ->
  chunkWordCount st + wordCount q <= maxWordsPerSlide ->
  segStep st q = resetBuffer (chunks st ++ [quoteChunk q]).
Proof.
  intros Hq Hh Hfit. destruct st as [cs buf cnt].
  unfold segStep, closeOnQuoteOrImage, appendParagraph, closeOnOverflow,
    closeBeforeHeading, quoteChunk.
  fold (wordCount q). cbn [currentChunk chunkWordCount chunks] in *.
  rewrite Hh. cbn [andb currentChunk chunkWordCount chunks].
  apply Nat.ltb_ge in Hfit. rewrite Hfit.
  cbn [andb currentChunk chunkWordCount chunks].
  rewrite Hq. reflexivity.
Qed.

Lemma fold_join_app (sep : str) (qs : list str) : forall x y,
  fold_left (fun b q => (b ++ sep) ++ q) qs (x ++ y)
  = x ++ fold_left (fun b q => (b ++ sep) ++ q) qs y.
Proof.
  induction qs as [|q qs IH]; intros x y; simpl; [reflexivity|].
  rewrite <- IH. f_equal. now rewrite <- !app_assoc.
Qed.

Lemma join_fold (sep : str) (qs : list str) : forall p,
  join sep (p :: qs) = fold_left (fun b q => (b ++ sep) ++ q) qs p.
Proof.
  induction qs as [|q qs IH]; intros p; [reflexivity|].
  change (join sep (p :: q :: qs)) with (p ++ sep ++ join sep (q :: qs)).
  rewrite IH. cbn [fold_left].
  rewrite <- (app_assoc p sep q), (fold_join_app sep qs p (sep ++ q)).
  now rewrite (fold_join_app sep qs sep q).
Qed.

Lemma totalWords_cons (q : str) (qs : list str) :
  totalWords (q :: qs) = wordCount q + totalWords qs.
Proof. reflexivity. Qed.

Lemma segLoop_plain (m : Z) (qs : list str) : forall st,
  (1 <= m)%Z -> chunks st = [] -> truthy (currentChunk st) = true ->
  Forall plainParagraph qs ->
  chunkWordCount st + totalWords qs <= maxWordsPerSlide ->
  segLoop m st qs
  = {| chunks := [];
       currentChunk := fold_left (fun b q => (b ++ [LF; LF]) ++ q) qs (currentChunk st);
       chunkWordCount := chunkWordCount st + totalWords qs |}.
Proof.
  induction qs as [|q qs IH]; intros st Hm Hc Ht Hall Hfit.
  - destruct st as [cs buf cnt]. simpl in *. subst.
    unfold totalWords. simpl. now rewrite Nat.add_0_r.
  - inversion Hall as [|? ? Hq Hqs]; subst.
    rewrite totalWords_cons in Hfit.
    cbn [segLoop]. rewrite (segStep_plain st q Hq) by lia.
    cbn [chunks]. rewrite Hc, Ht. cbn [List.length Z.of_nat].
    destruct (m <=? 0)%Z eqn:E; [apply Z.leb_le in E; lia|].
    rewrite IH; try assumption; cbn [chunks currentChunk chunkWordCount].
    + rewrite totalWords_cons. cbn [fold_left]. f_equal. lia.
    + reflexivity.
    + destruct (currentChunk st); reflexivity.
    + lia.
Qed.

(** C6, counterexample: four words in all, and two chunks, because the
    heading closes the chunk before it. *)
Lemma C6_counterexample :
  totalWords (paragraphsOf (cleanHTML contentWithHeading)) = 4
  /\ map Chunk.text (segmentContent contentWithHeading 10)
     = [lit "Intro text"; lit "<h2>Head</h2>Body text"].
Proof. split; vm_compute; reflexivity. Qed.

(** C6 (as amended): when the content has at least one paragraph, none of its
    paragraphs is a quote or image-bearing, none after the first is a
    heading, its words number 50 at most and [maxChunks] is at least 1,
    segmentation produces exactly one chunk, with [hasImage] and [isQuote]
    false, whose text is the paragraphs in their order joined by blank lines
    (and trimmed). *)
Theorem C6_single_chunk (htmlContent : str) (maxChunks : Z) :
  let ps := paragraphsOf (cleanHTML htmlContent) in
  ps <> [] ->
  (1 <= maxChunks)%Z ->
  totalWords ps <= 50 ->
  Forall (fun p => isQuote p = false /\ hasImageInParagraph p = false) ps ->
  Forall (fun p => isHeading p = false) (tl ps) ->
  segmentContent htmlContent maxChunks
  = [ {| Chunk.title := None;
         Chunk.text := trim (join [LF; LF] ps);
         Chunk.image := None;
         Chunk.imageAlt := None;
         Chunk.hasImage := false;
         Chunk.isQuote := false |} ].
Proof.
  intros ps Hne Hm Htot Hqi Hh. unfold segmentContent, segmentParagraphs.
  fold ps.
  assert (Hnb : forall p, In p ps -> blank p = false).
  { intros p Hp. exact (paragraphsOf_nonblank _ _ Hp). }
  destruct ps as [|p qs]; [congruence|].
  inversion Hqi as [|? ? [Hq Hi] Hqs]; subst.
  cbn [tl] in Hh. rewrite totalWords_cons in Htot.
  assert (Hp : blank p = false) by (apply Hnb; now left).
  cbn [segLoop]. rewrite (segStep_first p Hq Hi). cbn [chunks List.length Z.of_nat].
  destruct (maxChunks <=? 0)%Z eqn:E; [apply Z.leb_le in E; lia|].
  rewrite segLoop_plain; cbn [chunks currentChunk chunkWordCount].
  - unfold segFinish. cbn [chunks currentChunk List.length Z.of_nat].
    rewrite <- join_fold, truthy_trim.
    assert (Hj : blank (join [LF; LF] (p :: qs)) = false).
    { destruct qs as [|q' qs']; [exact Hp|].
      change (join [LF; LF] (p :: q' :: qs'))
        with (p ++ [LF; LF] ++ join [LF; LF] (q' :: qs')).
      rewrite blank_app, Hp. reflexivity. }
    rewrite Hj. cbn [negb andb].
    destruct (0 <? maxChunks)%Z eqn:E0; [|apply Z.ltb_ge in E0; lia].
    cbn [app]. rewrite slice0_all by (simpl; lia). reflexivity.
  - exact Hm.
  - reflexivity.
  - now apply not_blank_nonempty.
  - apply Forall_forall. intros q Hin. rewrite Forall_forall in Hqs, Hh.
    destruct (Hqs q Hin) as [Hq' Hi']. split; [now apply Hh | split; assumption].
  - unfold maxWordsPerSlide. lia.
Qed.

End SegmentationClaims.

Section QuoteClaims.

Lemma segStep_plain_chunks (st : SegState) (p : str) :
  plainParagraph p ->
  chunkWordCount st + wordCount p <= maxWordsPerSlide ->
  chunks (segStep st p) = chunks st
  /\ chunkWordCount (segStep st p) = chunkWordCount st + wordCount p.
Proof. intros Hp Hfit. rewrite (segStep_plain st p Hp Hfit). split; reflexivity. Qed.

(** Plain paragraphs that fit stay in the open buffer. *)
Lemma segLoop_buffering (m : Z) (buffered : list str) : forall st more,
  (Z.of_nat (List.length (chunks st)) < m)%Z ->
  Forall plainParagraph buffered ->
  chunkWordCount st + totalWords buffered <= maxWordsPerSlide ->
  exists st',
    segLoop m st (buffered ++ more) = segLoop m st' more
    /\ segLoop m st buffered = st'
    /\ chunks st' = chunks st
    /\ chunkWordCount st' = chunkWordCount st + totalWords buffered.
Proof.
  induction buffered as [|p ps IH]; intros st more Hm Hall Hfit.
  - exists st. repeat split. unfold totalWords. simpl. lia.
  - inversion Hall as [|? ? Hp Hps]; subst.
    rewrite totalWords_cons in Hfit.
    destruct (segStep_plain_chunks st p Hp) as [Hc Hw]; [lia|].
    destruct (IH (segStep st p) more) as (st' & E1 & E2 & E3 & E4);
      [rewrite Hc; exact Hm | exact Hps | rewrite Hw; lia |].
    exists st'. cbn [app segLoop]. rewrite Hc.
    destruct (m <=? Z.of_nat (List.length (chunks st)))%Z eqn:E;
      [apply Z.leb_le in E; lia|].
    repeat split; try assumption.
    + congruence.
    + rewrite E4, Hw, totalWords_cons. lia.
Qed.

(** C10, counterexample: the second paragraph is a quote and fits the budget
    with the buffered first one, but it is a heading too: the buffered
    paragraph is closed as a chunk of its own and appears in the output. *)
Lemma C10_counterexample :
  paragraphsOf (cleanHTML contentHeadingQuote)
  = [lit "intro words"; lit "<h2><blockquote>q</blockquote></h2>"]
  /\ isHeading (lit "intro words") = false
  /\ isQuote (lit "intro words") = false
  /\ hasImageInParagraph (lit "intro words") = false
  /\ isQuote (lit "<h2><blockquote>q</blockquote></h2>") = true
  /\ wordCount (lit "intro words")
     + wordCount (lit "<h2><blockquote>q</blockquote></h2>") <= 50
  /\ map Chunk.text (segmentContent contentHeadingQuote 10)
     = [lit "intro words"; lit "<h2>q</h2>"].
Proof. repeat split; vm_compute; try reflexivity. lia. Qed.

(** C10 (as amended): when plain paragraphs have been accumulated in the open
    buffer and the next paragraph is a quote that is not a heading and whose
    words fit the budget with those of the buffer, the buffered paragraphs
    are still unemitted when the quote is reached, the chunk emitted at the
    quote is a quote chunk whose text is the cleaned quote paragraph alone,
    the buffer is emptied, and the output of the segmentation is what it
    would be had the buffer been empty: the buffered paragraphs are in no
    chunk. *)
Theorem C10_buffer_discarded (st : SegState) (buffered : list str) (q : str)
    (more : list str) (maxChunks : Z) :
  (Z.of_nat (List.length (chunks st)) < maxChunks)%Z ->
  Forall plainParagraph buffered ->
  isQuote q = true ->
  isHeading q = false ->
  chunkWordCount st + totalWords buffered + wordCount q <= 50 ->
  let before := segLoop maxChunks st buffered in
  chunks before = chunks st
  /\ (exists c,
        segStep before q = resetBuffer (chunks st ++ [c])
        /\ Chunk.isQuote c = true
        /\ Chunk.text c = cleanQuoteText q)
  /\ segFinish maxChunks (segLoop maxChunks st (buffered ++ q :: more))
     = segFinish maxChunks (segLoop maxChunks (resetBuffer (chunks st)) (q :: more)).
Proof.
  intros Hm Hall Hq Hh Hfit before. subst before.
  destruct (segLoop_buffering maxChunks buffered st (q :: more) Hm Hall)
    as (st' & E1 & E2 & E3 & E4); [unfold maxWordsPerSlide; lia|].
  rewrite E1, E2.
  assert (Hs : segStep st' q = resetBuffer (chunks st ++ [quoteChunk q])).
  { rewrite <- E3. apply segStep_quote; auto. unfold maxWordsPerSlide. lia. }
  split; [exact E3|]. split.
  - exists (quoteChunk q). repeat split. exact Hs.
  - cbn [segLoop]. rewrite Hs.
    rewrite (segStep_quote (resetBuffer (chunks st)) q Hq Hh)
      by (cbn; unfold maxWordsPerSlide; lia).
    reflexivity.
Qed.

(** C10 at [contentBufferedQuote]: the two plain paragraphs are in no chunk. *)
Lemma C10_witness :
  map Chunk.text (segmentParagraphs contentBufferedQuote 10)
  = [lit "Quoted words"; lit "Afterwards."]
  /\ segmentParagraphs contentBufferedQuote 10
     = segmentParagraphs [lit "> Quoted words"; lit "Afterwards."] 10.
Proof.
  split; [vm_compute; reflexivity|].
  refine (proj2 (proj2 (C10_buffer_discarded segInit
     [lit "First plain paragraph."; lit "Second one."]
     (lit "> Quoted words") [lit "Afterwards."] 10 _ _ _ _ _))).
  - reflexivity.
  - repeat constructor.
  - reflexivity.
  - reflexivity.
  - vm_compute. lia.
Defined.

(** C5, the code at the failing input: both paragraphs are recognized as
    quotes and each closes a chunk with [isQuote] set, but only the first
    one loses its marker: the second chunk's text still starts with it. *)
Theorem C5_quote_marker_kept :
  paragraphsOf (cleanHTML contentIndentedQuote) = [lit "> one"; lit " > two"]
  /\ isQuote (lit "> one") = true
  /\ isQuote (lit " > two") = true
  /\ map (fun c => (Chunk.isQuote c, Chunk.text c))
         (segmentContent contentIndentedQuote 10)
     = [(true, lit "one"); (true, lit "> two")]
  /\ cleanQuoteText (lit " > two") = lit "> two".
Proof. repeat split; vm_compute; reflexivity. Qed.

(** What holds of every quote paragraph the loop reaches: its iteration ends
    with a new last chunk that has [isQuote] set and the text
    [cleanQuoteText paragraph], and with an empty buffer. *)
Lemma quote_closes_chunk (st : SegState) (paragraph : str) :
  isQuote paragraph = true ->
  exists earlier c,
    segStep st paragraph = resetBuffer (earlier ++ [c])
    /\ Chunk.isQuote c = true
    /\ Chunk.text c = cleanQuoteText paragraph.
Proof.
  intros Hq. unfold segStep.
  set (st2 := appendParagraph paragraph _).
  unfold closeOnQuoteOrImage. rewrite Hq. cbn [orb].
  eexists (chunks st2), _. split; [reflexivity|]. split; reflexivity.
Qed.

End QuoteClaims.

(* ================================================================== *)
(** ** Claims about duration, validation and rendering *)
(* ================================================================== *)

Section DurationClaims.

(** The count of the code is the number of words, but 1 for a text with no
    word. *)
Lemma wordCount_max (text : str) : wordCount text = Nat.max 1 (wordsIn text).
Proof.
  unfold wordsIn. pose proof (wordCount_pos text) as Hpos.
  destruct (blank text) eqn:Hb.
  - rewrite (wordCount_blank _ Hb), (nruns_blank _ true Hb). reflexivity.
  - rewrite <- (wordCount_nruns _ Hb). lia.
Qed.

(** C7 (as amended): with [n] the count the code makes,
    [text.trim().split(/\s+/).length], which is the number of words of the
    text but 1 for a text with no word, the duration of a slide is
    [clamp(3 + n * 0.1, 3, 8)] computed on Numbers, the product and the sum
    being rounded; it is within [2^-50] of the exact
    [clamp(3 + n / 10, 3, 8)]; it lies between 3.1 and 8; it does not
    decrease when the count, or the number of words, grows; it is 8 exactly
    from 50 words on, and it is never the lower bound 3. *)
Theorem C7_duration (text : str) :
  let n := wordCount text in
  let d := calculateSlideDuration text in
  n = Nat.max 1 (wordsIn text)
  /\ (d == clamp (fadd 3 (fmul (inject_Z (Z.of_nat n)) (fl (1 # 10)))) 3 8)%Q
  /\ (Qabs (d - exactDuration n) <= 1 # 1125899906842624)%Q
  /\ (31 # 10 <= d <= 8)%Q
  /\ (forall text', wordCount text <= wordCount text' ->
        (d <= calculateSlideDuration text')%Q)
  /\ (forall text', wordsIn text <= wordsIn text' ->
        (d <= calculateSlideDuration text')%Q)
  /\ ((d == 8)%Q <-> 50 <= n)
  /\ ((d == 8)%Q <-> 50 <= wordsIn text)
  /\ ~ (d == 3)%Q.
Proof.
  intros n d. subst d. rewrite calculateSlideDuration_count. fold n.
  pose proof (wordCount_pos text) as Hpos. fold n in Hpos.
  pose proof (wordCount_max text) as Hmax. fold n in Hmax.
  assert (Hmono : forall text', n <= wordCount text' ->
            (durationOfCount n <= calculateSlideDuration text')%Q).
  { intros text' Hw. rewrite calculateSlideDuration_count.
    apply duration_mono. lia. }
  split; [exact Hmax|].
  split; [unfold durationOfCount; apply clamp_min_max|].
  split; [now apply duration_error|].
  split; [split; [now apply duration_ge | apply duration_le_8]|].
  split; [exact Hmono|].
  split; [intros text' Hw; apply Hmono; rewrite Hmax, (wordCount_max text'); lia|].
  split; [now apply duration_eight|].
  split; [rewrite (duration_eight n Hpos); lia|].
  pose proof (duration_ge n Hpos). lra.
Qed.

(** C7 at a text of three words and a text of sixty. *)
Lemma C7_witness :
  (calculateSlideDuration (lit "one two three")
   <= calculateSlideDuration (copies 60 (lit "word ")))%Q
  /\ (calculateSlideDuration (copies 60 (lit "word ")) == 8)%Q.
Proof.
  split.
  - destruct (C7_duration (lit "one two three")) as (_ & _ & _ & _ & Hmono & _).
    apply Hmono. vm_compute. lia.
  - destruct (C7_duration (copies 60 (lit "word "))) as (_ & _ & _ & _ & _ & _ & H8 & _).
    apply H8. vm_compute. lia.
Defined.

(** C7, counterexamples: an empty text has no word, so that the formula of
    the specification gives 3 seconds, and the code gives 3.1 (the Number
    nearest to it); a text of 23 words has the duration 5.3 by the formula
    and a Number above 5.3, [5.300000000000001], in the code. *)
Lemma C7_counterexample :
  (wordsIn [] = 0
   /\ (claimedDuration [] == 3)%Q
   /\ (calculateSlideDuration [] == fl (31 # 10))%Q
   /\ ~ (calculateSlideDuration [] == claimedDuration [])%Q)
  /\ (wordsIn twentyThreeWords = 23
      /\ (claimedDuration twentyThreeWords == 53 # 10)%Q
      /\ (calculateSlideDuration twentyThreeWords
          == 5967269506265908 # 1125899906842624)%Q
      /\ ~ (calculateSlideDuration twentyThreeWords == claimedDuration twentyThreeWords)%Q).
Proof.
  split; (split; [vm_compute; reflexivity|]);
    (split; [vm_compute; reflexivity|]);
    (split; [vm_compute; reflexivity|]);
    vm_compute; discriminate.
Qed.

End DurationClaims.

Section ValidationClaims.

(** The outcome of [validateAMPHTML] in terms of its five tests. *)
Lemma validateAMPHTML_unfold (ampHTML : str) :
  validateAMPHTML ampHTML
  = let errors :=
      pushIf (negb (includes ampHTML (lit "viewport")))
        (lit "Missing viewport meta tag")
        (pushIf (negb (includes ampHTML (lit "amp-story")))
           (lit "Missing amp-story component")
           (pushIf (negb (includes ampHTML [highVoltage])
                    && negb (includes ampHTML (lit "amp")))
              (lit "Missing AMP attribute in html tag") [])) in
    let warnings :=
      pushIf (negb (includes ampHTML (lit "canonical")))
        (lit "Missing canonical URL")
        (pushIf (negb (includes ampHTML (lit "application/ld+json")))
           (lit "Missing structured data (JSON-LD)") []) in
    {| Validation.isValid := isEmpty_list errors;
       Validation.errors := errors;
       Validation.warnings := warnings |}.
Proof. reflexivity. Qed.

Lemma pushIf_In {A} (cond : bool) (x : A) (l : list A) :
  cond = true -> In x (pushIf cond x l).
Proof. intros ->. unfold pushIf. apply in_or_app. right. now left. Qed.

Lemma pushIf_nonempty {A} (cond : bool) (x : A) (l : list A) :
  cond = true -> isEmpty_list (pushIf cond x l) = false.
Proof. intros ->. unfold pushIf. now destruct l. Qed.

Lemma isEmpty_list_iff {A} (l : list A) : isEmpty_list l = true <-> l = [].
Proof. destruct l; split; intros H; try reflexivity; discriminate. Qed.

(** C8: [validateAMPHTML] answers [isValid = true] exactly when its list of
    errors is empty; a document without the viewport marker is invalid and
    has the viewport error, whatever its warnings; a document without the
    canonical marker that has the format marker, the story-component marker
    and the viewport marker gets the canonical-URL warning and is valid. *)
Theorem C8_validation (ampHTML : str) :
  let r := validateAMPHTML ampHTML in
  (Validation.isValid r = true <-> Validation.errors r = [])
  /\ (includes ampHTML (lit "viewport") = false ->
      Validation.isValid r = false
      /\ In (lit "Missing viewport meta tag") (Validation.errors r))
  /\ (includes ampHTML (lit "canonical") = false ->
      includes ampHTML [highVoltage] = true \/ includes ampHTML (lit "amp") = true ->
      includes ampHTML (lit "amp-story") = true ->
      includes ampHTML (lit "viewport") = true ->
      In (lit "Missing canonical URL") (Validation.warnings r)
      /\ Validation.isValid r = true).
Proof.
  intros r. subst r. rewrite validateAMPHTML_unfold. cbv zeta.
  cbn [Validation.isValid Validation.errors Validation.warnings].
  split; [apply isEmpty_list_iff|]. split.
  - intros Hv. rewrite Hv. split.
    + now apply pushIf_nonempty.
    + now apply pushIf_In.
  - intros Hc Hamp Hstory Hv. rewrite Hc, Hstory, Hv. split.
    + now apply pushIf_In.
    + assert (E : negb (includes ampHTML [highVoltage])
                  && negb (includes ampHTML (lit "amp")) = false).
      { destruct Hamp as [H|H]; rewrite H; [reflexivity | apply andb_false_r]. }
      rewrite E. reflexivity.
Qed.

(** C8 at [docNoViewport] and [docNoCanonical]. *)
Lemma C8_witness :
  (Validation.isValid (validateAMPHTML docNoViewport) = false
   /\ In (lit "Missing viewport meta tag")
         (Validation.errors (validateAMPHTML docNoViewport)))
  /\ (In (lit "Missing canonical URL")
         (Validation.warnings (validateAMPHTML docNoCanonical))
      /\ Validation.isValid (validateAMPHTML docNoCanonical) = true).
Proof.
  split.
  - apply (proj1 (proj2 (C8_validation docNoViewport))). reflexivity.
  - apply (proj2 (proj2 (C8_validation docNoCanonical)));
      [reflexivity | right; reflexivity | reflexivity | reflexivity].
Defined.

End ValidationClaims.

Section RenderingClaims.

Variable escapeHTML : str -> str.
Variable nowISO : str.

Lemma includes_decompose (s m : str) :
  includes s m = true -> exists a b, s = a ++ m ++ b.
Proof.
  induction s as [|x s IH]; simpl; intros H.
  - rewrite orb_false_r in H. destruct m; [|discriminate]. now exists [], [].
  - apply orb_true_iff in H as [H|H].
    + exists []. simpl.
      clear IH. revert x s H. induction m as [|y m IHm]; intros x s H.
      * now exists (x :: s).
      * simpl in H. apply andb_true_iff in H as [H1 H2].
        apply N.eqb_eq in H1. subst y.
        destruct s as [|x' s'].
        -- destruct m; [now exists [] | discriminate].
        -- destruct m as [|y' m'].
           ++ now exists (x' :: s').
           ++ destruct (IHm x' s' H2) as [b Hb]. exists b. simpl in *. now rewrite Hb.
    + destruct (IH H) as (a & b & E). exists (x :: a), b. simpl. now rewrite E.
Qed.

Lemma includes_compose (a m b : str) : includes (a ++ m ++ b) m = true.
Proof. apply includes_app_r, includes_app_l.
  destruct m; [reflexivity|]. simpl.
  rewrite N.eqb_refl. simpl.
  rewrite <- (app_nil_r m) at 1. now rewrite startsWith_refl_app.
Qed.

Lemma trimStart_keeps (a m b : str) (c : char) :
  isSpace c = false ->
  exists a', trimStart (a ++ (c :: m) ++ b) = a' ++ (c :: m) ++ b.
Proof.
  intros Hc. induction a as [|x a IH]; simpl.
  - exists []. now rewrite Hc.
  - destruct (isSpace x); [exact IH|]. now exists (x :: a).
Qed.

Lemma trimEnd_keeps (a m b : str) (c : char) :
  isSpace c = false ->
  trimEnd (a ++ (m ++ [c]) ++ b) = a ++ (m ++ [c]) ++ trimEnd b.
Proof.
  intros Hc.
  assert (H1 : trimEnd ([c] ++ b) = [c] ++ trimEnd b).
  { simpl. destruct (trimEnd b); [now rewrite Hc | reflexivity]. }
  assert (H2 : forall x, trimEnd (x ++ [c] ++ b) = x ++ [c] ++ trimEnd b).
  { induction x as [|y x IHx]; [exact H1|].
    simpl. simpl in IHx. rewrite IHx. now destruct x. }
  rewrite <- !app_assoc. rewrite (app_assoc a m). rewrite H2.
  now rewrite <- !app_assoc.
Qed.

(** Trimming does not cut an occurrence of a marker that starts and ends
    with a code unit that is not white space. *)
Lemma includes_trim (s : str) (c : char) (m : str) (d : char) :
  isSpace c = false -> isSpace d = false ->
  includes s (c :: m ++ [d]) = true ->
  includes (trim s) (c :: m ++ [d]) = true.
Proof.
  intros Hc Hd H. destruct (includes_decompose _ _ H) as (a & b & E). subst s.
  unfold trim.
  destruct (trimStart_keeps a (m ++ [d]) b c Hc) as [a' Ea]. rewrite Ea.
  change ((c :: m ++ [d]) ++ b) with (((c :: m) ++ [d]) ++ b).
  rewrite trimEnd_keeps by assumption.
  apply includes_compose.
Qed.

Lemma includes_trim_single (s : str) (c : char) :
  isSpace c = false -> includes s [c] = true -> includes (trim s) [c] = true.
Proof.
  intros Hc H. destruct (includes_decompose _ _ H) as (a & b & E). subst s.
  unfold trim.
  destruct (trimStart_keeps a [] b c Hc) as [a' Ea]. rewrite Ea.
  change ([c] ++ b) with (([] ++ [c]) ++ b).
  rewrite trimEnd_keeps by assumption.
  apply includes_compose.
Qed.

(** Search for a marker in a concatenation of parts: in the first part by
    computation, or else in the parts that follow. *)
Ltac find_marker :=
  repeat first
    [ apply includes_app_l; vm_compute; reflexivity
    | apply includes_app_r ].

Lemma ampTemplate_has_format (slides : list StorySlide) (metadata : Metadata.t) :
  includes (ampTemplate escapeHTML nowISO slides metadata) [highVoltage] = true.
Proof. unfold ampTemplate. find_marker. Qed.

Lemma ampTemplate_has_story (slides : list StorySlide) (metadata : Metadata.t) :
  includes (ampTemplate escapeHTML nowISO slides metadata) (lit "amp-story") = true.
Proof. unfold ampTemplate. find_marker. Qed.

Lemma ampTemplate_has_viewport (slides : list StorySlide) (metadata : Metadata.t) :
  includes (ampTemplate escapeHTML nowISO slides metadata) (lit "viewport") = true.
Proof. unfold ampTemplate. find_marker. Qed.

(** Every rendered document passes the validator. *)
Lemma generateAMPHTML_valid (slides : list StorySlide) (metadata : Metadata.t) :
  Validation.isValid
    (validateAMPHTML (generateAMPHTML escapeHTML nowISO slides metadata)) = true.
Proof.
  rewrite validateAMPHTML_unfold. cbv zeta. cbn [Validation.isValid].
  unfold generateAMPHTML.
  assert (Hf : includes (trim (ampTemplate escapeHTML nowISO slides metadata))
                 [highVoltage] = true).
  { apply includes_trim_single; [reflexivity | apply ampTemplate_has_format]. }
  assert (Hv : includes (trim (ampTemplate escapeHTML nowISO slides metadata))
                 (lit "viewport") = true).
  { apply (includes_trim _ (code "v") (lit "iewpor") (code "t"));
      [reflexivity | reflexivity | apply ampTemplate_has_viewport]. }
  assert (Hs : includes (trim (ampTemplate escapeHTML nowISO slides metadata))
                 (lit "amp-story") = true).
  { apply (includes_trim _ (code "a") (lit "mp-stor") (code "y"));
      [reflexivity | reflexivity | apply ampTemplate_has_story]. }
  rewrite Hf, Hv, Hs. reflexivity.
Qed.

(** C9: for every post, options and metadata (so in particular when the
    canonical URL and the publisher name and logo are supplied), the
    document rendered from the slides of [generateStory] is valid for
    [validateAMPHTML].  The host's [escapeHTML] and the time stamp are
    arbitrary. *)
Theorem C9_round_trip (template : StoryTemplate) (random : nat -> Q)
    (post : WordPressPostData) (options : Options.t) (metadata : Metadata.t) :
  Validation.isValid
    (validateAMPHTML
       (generateAMPHTML escapeHTML nowISO
          (generateStory template random post options) metadata)) = true.
Proof. apply generateAMPHTML_valid. Qed.

End RenderingClaims.

(* ================================================================== *)
(** ** Sample inputs, counterexamples and witnesses *)
(* ================================================================== *)

Section Samples.

(** The scenario of the specification: two short paragraphs, three slides. *)
Example scenario_hello_world :
  map (fun s => (Slide.id s, Slide.type s,
                 Content.title (Slide.content s), Content.text (Slide.content s)))
      (generateStory sampleTemplate sampleRandom (postWith twoParagraphs)
         (optionsWith 3 true true))
  = [ (lit "1", title_, Some (lit "Hello World"), None);
      (lit "2", content_, None,
       Some (lit "First paragraph text here." ++ [LF; LF] ++ lit "Second paragraph."));
      (lit "cta", cta_, Some (lit "Learn More About Hello World"), None) ].
Proof. vm_compute. reflexivity. Qed.

(** C1, counterexample: ten paragraphs of one word each fit one chunk, and
    the story has three slides, not five. *)
Lemma C1_counterexample :
  10 <= List.length (paragraphsOf (cleanHTML (Post.content (postWith tenShortParagraphs))))
  /\ map Slide.type
         (generateStory sampleTemplate sampleRandom (postWith tenShortParagraphs)
            (optionsWith 5 true true))
     = [title_; content_; cta_]
  /\ List.length
       (generateStory sampleTemplate sampleRandom (postWith tenShortParagraphs)
          (optionsWith 5 true true)) <> 5.
Proof.
  split; [vm_compute; lia|].
  split; [vm_compute; reflexivity|].
  vm_compute. discriminate.
Qed.

(** C2, counterexample: with neither title nor CTA and an empty content the
    list is empty; with [maxSlides = 1] and both requested it has two
    slides. *)
Lemma C2_counterexample :
  generateStory sampleTemplate sampleRandom (postWith []) (optionsWith 10 false false) = []
  /\ List.length
       (generateStory sampleTemplate sampleRandom (postWith tenShortParagraphs)
          (optionsWith 1 true true)) = 2.
Proof. split; vm_compute; reflexivity. Qed.

(** C2 at ten short paragraphs with [maxSlides = 5]. *)
Lemma C2_witness :
  (2 <= Z.of_nat (List.length
                    (generateStory sampleTemplate sampleRandom
                       (postWith tenShortParagraphs) (optionsWith 5 true true)))
   <= 5)%Z.
Proof.
  apply (proj1 (C2_slide_count sampleTemplate sampleRandom
                  (postWith tenShortParagraphs) (optionsWith 5 true true)
                  ltac:(vm_compute; discriminate))).
Defined.

(** C3 at the scenario of the specification. *)
Lemma C3_witness :
  (exists t rest,
     generateStory sampleTemplate sampleRandom (postWith twoParagraphs)
       (optionsWith 3 true true) = t :: rest
     /\ Slide.type t = title_)
  /\ (exists front c,
        generateStory sampleTemplate sampleRandom (postWith twoParagraphs)
          (optionsWith 3 true true) = front ++ [c]
        /\ Slide.type c = cta_).
Proof.
  pose proof (C3_title_and_cta sampleTemplate sampleRandom
                (postWith twoParagraphs) (optionsWith 3 true true)) as H.
  cbv zeta in H. destruct H as (_ & _ & _ & _ & Hfirst & Hlast).
  split; [apply Hfirst | apply Hlast]; reflexivity.
Defined.

(** C4 at the chunk of [content51]. *)
Lemma C4_witness :
  let c := plainChunk None (copies 50 (lit "word ") ++ lit "word") in
  (Chunk.isQuote c = true
   /\ exists p, In p (paragraphsOf (cleanHTML content51))
                /\ Chunk.text c = cleanQuoteText p)
  \/ (Chunk.isQuote c = false
      /\ (wordCount (Chunk.text c) <= 50
          \/ exists p, In p (paragraphsOf (cleanHTML content51))
                       /\ Chunk.text c = trim p)).
Proof.
  apply (C4_word_budget content51 10). vm_compute. left. reflexivity.
Defined.

(** C6 at the two paragraphs of the scenario. *)
Lemma C6_witness :
  segmentContent twoParagraphs 3
  = [ {| Chunk.title := None;
         Chunk.text := trim (join [LF; LF] (paragraphsOf (cleanHTML twoParagraphs)));
         Chunk.image := None;
         Chunk.imageAlt := None;
         Chunk.hasImage := false;
         Chunk.isQuote := false |} ].
Proof.
  apply C6_single_chunk.
  - vm_compute. discriminate.
  - lia.
  - vm_compute. lia.
  - apply Forall_forall. intros p Hp. vm_compute in Hp.
    destruct Hp as [<-|[<-|[]]]; split; vm_compute; reflexivity.
  - apply Forall_forall. intros p Hp. vm_compute in Hp.
    destruct Hp as [<-|[]]; vm_compute; reflexivity.
Defined.

End Samples.

(* ================================================================== *)
(** ** Further properties: the matcher *)
(* ================================================================== *)

Section MatcherFacts.

Lemma advances_refl (c : cursor) : advances c c.
Proof. exists []. split; reflexivity. Qed.

Lemma advances_trans (c1 c2 c3 : cursor) :
  advances c1 c2 -> advances c2 c3 -> advances c1 c3.
Proof.
  intros (m1 & A1 & S1) (m2 & A2 & S2). exists (m1 ++ m2). split.
  - now rewrite A1, A2, app_assoc.
  - now rewrite S2, S1, rev_app_distr, app_assoc.
Qed.

Lemma iterStar_advances {A : Set} (step : cursor -> (cursor -> option A) -> option A) :
  (forall c k a, step c k = Some a -> exists c', advances c c' /\ k c' = Some a) ->
  forall n c k a, iterStar step k n c = Some a ->
  exists c', advances c c' /\ k c' = Some a.
Proof.
  intros Hstep. induction n as [|n IH]; intros c k a H; cbn [iterStar] in H.
  - exists c. split; [apply advances_refl | exact H].
  - destruct (step c _) as [a'|] eqn:E.
    + inversion H; subst a'. clear H.
      destruct (Hstep _ _ _ E) as (c1 & Hadv & Hk).
      destruct (List.length (ahead c1) <? List.length (ahead c)); [|discriminate].
      destruct (IH _ _ _ Hk) as (c2 & Hadv2 & Hk2).
      exists c2. split; [exact (advances_trans _ _ _ Hadv Hadv2) | exact Hk2].
    + exists c. split; [apply advances_refl | exact H].
Qed.

(** Whatever the matcher answers, it answers through its continuation, at a
    position reached by moving forward in the text. *)
Lemma run_advances (r : regex) :
  forall (A : Set) (c : cursor) (k : cursor -> option A) (a : A),
  run r c k = Some a -> exists c', advances c c' /\ k c' = Some a.
Proof.
  induction r as [|p|r1 IH1 r2 IH2|r1 IH1 r2 IH2|r1 IH1|r1 IH1| | |r1 IH1];
    intros A c k a H; cbn [run] in H.
  - exists c. split; [apply advances_refl | exact H].
  - destruct c as [sn rest g]. cbn [ahead seen grp] in H.
    destruct rest as [|x t]; [discriminate|].
    destruct (p x); [|discriminate].
    eexists. split; [|exact H]. exists [x]. split; reflexivity.
  - destruct (IH1 _ _ _ _ H) as (c1 & Hadv1 & H1).
    destruct (IH2 _ _ _ _ H1) as (c2 & Hadv2 & H2).
    exists c2. split; [exact (advances_trans _ _ _ Hadv1 Hadv2) | exact H2].
  - destruct (run r1 c k) as [a'|] eqn:E.
    + inversion H; subst a'. exact (IH1 _ _ _ _ E).
    + exact (IH2 _ _ _ _ H).
  - apply (iterStar_advances (run r1) (IH1 A)) in H. exact H.
  - destruct (run r1 c (fun _ => Some tt)); [discriminate|].
    exists c. split; [apply advances_refl | exact H].
  - destruct (xorb _ _); [|discriminate].
    exists c. split; [apply advances_refl | exact H].
  - destruct (isEmpty _); [|discriminate].
    exists c. split; [apply advances_refl | exact H].
  - destruct (IH1 _ _ _ _ H) as (c1 & (mid & Ha & Hs) & H1).
    eexists. split; [|exact H1]. exists mid. split; assumption.
Qed.

Lemma matchAt_advances (r : regex) (sn rest : str) (c : cursor) :
  matchAt r sn rest = Some c ->
  exists mid, rest = mid ++ ahead c /\ seen c = rev mid ++ sn.
Proof.
  unfold matchAt. intros H.
  destruct (run_advances r _ _ _ _ H) as (c' & (mid & Ha & Hs) & Hk).
  inversion Hk; subst c'. exists mid. split; assumption.
Qed.

Lemma findFrom_advances (r : regex) (rest : str) : forall sn sk c,
  findFrom r sn rest = Some (sk, c) ->
  exists mid, rest = sk ++ mid ++ ahead c.
Proof.
  induction rest as [|x t IH]; intros sn sk c H; cbn [findFrom] in H.
  - destruct (matchAt r sn []) as [c0|] eqn:E; [|discriminate].
    inversion H; subst. destruct (matchAt_advances _ _ _ _ E) as (mid & Hm & _).
    exists mid. exact Hm.
  - destruct (matchAt r sn (x :: t)) as [c0|] eqn:E.
    + inversion H; subst. destruct (matchAt_advances _ _ _ _ E) as (mid & Hm & _).
      exists mid. exact Hm.
    + destruct (findFrom r (x :: sn) t) as [[sk' c']|] eqn:F; [|discriminate].
      inversion H; subst. destruct (IH _ _ _ F) as (mid & Hm).
      exists mid. simpl. now rewrite <- Hm.
Qed.

(** A global replacement only keeps code units of the text and adds code
    units of the replacement. *)
Lemma replaceAllFrom_units (r : regex) (rep : str) (fuel : nat) :
  forall sn rest x,
  In x (replaceAllFrom fuel r rep sn rest) -> In x rest \/ In x rep.
Proof.
  induction fuel as [|f IH]; intros sn rest x H; cbn [replaceAllFrom] in H;
    [now left|].
  destruct (findFrom r sn rest) as [[sk c]|] eqn:F; [|now left].
  destruct (findFrom_advances _ _ _ _ _ F) as (mid & Hrest).
  assert (Hsub : forall y, In y sk \/ In y (ahead c) -> In y rest).
  { intros y Hy. rewrite Hrest. rewrite !in_app_iff. tauto. }
  destruct (_ <? _).
  - rewrite !in_app_iff in H. destruct H as [H|[H|H]]; auto.
    destruct (IH _ _ _ H) as [H'|H']; auto.
  - destruct (ahead c) as [|y t] eqn:Ea.
    + rewrite in_app_iff in H. destruct H as [H|H]; auto.
    + rewrite !in_app_iff in H. destruct H as [H|[H|H]]; auto.
      destruct H as [H|H]; [subst; apply or_introl, Hsub; right; now left|].
      destruct (IH _ _ _ H) as [H'|H']; auto.
      left. apply Hsub. right. now right.
Qed.

Lemma replaceAll_units (r : regex) (rep s : str) (x : char) :
  In x (replaceAll r rep s) -> In x s \/ In x rep.
Proof. apply replaceAllFrom_units. Qed.

(** A pattern that must start with a code unit of a class matches only
    where the text has one. *)
Lemma run_leading (r : regex) : forall p,
  leading r = Some p ->
  forall (A : Set) (c : cursor) (k : cursor -> option A) (a : A),
  run r c k = Some a -> exists x t, ahead c = x :: t /\ p x = true.
Proof.
  induction r as [|q|r1 IH1 r2 IH2|r1 IH1 r2 IH2|r1 IH1|r1 IH1| | |r1 IH1];
    intros p Hp A c k a H; cbn [leading] in Hp; try discriminate;
    cbn [run] in H.
  - inversion Hp; subst q. destruct (ahead c) as [|x t]; [discriminate|].
    destruct (p x) eqn:E; [|discriminate]. now exists x, t.
  - exact (IH1 _ Hp _ _ _ _ H).
  - exact (IH1 _ Hp _ _ _ _ H).
Qed.

Lemma findFrom_none (r : regex) (p : char -> bool) (rest : str) : forall sn,
  leading r = Some p ->
  Forall (fun x => p x = false) rest ->
  findFrom r sn rest = None.
Proof.
  induction rest as [|x t IH]; intros sn Hp Hall; cbn [findFrom].
  - destruct (matchAt r sn []) as [c|] eqn:E; [|reflexivity].
    destruct (run_leading r _ Hp _ _ _ _ E) as (y & u & Hy & _). discriminate.
  - inversion Hall; subst.
    destruct (matchAt r sn (x :: t)) as [c|] eqn:E.
    + destruct (run_leading r _ Hp _ _ _ _ E) as (y & u & Hy & Hpy).
      cbn [ahead] in Hy. inversion Hy; subst. congruence.
    + now rewrite IH.
Qed.

(** No replacement where no code unit can start a match. *)
Lemma replaceAll_none (r : regex) (p : char -> bool) (rep s : str) :
  leading r = Some p ->
  Forall (fun x => p x = false) s ->
  replaceAll r rep s = s.
Proof.
  intros Hp Hall. unfold replaceAll. cbn [replaceAllFrom].
  now rewrite (findFrom_none _ _ _ _ Hp Hall).
Qed.

End MatcherFacts.

(* ================================================================== *)
(** ** Further properties: the sanitizer *)
(* ================================================================== *)

Section SanitizerFacts.

Lemma trimStart_units (s : str) (x : char) : In x (trimStart s) -> In x s.
Proof.
  induction s as [|c s IH]; simpl; [tauto|].
  destruct (isSpace c); [intros H; right; now apply IH | simpl; tauto].
Qed.

Lemma trimEnd_units (s : str) (x : char) : In x (trimEnd s) -> In x s.
Proof.
  induction s as [|c s IH]; simpl; [tauto|].
  destruct (trimEnd s) as [|y t].
  - destruct (isSpace c); simpl; tauto.
  - intros [H|H]; [now left | right; now apply IH].
Qed.

Lemma trim_units (s : str) (x : char) : In x (trim s) -> In x s.
Proof. intros H. now apply trimStart_units, trimEnd_units. Qed.

Lemma trimStart_fixed (s : str) :
  match s with [] => True | x :: _ => isSpace x = false end -> trimStart s = s.
Proof. destruct s as [|x t]; simpl; [reflexivity | now intros ->]. Qed.

Lemma trimEnd_idem (s : str) : trimEnd (trimEnd s) = trimEnd s.
Proof.
  induction s as [|c s IH]; simpl; [reflexivity|].
  destruct (trimEnd s) as [|y t] eqn:E.
  - destruct (isSpace c) eqn:Ec; simpl; [reflexivity | now rewrite Ec].
  - change (trimEnd (c :: y :: t))
      with (match trimEnd (y :: t) with
            | [] => if isSpace c then [] else [c]
            | t' => c :: t'
            end).
    rewrite IH. reflexivity.
Qed.

(** Trimming twice is trimming once. *)
Lemma trim_idem (s : str) : trim (trim s) = trim s.
Proof.
  unfold trim at 1. rewrite trimStart_fixed.
  - unfold trim. apply trimEnd_idem.
  - destruct (trim s) as [|x t] eqn:E; [exact I|].
    unfold trim in E. destruct (trimEnd_head _ _ _ E) as [t' Ht'].
    exact (trimStart_head _ _ _ Ht').
Qed.

Lemma lower_lt (x : char) : N.eqb (lower x) (lower (code "<")) = N.eqb x (code "<").
Proof.
  unfold lower at 1.
  destruct ((65 <=? x) && (x <=? 90))%N eqn:E; [|reflexivity].
  apply andb_true_iff in E as [E1 E2]. apply N.leb_le in E1, E2.
  change (lower (code "<")) with 60%N. change (code "<") with 60%N.
  destruct (N.eqb_spec (x + 32) 60), (N.eqb_spec x 60); try reflexivity; lia.
Qed.

(** The patterns of [cleanHTML] and the code unit each must start with. *)
Lemma leading_block (tag : string) : leading (blockOf tag) = Some (N.eqb lt_).
Proof. reflexivity. Qed.

Lemma markupFree_forall (s : str) (p : char -> bool) :
  (forall x, p x = true -> startsMarkup x = true) ->
  markupFree s = true -> Forall (fun x => p x = false) s.
Proof.
  intros Hp H. apply Forall_forall. intros x Hx.
  unfold markupFree in H. rewrite forallb_forall in H. specialize (H x Hx).
  destruct (p x) eqn:E; [|reflexivity].
  rewrite (Hp x E) in H. discriminate.
Qed.

Lemma eqb_startsMarkup (c : char) :
  startsMarkup c = true -> forall x, N.eqb c x = true -> startsMarkup x = true.
Proof. intros Hc x Hx. apply N.eqb_eq in Hx. now subst. Qed.

Lemma lowerI_startsMarkup (x : char) :
  N.eqb (lower x) (lower (code "<")) = true -> startsMarkup x = true.
Proof.
  rewrite lower_lt. intros H. unfold startsMarkup. now rewrite H.
Qed.

(** A text without angle bracket and ampersand passes the tag and entity
    replacements of [cleanHTML] unchanged. *)
Lemma cleanHTML_no_tags (s : str) :
  forallb (fun x => negb (N.eqb x (code "<") || N.eqb x (code "&"))) s = true ->
  cleanHTML s = trim (replaceAll reBlankLines [LF; LF] s).
Proof.
  intros H. unfold cleanHTML. cbv zeta.
  assert (Hlt : Forall (fun x => N.eqb lt_ x = false) s).
  { apply Forall_forall. intros x Hx. rewrite forallb_forall in H.
    specialize (H x Hx). rewrite N.eqb_sym.
    change lt_ with (code "<"). destruct (N.eqb x (code "<")); [discriminate | reflexivity]. }
  assert (Hamp : Forall (fun x => N.eqb (code "&") x = false) s).
  { apply Forall_forall. intros x Hx. rewrite forallb_forall in H.
    specialize (H x Hx). rewrite N.eqb_sym.
    destruct (N.eqb x (code "&")); [|reflexivity].
    rewrite orb_true_r in H. discriminate. }
  assert (HltI : Forall (fun x => N.eqb (lower x) (lower (code "<")) = false) s).
  { apply Forall_forall. intros x Hx. rewrite lower_lt, N.eqb_sym.
    rewrite Forall_forall in Hlt. exact (Hlt x Hx). }
  rewrite (replaceAll_none (blockOf "script") (N.eqb lt_) [] s eq_refl Hlt).
  rewrite (replaceAll_none (blockOf "style") (N.eqb lt_) [] s eq_refl Hlt).
  rewrite (replaceAll_none (text "&nbsp;") (N.eqb (code "&")) _ s eq_refl Hamp).
  rewrite (replaceAll_none (text "&amp;") (N.eqb (code "&")) _ s eq_refl Hamp).
  rewrite (replaceAll_none (text "&lt;") (N.eqb (code "&")) _ s eq_refl Hamp).
  rewrite (replaceAll_none (text "&gt;") (N.eqb (code "&")) _ s eq_refl Hamp).
  rewrite (replaceAll_none (text "&quot;") (N.eqb (code "&")) _ s eq_refl Hamp).
  rewrite (replaceAll_none (text "&#39;") (N.eqb (code "&")) _ s eq_refl Hamp).
  rewrite (replaceAll_none reBr _ _ s eq_refl HltI).
  rewrite (replaceAll_none rePClose _ _ s eq_refl HltI).
  rewrite (replaceAll_none rePOpen _ _ s eq_refl HltI).
  rewrite (replaceAll_none reOtherTag (N.eqb lt_) _ s eq_refl Hlt).
  reflexivity.
Qed.

End SanitizerFacts.

Section SanitizerProperties.

Lemma blank_no_tags (s : str) :
  blank s = true ->
  forallb (fun x => negb (N.eqb x (code "<") || N.eqb x (code "&"))) s = true.
Proof.
  intros H. apply forallb_forall. intros x Hx.
  unfold blank in H. rewrite forallb_forall in H. specialize (H x Hx).
  destruct (N.eqb_spec x (code "<")) as [->|_]; [discriminate|].
  destruct (N.eqb_spec x (code "&")) as [->|_]; [discriminate|].
  reflexivity.
Qed.

Lemma markupFree_no_tags (s : str) :
  markupFree s = true ->
  forallb (fun x => negb (N.eqb x (code "<") || N.eqb x (code "&"))) s = true.
Proof.
  intros H. apply forallb_forall. intros x Hx.
  unfold markupFree in H. rewrite forallb_forall in H. specialize (H x Hx).
  unfold startsMarkup in H.
  destruct (N.eqb x (code "<")), (N.eqb x (code "&")); try discriminate; reflexivity.
Qed.

(** X1: a content with no opening angle bracket, no ampersand and no line
    feed is only trimmed by [cleanHTML]: the sanitizer leaves plain text as
    it is. *)
Theorem cleanHTML_plain_text (s : str) :
  markupFree s = true -> cleanHTML s = trim s.
Proof.
  intros H. rewrite (cleanHTML_no_tags s (markupFree_no_tags s H)).
  rewrite (replaceAll_none reBlankLines (N.eqb LF) [LF; LF] s eq_refl);
    [reflexivity|].
  apply Forall_forall. intros x Hx.
  unfold markupFree in H. rewrite forallb_forall in H. specialize (H x Hx).
  unfold startsMarkup in H. rewrite N.eqb_sym.
  destruct (N.eqb x LF); [|reflexivity].
  rewrite !orb_true_r in H. discriminate.
Qed.

(** X1 at a padded sentence. *)
Lemma cleanHTML_plain_text_witness :
  cleanHTML paddedPlainText = trim paddedPlainText.
Proof. apply cleanHTML_plain_text. vm_compute. reflexivity. Defined.

(** A content of white space only is cleaned to the empty string. *)
Lemma cleanHTML_blank (s : str) : blank s = true -> cleanHTML s = [].
Proof.
  intros H. rewrite (cleanHTML_no_tags s (blank_no_tags s H)).
  apply trim_nil_iff. unfold blank. apply forallb_forall. intros x Hx.
  destruct (replaceAll_units _ _ _ _ Hx) as [Hs|Hr].
  - unfold blank in H. rewrite forallb_forall in H. exact (H x Hs).
  - destruct Hr as [<-|[<-|[]]]; reflexivity.
Qed.

Lemma segmentContent_blank (s : str) (m : Z) :
  blank s = true -> segmentContent s m = [].
Proof.
  intros H. unfold segmentContent. rewrite (cleanHTML_blank s H).
  unfold segmentParagraphs. change (paragraphsOf []) with (@nil str).
  cbn [segLoop]. unfold segFinish, segInit, resetBuffer.
  cbn [currentChunk chunks]. unfold slice0.
  destruct (m <? 0)%Z; apply firstn_nil.
Qed.

End SanitizerProperties.

Section BlankContent.

Variable template : StoryTemplate.
Variable random : nat -> Q.

(** X2: when the content of the post is empty or holds white space only,
    [generateStory] returns the title slide if it is requested and the CTA
    slide if it is requested, and nothing else, whatever [maxSlides] is. *)
Theorem blank_content_story (post : WordPressPostData) (options : Options.t) :
  blank (Post.content post) = true ->
  generateStory template random post options
  = (if optIncludeTitle options
     then [createTitleSlide random post
             (mergeConfig (Template.config template) (optCustomizations options)) 0]
     else [])
    ++ (if optIncludeCTA options
        then [createCTASlide post
                (mergeConfig (Template.config template) (optCustomizations options))
                (optCtaText options) (optCtaUrl options)]
        else []).
Proof.
  intros H. rewrite generateStory_shape. f_equal.
  unfold createContentSlides. rewrite (segmentContent_blank _ _ H).
  cbn [eachChunk]. unfold slice0.
  destruct (_ <? 0)%Z; rewrite firstn_nil; reflexivity.
Qed.

End BlankContent.

(** X2 at a content of blanks and line feeds. *)
Lemma blank_content_story_witness :
  map Slide.type
      (generateStory sampleTemplate sampleRandom
         (postWith (lit "   " ++ [LF; LF] ++ lit "  ")) (optionsWith 4 true true))
  = [title_; cta_].
Proof.
  rewrite (blank_content_story sampleTemplate sampleRandom
             (postWith (lit "   " ++ [LF; LF] ++ lit "  ")) (optionsWith 4 true true)
             eq_refl).
  reflexivity.
Defined.

Section ExcerptProperties.

Lemma trimStart_length (s : str) : List.length (trimStart s) <= List.length s.
Proof.
  induction s as [|c s IH]; simpl; [lia|].
  destruct (isSpace c); simpl; lia.
Qed.

Lemma trimEnd_length (s : str) : List.length (trimEnd s) <= List.length s.
Proof.
  induction s as [|c s IH]; simpl; [lia|].
  destruct (trimEnd s); [destruct (isSpace c)|]; simpl in *; lia.
Qed.

Lemma trim_length (s : str) : List.length (trim s) <= List.length s.
Proof.
  unfold trim. pose proof (trimEnd_length (trimStart s)).
  pose proof (trimStart_length s). lia.
Qed.

Lemma excerptLoop_length (maxLength : nat) (sentences : list str) : forall excerpt,
  List.length excerpt <= maxLength + 2 ->
  List.length (excerptLoop maxLength excerpt sentences) <= maxLength + 2.
Proof.
  induction sentences as [|s more IH]; intros excerpt H; cbn [excerptLoop];
    [exact H|].
  destruct (maxLength <? List.length (excerpt ++ s)) eqn:E; [exact H|].
  apply Nat.ltb_ge in E. apply IH.
  rewrite app_assoc, length_app. change (List.length (lit ". ")) with 2. lia.
Qed.

(** X3: the excerpt generated for a content is never empty and has at most
    [maxLength + 3] code units: sentences are added while they fit, each
    followed by two code units, and the fallback is the first [maxLength]
    code units of the cleaned content followed by three dots. *)
Theorem generateExcerpt_bounds (maxLength : nat) (content : str) :
  generateExcerptWith maxLength content <> []
  /\ List.length (generateExcerptWith maxLength content) <= maxLength + 3.
Proof.
  unfold generateExcerptWith. cbv zeta.
  set (excerpt := excerptLoop maxLength [] _).
  assert (He : List.length excerpt <= maxLength + 2).
  { apply excerptLoop_length. simpl. lia. }
  destruct (truthy (trim excerpt)) eqn:E.
  - split.
    + intros H. rewrite H in E. discriminate.
    + pose proof (trim_length excerpt). lia.
  - split.
    + intros H. apply app_eq_nil in H as [_ H]. discriminate.
    + unfold substring0. rewrite length_app, length_firstn.
      change (List.length (lit "...")) with 3. lia.
Qed.

End ExcerptProperties.

(* ================================================================== *)
(** ** Further properties: segmentation *)
(* ================================================================== *)

Section SegmentationProperties.

(** *** Chunks are only added *)

Lemma closeBeforeHeading_app (p : str) (st : SegState) :
  exists new, chunks (closeBeforeHeading p st) = chunks st ++ new.
Proof.
  unfold closeBeforeHeading. destruct (_ && _).
  - eexists. reflexivity.
  - exists []. now rewrite app_nil_r.
Qed.

Lemma closeOnOverflow_app (p : str) (st : SegState) :
  exists new, chunks (closeOnOverflow p st) = chunks st ++ new.
Proof.
  unfold closeOnOverflow. destruct (_ && _).
  - eexists. reflexivity.
  - exists []. now rewrite app_nil_r.
Qed.

Lemma closeOnQuoteOrImage_app (p : str) (st : SegState) :
  exists new, chunks (closeOnQuoteOrImage p st) = chunks st ++ new.
Proof.
  unfold closeOnQuoteOrImage. destruct (_ || _).
  - eexists. reflexivity.
  - exists []. now rewrite app_nil_r.
Qed.

Lemma segStep_app (st : SegState) (p : str) :
  exists new, chunks (segStep st p) = chunks st ++ new.
Proof.
  unfold segStep.
  destruct (closeBeforeHeading_app p st) as [n1 E1].
  destruct (closeOnOverflow_app p (closeBeforeHeading p st)) as [n2 E2].
  destruct (closeOnQuoteOrImage_app p
              (appendParagraph p (closeOnOverflow p (closeBeforeHeading p st))))
    as [n3 E3].
  exists (n1 ++ n2 ++ n3). rewrite E3. cbn [appendParagraph chunks].
  rewrite E2, E1. now rewrite <- !app_assoc.
Qed.

Lemma segLoop_app (m : Z) (ps : list str) : forall st,
  exists extra, chunks (segLoop m st ps) = chunks st ++ extra.
Proof.
  induction ps as [|p ps IH]; intros st; cbn [segLoop].
  - exists []. now rewrite app_nil_r.
  - destruct (segStep_app st p) as [n En].
    destruct (m <=? _)%Z; [now exists n|].
    destruct (IH (segStep st p)) as [e Ee].
    exists (n ++ e). now rewrite Ee, En, <- app_assoc.
Qed.

(** *** The cap *)

Lemma segStep_init_length (p : str) :
  List.length (chunks (segStep segInit p)) <= 1.
Proof.
  unfold segStep, closeOnQuoteOrImage, appendParagraph, closeOnOverflow,
    closeBeforeHeading, segInit, resetBuffer.
  cbn [currentChunk chunkWordCount chunks truthy isEmpty negb].
  rewrite !andb_false_r.
  cbn [currentChunk chunkWordCount chunks truthy isEmpty negb app].
  destruct (_ || _); simpl; lia.
Qed.

Lemma segmentParagraphs_negative (ps : list str) (m : Z) :
  (m < 0)%Z -> segmentParagraphs ps m = [].
Proof.
  intros Hm. unfold segmentParagraphs.
  assert (Hlen : List.length (chunks (segLoop m segInit ps)) <= 1).
  { destruct ps as [|p ps]; cbn [segLoop]; [simpl; lia|].
    pose proof (segStep_init_length p) as Hp.
    destruct (m <=? _)%Z eqn:E; [exact Hp|]. apply Z.leb_gt in E. lia. }
  unfold segFinish.
  destruct (Z.of_nat (List.length (chunks (segLoop m segInit ps))) <? m)%Z eqn:E;
    [apply Z.ltb_lt in E; lia|].
  rewrite andb_false_r. unfold slice0.
  destruct (m <? 0)%Z eqn:E'; [|apply Z.ltb_ge in E'; lia].
  replace (Z.to_nat _) with 0 by lia. reflexivity.
Qed.

(** X4: for every content and every integer [maxChunks], segmentation
    returns at most [maxChunks] chunks, and none when [maxChunks] is zero or
    negative. *)
Theorem segmentContent_cap (htmlContent : str) (maxChunks : Z) :
  (Z.of_nat (List.length (segmentContent htmlContent maxChunks))
   <= Z.max maxChunks 0)%Z.
Proof.
  unfold segmentContent. destruct (Z.ltb_spec maxChunks 0) as [H|H].
  - rewrite segmentParagraphs_negative by assumption. simpl. lia.
  - pose proof (segmentParagraphs_length_le
                  (paragraphsOf (cleanHTML htmlContent)) maxChunks H). lia.
Qed.

(** *** A lower cap only truncates *)

Lemma segLoop_cap (m m' : Z) (ps : list str) : forall st,
  (m <= m')%Z ->
  segLoop m' st ps = segLoop m st ps
  \/ ((m <= Z.of_nat (List.length (chunks (segLoop m st ps))))%Z
      /\ exists extra, chunks (segLoop m' st ps) = chunks (segLoop m st ps) ++ extra).
Proof.
  induction ps as [|p ps IH]; intros st Hm; cbn [segLoop]; [now left|].
  destruct (m <=? Z.of_nat (List.length (chunks (segStep st p))))%Z eqn:E.
  - apply Z.leb_le in E.
    destruct (m' <=? _)%Z; [now left|].
    right. split; [exact E|]. apply segLoop_app.
  - apply Z.leb_gt in E.
    destruct (m' <=? _)%Z eqn:E'; [apply Z.leb_le in E'; lia|].
    now apply IH.
Qed.

Lemma firstn_app_short {A} (n : nat) (l1 l2 : list A) :
  n <= List.length l1 -> firstn n (l1 ++ l2) = firstn n l1.
Proof.
  intros H. rewrite firstn_app.
  replace (n - List.length l1) with 0 by lia. simpl. apply app_nil_r.
Qed.

Lemma segmentParagraphs_prefix (ps : list str) (m m' : Z) :
  (0 <= m <= m')%Z ->
  segmentParagraphs ps m = firstn (Z.to_nat m) (segmentParagraphs ps m').
Proof.
  intros [H0 Hm]. unfold segmentParagraphs, segFinish, slice0.
  destruct (m <? 0)%Z eqn:E1; [apply Z.ltb_lt in E1; lia|].
  destruct (m' <? 0)%Z eqn:E2; [apply Z.ltb_lt in E2; lia|].
  rewrite firstn_firstn. replace (Nat.min (Z.to_nat m) (Z.to_nat m')) with (Z.to_nat m) by lia.
  destruct (segLoop_cap m m' ps segInit Hm) as [E|(Hlen & extra & E)].
  - rewrite E. set (st := segLoop m segInit ps).
    destruct (truthy (trim (currentChunk st))); cbn [andb]; [|reflexivity].
    destruct (Z.of_nat (List.length (chunks st)) <? m)%Z eqn:L.
    + apply Z.ltb_lt in L.
      destruct (Z.of_nat (List.length (chunks st)) <? m')%Z eqn:L';
        [reflexivity | apply Z.ltb_ge in L'; lia].
    + apply Z.ltb_ge in L.
      destruct (_ <? m')%Z; [|reflexivity].
      symmetry. apply firstn_app_short. lia.
  - set (st := segLoop m segInit ps) in *. set (st' := segLoop m' segInit ps) in *.
    destruct (Z.of_nat (List.length (chunks st)) <? m)%Z eqn:L;
      [apply Z.ltb_lt in L; lia|].
    rewrite andb_false_r.
    destruct (_ && _); rewrite E, <- ?app_assoc;
      symmetry; apply firstn_app_short; lia.
Qed.

(** X5: lowering [maxChunks] only truncates: for [0 <= m <= m'], the chunks
    returned for the cap [m] are the first [m] of those returned for the cap
    [m']. *)
Theorem segmentContent_prefix (htmlContent : str) (m m' : Z) :
  (0 <= m <= m')%Z ->
  segmentContent htmlContent m
  = firstn (Z.to_nat m) (segmentContent htmlContent m').
Proof. intros H. unfold segmentContent. now apply segmentParagraphs_prefix. Qed.

(** X5 at the caps 2 and 8. *)
Lemma segmentContent_prefix_witness :
  segmentContent contentWithImage 2
  = firstn 2 (segmentContent contentWithImage 8).
Proof. apply (segmentContent_prefix contentWithImage 2 8). lia. Defined.

(** *** What every chunk is *)

(** An induction principle for the chunks of a segmentation: a property that
    holds of every plain chunk closed on a buffer that is not blank, and of
    every chunk closed at a quote or image-bearing paragraph of the content,
    holds of every chunk returned. *)
Lemma segStep_chunks_ind (ps : list str) (P : Chunk.t -> Prop) :
  (forall t b, blank b = false -> P (plainChunk t (trim b))) ->
  (forall p b, In p ps -> blank b = false ->
               isQuote p || hasImageInParagraph p = true -> P (triggerChunk p b)) ->
  forall st p, In p ps -> blank p = false ->
  Forall P (chunks st) -> bufferTidy st ->
  Forall P (chunks (segStep st p)) /\ bufferTidy (segStep st p).
Proof.
  intros Hplain Htrig st p Hin Hp Hall Htidy.
  assert (Hclose : forall st0 t, Forall P (chunks st0) -> bufferTidy st0 ->
            truthy (currentChunk st0) = true ->
            Forall P (chunks st0 ++ [plainChunk t (trim (currentChunk st0))])).
  { intros st0 t Ha Ht Hne. apply Forall_app. split; [exact Ha|].
    constructor; [|constructor]. apply Hplain.
    destruct Ht as [E|E]; [rewrite E in Hne; discriminate | exact E]. }
  unfold segStep.
  assert (H1 : Forall P (chunks (closeBeforeHeading p st))
               /\ bufferTidy (closeBeforeHeading p st)).
  { unfold closeBeforeHeading. destruct (isHeading p && _) eqn:E; [|now split].
    apply andb_true_iff in E as [_ E]. split; [now apply Hclose | now left]. }
  destruct H1 as [Ha1 Ht1]. set (st1 := closeBeforeHeading p st) in *.
  assert (H2 : Forall P (chunks (closeOnOverflow p st1))
               /\ bufferTidy (closeOnOverflow p st1)).
  { unfold closeOnOverflow. destruct (_ && truthy (currentChunk st1)) eqn:E; [|now split].
    apply andb_true_iff in E as [_ E]. split; [now apply Hclose | now left]. }
  destruct H2 as [Ha2 Ht2]. set (st2 := closeOnOverflow p st1) in *.
  assert (Hb3 : blank (currentChunk (appendParagraph p st2)) = false).
  { cbn [appendParagraph currentChunk]. rewrite blank_app, Hp. apply andb_false_r. }
  unfold closeOnQuoteOrImage.
  destruct (isQuote p || hasImageInParagraph p) eqn:E.
  - split; [|now left]. cbn [resetBuffer chunks appendParagraph].
    apply Forall_app. split; [exact Ha2|]. constructor; [|constructor].
    exact (Htrig p _ Hin Hb3 E).
  - split; [exact Ha2 | now right].
Qed.

Lemma segmentParagraphs_ind (ps : list str) (P : Chunk.t -> Prop) (m : Z) :
  Forall (fun p => blank p = false) ps ->
  (forall t b, blank b = false -> P (plainChunk t (trim b))) ->
  (forall p b, In p ps -> blank b = false ->
               isQuote p || hasImageInParagraph p = true -> P (triggerChunk p b)) ->
  Forall P (segmentParagraphs ps m).
Proof.
  intros Hnb Hplain Htrig. unfold segmentParagraphs.
  assert (Hloop : forall qs st, incl qs ps -> Forall P (chunks st) -> bufferTidy st ->
            Forall P (chunks (segLoop m st qs)) /\ bufferTidy (segLoop m st qs)).
  { induction qs as [|q qs IH]; intros st Hincl Ha Ht; cbn [segLoop]; [now split|].
    assert (Hq : In q ps) by (apply Hincl; now left).
    rewrite Forall_forall in Hnb.
    destruct (segStep_chunks_ind ps P Hplain Htrig st q Hq (Hnb q Hq) Ha Ht)
      as [Ha' Ht'].
    destruct (m <=? _)%Z; [now split|].
    apply IH; auto. intros x Hx. apply Hincl. now right. }
  destruct (Hloop ps segInit (incl_refl ps)) as [Ha Ht];
    [constructor | now left |].
  apply Forall_forall. intros c Hc. unfold segFinish in Hc.
  apply slice0_incl in Hc. rewrite Forall_forall in Ha.
  destruct (truthy (trim _) && _) eqn:E; [|now apply Ha].
  apply in_app_or in Hc as [Hc|[<-|[]]]; [now apply Ha|].
  apply Hplain. apply andb_true_iff in E as [E _].
  rewrite truthy_trim in E. now destruct (blank _).
Qed.

Lemma paragraphs_nonblank (s : str) :
  Forall (fun p => blank p = false) (paragraphsOf s).
Proof. apply Forall_forall. intros p Hp. exact (paragraphsOf_nonblank _ _ Hp). Qed.

(** X6: every chunk that is not a quote chunk has a text that is not blank
    (so not empty) and carries no white space at either end. *)
Theorem chunk_text_tidy (htmlContent : str) (maxChunks : Z) (c : Chunk.t) :
  In c (segmentContent htmlContent maxChunks) ->
  Chunk.isQuote c = false ->
  blank (Chunk.text c) = false /\ trim (Chunk.text c) = Chunk.text c.
Proof.
  intros Hc.
  assert (H : Forall (fun c => Chunk.isQuote c = false ->
                blank (Chunk.text c) = false /\ trim (Chunk.text c) = Chunk.text c)
                (segmentContent htmlContent maxChunks)).
  { unfold segmentContent.
    apply segmentParagraphs_ind; [apply paragraphs_nonblank | |].
    - intros t b Hb _. cbn [plainChunk Chunk.text].
      split; [now rewrite blank_trim | apply trim_idem].
    - intros p b _ Hb _ Hq. cbn [triggerChunk Chunk.isQuote Chunk.text] in *.
      rewrite Hq. split; [now rewrite blank_trim | apply trim_idem]. }
  rewrite Forall_forall in H. exact (H c Hc).
Qed.

(** X7: a chunk carries an image URL or an alternative text only when
    [hasImage] is set, and then they are those extracted from one
    image-bearing paragraph of the content. *)
Theorem chunk_image_origin (htmlContent : str) (maxChunks : Z) (c : Chunk.t) :
  In c (segmentContent htmlContent maxChunks) ->
  (Chunk.hasImage c = false -> Chunk.image c = None /\ Chunk.imageAlt c = None)
  /\ (Chunk.hasImage c = true ->
      exists p, In p (paragraphsOf (cleanHTML htmlContent))
                /\ hasImageInParagraph p = true
                /\ Chunk.image c = extractImageFromParagraph p
                /\ Chunk.imageAlt c = extractImageAlt p).
Proof.
  intros Hc.
  assert (H : Forall (fun c =>
      (Chunk.hasImage c = false -> Chunk.image c = None /\ Chunk.imageAlt c = None)
      /\ (Chunk.hasImage c = true ->
          exists p, In p (paragraphsOf (cleanHTML htmlContent))
                    /\ hasImageInParagraph p = true
                    /\ Chunk.image c = extractImageFromParagraph p
                    /\ Chunk.imageAlt c = extractImageAlt p))
      (segmentContent htmlContent maxChunks)).
  { unfold segmentContent.
    apply segmentParagraphs_ind; [apply paragraphs_nonblank | |].
    - intros t b _. cbn [plainChunk Chunk.hasImage Chunk.image Chunk.imageAlt].
      split; [now split | discriminate].
    - intros p b Hin _ _. cbn [triggerChunk Chunk.hasImage Chunk.image Chunk.imageAlt].
      split.
      + intros ->. now split.
      + intros H. exists p. rewrite H. repeat split; assumption. }
  rewrite Forall_forall in H. exact (H c Hc).
Qed.

End SegmentationProperties.

(** X6 and X7 at the chunks of [contentWithImage]. *)
Lemma chunk_text_tidy_witness :
  blank (lit "After it.") = false /\ trim (lit "After it.") = lit "After it.".
Proof.
  apply (chunk_text_tidy contentWithImage 8 (plainChunk None (lit "After it."))).
  - vm_compute. right. left. reflexivity.
  - reflexivity.
Defined.

Lemma chunk_image_origin_witness :
  exists c p,
    In c (segmentContent contentWithImage 8)
    /\ In p (paragraphsOf (cleanHTML contentWithImage))
    /\ Chunk.image c = Some (lit "sea.png")
    /\ Chunk.image c = extractImageFromParagraph p
    /\ Chunk.imageAlt c = extractImageAlt p.
Proof.
  assert (Hin : In (triggerChunk (lit "<img src='sea.png' alt='The sea'> A caption.")
                      (lit "Before the picture." ++ [LF; LF]
                       ++ lit "<img src='sea.png' alt='The sea'> A caption."))
                   (segmentContent contentWithImage 8)).
  { vm_compute. left. reflexivity. }
  destruct (proj2 (chunk_image_origin contentWithImage 8 _ Hin))
    as (p & Hp & _ & Hi & Ha); [vm_compute; reflexivity|].
  eexists _, p. split; [exact Hin|]. split; [exact Hp|].
  split; [vm_compute; reflexivity|]. split; assumption.
Defined.

(* ================================================================== *)
(** ** Further properties: the slides *)
(* ================================================================== *)

Section SlideProperties.

Variable template : StoryTemplate.
Variable random : nat -> Q.

Lemma lit_inj (a b : string) : lit a = lit b -> a = b.
Proof.
  unfold lit. intros H.
  rewrite <- (string_of_list_ascii_of_string a), <- (string_of_list_ascii_of_string b).
  f_equal. revert H. generalize (list_ascii_of_string a) (list_ascii_of_string b).
  induction l as [|x l IH]; intros [|y l'] H; try discriminate; [reflexivity|].
  simpl in H. inversion H as [[Hx Hl]]. f_equal; [|now apply IH].
  rewrite <- (ascii_N_embedding x), <- (ascii_N_embedding y). now rewrite Hx.
Qed.

Lemma natToString_inj (n m : nat) : natToString n = natToString m -> n = m.
Proof.
  unfold natToString. intros H. apply lit_inj in H.
  assert (E : Some (Nat.to_uint n) = Some (Nat.to_uint m)).
  { rewrite <- !NilEmpty.usu. now rewrite H. }
  inversion E as [E'].
  rewrite <- (DecimalNat.Unsigned.of_to n), <- (DecimalNat.Unsigned.of_to m).
  now rewrite E'.
Qed.

Lemma natToString_not_cta (n : nat) : natToString n <> lit "cta".
Proof.
  unfold natToString. intros H. apply lit_inj in H.
  pose proof (NilEmpty.usu (Nat.to_uint n)) as E. rewrite H in E. discriminate.
Qed.

Lemma eachChunk_ids post config images call (cs : list Chunk.t) : forall i,
  map Slide.id (eachChunk (contentSlide random post config images call) i cs)
  = map (fun j => natToString (j + 2)) (seq i (List.length cs)).
Proof.
  induction cs as [|c cs IH]; intros i; cbn [eachChunk map List.length seq];
    [reflexivity|].
  now rewrite IH.
Qed.

Lemma slice0_firstn {A} (l : list A) (e : Z) : exists n, slice0 l e = firstn n l.
Proof. unfold slice0. destruct (e <? 0)%Z; eexists; reflexivity. Qed.

Lemma firstn_seq_min (n : nat) : forall a len,
  firstn n (seq a len) = seq a (Nat.min n len).
Proof.
  induction n as [|n IH]; intros a len; [reflexivity|].
  destruct len as [|len]; [reflexivity|]. simpl. now rewrite IH.
Qed.

Lemma createContentSlides_ids post config m call :
  exists k, map Slide.id (createContentSlides random post config m call) = contentIds k.
Proof.
  unfold createContentSlides.
  destruct (slice0_firstn
              (eachChunk
                 (contentSlide random post config (extractImages (Post.content post)) call)
                 0 (segmentContent (Post.content post) m)) m) as [n ->].
  rewrite <- firstn_map, eachChunk_ids, firstn_map, firstn_seq_min.
  eexists. reflexivity.
Qed.

Lemma contentIds_NoDup (k : nat) : NoDup (contentIds k).
Proof.
  unfold contentIds. generalize (seq_NoDup k 0). generalize (seq 0 k).
  induction 1 as [|x l Hx _ IH]; simpl; constructor; [|exact IH].
  rewrite in_map_iff. intros (y & E & Hy).
  apply natToString_inj in E. assert (y = x) by lia. now subst.
Qed.

Lemma contentIds_not_title (k : nat) : ~ In (lit "1") (contentIds k).
Proof.
  unfold contentIds. rewrite in_map_iff. intros (j & E & _).
  change (lit "1") with (natToString 1) in E. apply natToString_inj in E. lia.
Qed.

Lemma contentIds_not_cta (k : nat) : ~ In (lit "cta") (contentIds k).
Proof.
  unfold contentIds. rewrite in_map_iff. intros (j & E & _).
  exact (natToString_not_cta _ E).
Qed.

(** X8: the ids of the slides of a story are "1" for the title slide if there
    is one, then "2", "3", ... for the content slides (also when there is no
    title slide), then "cta" for the CTA slide if there is one; no two slides
    share an id. *)
Theorem slide_ids_distinct (post : WordPressPostData) (options : Options.t) :
  let ids := map Slide.id (generateStory template random post options) in
  (exists k,
     ids = (if optIncludeTitle options then [lit "1"] else [])
           ++ contentIds k
           ++ (if optIncludeCTA options then [lit "cta"] else []))
  /\ NoDup ids.
Proof.
  intros ids. subst ids. rewrite generateStory_shape, !map_app.
  destruct (createContentSlides_ids post
              (mergeConfig (Template.config template) (optCustomizations options))
              (contentBudget options) (if optIncludeTitle options then 1 else 0))
    as [k Ek].
  rewrite Ek.
  assert (Hmid : NoDup (contentIds k ++ [lit "cta"])).
  { apply NoDup_app; [apply contentIds_NoDup | repeat constructor; intros [] |].
    intros a Ha [<-|[]]. exact (contentIds_not_cta k Ha). }
  assert (Hall : NoDup (lit "1" :: contentIds k ++ [lit "cta"])).
  { constructor; [|exact Hmid]. rewrite in_app_iff.
    intros [H|[H|[]]]; [exact (contentIds_not_title k H)|].
    apply lit_inj in H. discriminate. }
  split.
  - exists k. destruct (optIncludeTitle options), (optIncludeCTA options); reflexivity.
  - destruct (optIncludeTitle options), (optIncludeCTA options); cbn [map app].
    + exact Hall.
    + rewrite app_nil_r. constructor; [apply contentIds_not_title | apply contentIds_NoDup].
    + exact Hmid.
    + rewrite app_nil_r. apply contentIds_NoDup.
Qed.

(** *** Durations *)

Lemma eachChunk_Forall (P : StorySlide -> Prop) (f : nat -> Chunk.t -> StorySlide)
    (cs : list Chunk.t) :
  (forall i c, P (f i c)) -> forall i, Forall P (eachChunk f i cs).
Proof.
  intros Hf. induction cs as [|c cs IH]; intros i; cbn [eachChunk];
    constructor; auto.
Qed.

Lemma createContentSlides_Forall (P : StorySlide -> Prop) post config m call :
  (forall images i c, P (contentSlide random post config images call i c)) ->
  Forall P (createContentSlides random post config m call).
Proof.
  intros Hf. unfold createContentSlides. apply Forall_forall. intros s Hs.
  apply slice0_incl in Hs. revert s Hs. apply Forall_forall.
  apply eachChunk_Forall. apply Hf.
Qed.

Lemma generateStory_Forall (P : StorySlide -> Prop) post options :
  (forall config call, P (createTitleSlide random post config call)) ->
  (forall config images call i c, P (contentSlide random post config images call i c)) ->
  (forall config ctaText ctaUrl, P (createCTASlide post config ctaText ctaUrl)) ->
  Forall P (generateStory template random post options).
Proof.
  intros Ht Hc Ha. rewrite generateStory_shape.
  apply Forall_app. split; [|apply Forall_app; split].
  - destruct (optIncludeTitle options); repeat constructor. apply Ht.
  - apply createContentSlides_Forall. intros. apply Hc.
  - destruct (optIncludeCTA options); repeat constructor. apply Ha.
Qed.


Lemma duration_range (text : str) :
  (31 # 10 <= calculateSlideDuration text <= 8)%Q.
Proof.
  rewrite calculateSlideDuration_count.
  split; [apply duration_ge, wordCount_pos | apply duration_le_8].
Qed.

(** X9: the title slide of a story lasts 6 seconds and the CTA slide 5; a
    content, quote or image slide lasts what [calculateSlideDuration] gives
    for its own text; hence every slide of a story lasts between 3.1 and 8
    seconds. *)
Theorem slide_durations (post : WordPressPostData) (options : Options.t) :
  Forall slideDurationOk (generateStory template random post options).
Proof.
  apply generateStory_Forall.
  - intros. unfold slideDurationOk.
    cbn [createTitleSlide Slide.type Slide.style Style.duration].
    split; [reflexivity | lra].
  - intros config images call i c. unfold slideDurationOk.
    cbn [contentSlide Slide.type Slide.style Slide.content Style.duration Content.text].
    split; [|apply duration_range].
    destruct (Chunk.isQuote c); [|destruct (_ && _)];
      exists (Chunk.text c); split; reflexivity.
  - intros. unfold slideDurationOk.
    cbn [createCTASlide Slide.type Slide.style Style.duration].
    split; [reflexivity | lra].
Qed.

(** X10: the layout and the text alignment of a slide of a story follow from
    its type: content and quote slides are responsive, the others fill;
    content and image slides are aligned left, the others centered.  A quote
    slide repeats its text as its quote and carries the author of the post;
    no other slide has a quote or an author. *)
Theorem slide_shape (post : WordPressPostData) (options : Options.t) :
  Forall (slideShapeOk (Post.author post))
         (generateStory template random post options).
Proof.
  apply generateStory_Forall.
  - intros. unfold slideShapeOk. cbn [createTitleSlide Slide.layout Slide.type
      Slide.style Slide.content Style.textAlign Content.quote Content.author
      layoutOf alignOf].
    split; [reflexivity|]. split; [reflexivity|].
    split; [discriminate | intros _; split; reflexivity].
  - intros config images call i c. unfold slideShapeOk, contentSlide.
    cbn [Slide.layout Slide.type Slide.style Slide.content Style.textAlign
         Content.quote Content.author Content.text].
    destruct (Chunk.isQuote c).
    + split; [reflexivity|]. split; [reflexivity|].
      split; [intros _; split; reflexivity | intros Hne; now contradiction Hne].
    + destruct (Chunk.hasImage c && _);
        (split; [reflexivity|]; split; [reflexivity|];
         split; [discriminate | intros _; split; reflexivity]).
  - intros. unfold slideShapeOk. cbn [createCTASlide Slide.layout Slide.type
      Slide.style Slide.content Style.textAlign Content.quote Content.author
      layoutOf alignOf].
    split; [reflexivity|]. split; [reflexivity|].
    split; [discriminate | intros _; split; reflexivity].
Qed.

(** *** One slide per chunk *)

Lemma eachChunk_texts post config images call (cs : list Chunk.t) : forall i,
  map (fun s => (Content.text (Slide.content s), SlideType_eqb (Slide.type s) quote_))
      (eachChunk (contentSlide random post config images call) i cs)
  = map (fun c => (Some (Chunk.text c), Chunk.isQuote c)) cs.
Proof.
  induction cs as [|c cs IH]; intros i; cbn [eachChunk map]; [reflexivity|].
  rewrite IH. f_equal. unfold contentSlide.
  cbn [Slide.content Slide.type Content.text].
  destruct (Chunk.isQuote c); [reflexivity|].
  destruct (Chunk.hasImage c && _); reflexivity.
Qed.

(** X11: when [maxSlides] leaves room for the title and CTA slides
    requested, the story is the title slide (if requested), then one slide
    per chunk of [segmentContent(content, maxSlides - title - cta)], in the
    order of the chunks, with the text of its chunk and of type quote exactly
    for a quote chunk, then the CTA slide (if requested): the final slice
    drops nothing. *)
Theorem one_slide_per_chunk (post : WordPressPostData) (options : Options.t) :
  (0 <= contentBudget options)%Z ->
  exists mid,
    generateStory template random post options
    = (if optIncludeTitle options
       then [createTitleSlide random post
               (mergeConfig (Template.config template) (optCustomizations options)) 0]
       else [])
      ++ mid
      ++ (if optIncludeCTA options
          then [createCTASlide post
                  (mergeConfig (Template.config template) (optCustomizations options))
                  (optCtaText options) (optCtaUrl options)]
          else [])
    /\ map (fun s => (Content.text (Slide.content s),
                      SlideType_eqb (Slide.type s) quote_)) mid
       = map (fun c => (Some (Chunk.text c), Chunk.isQuote c))
             (segmentContent (Post.content post) (contentBudget options)).
Proof.
  intros Hb. eexists. split; [apply generateStory_shape|].
  unfold createContentSlides. rewrite slice0_all.
  - apply eachChunk_texts.
  - rewrite eachChunk_length. now apply segmentParagraphs_length_le.
Qed.

End SlideProperties.

(** X11 at the scenario of the specification. *)
Lemma one_slide_per_chunk_witness :
  exists mid,
    map Slide.type
        (generateStory sampleTemplate sampleRandom (postWith twoParagraphs)
           (optionsWith 3 true true))
    = [title_] ++ map Slide.type mid ++ [cta_]
    /\ map (fun s => Content.text (Slide.content s)) mid
       = map (fun c => Some (Chunk.text c)) (segmentContent twoParagraphs 1).
Proof.
  destruct (one_slide_per_chunk sampleTemplate sampleRandom (postWith twoParagraphs)
              (optionsWith 3 true true)) as (mid & E & Hm);
    [vm_compute; discriminate|].
  exists mid. split.
  - rewrite E. cbn [optIncludeTitle optIncludeCTA optionsWith default
                    Options.includeTitle Options.includeCTA].
    rewrite !map_app. reflexivity.
  - change (segmentContent twoParagraphs 1)
      with (segmentContent (Post.content (postWith twoParagraphs))
              (contentBudget (optionsWith 3 true true))).
    apply (f_equal (map fst)) in Hm. rewrite !map_map in Hm. exact Hm.
Defined.

Section DurationProperties.

(** X12: the duration computed for a text is at least 3.1 seconds, because
    the word count of the code is at least 1 (the lower clamp at 3 never
    applies), and it is 8 seconds exactly when the text has 50 words or
    more. *)
Theorem duration_floor_and_ceiling (text : str) :
  (31 # 10 <= calculateSlideDuration text)%Q
  /\ ((calculateSlideDuration text == 8)%Q <-> 50 <= wordCount text).
Proof.
  rewrite calculateSlideDuration_count.
  pose proof (wordCount_pos text) as Hpos.
  split; [now apply duration_ge | now apply duration_eight].
Qed.

End DurationProperties.

(* ================================================================== *)
(** ** Further properties: escaping, lookup, colours, animations *)
(* ================================================================== *)

Section EscapeProperties.

Lemma matchAt_chr (c : char) (sn rest : str) :
  matchAt (chr c) sn rest
  = match rest with
    | x :: t => if N.eqb c x
                then Some {| seen := x :: sn; ahead := t; grp := None |}
                else None
    | [] => None
    end.
Proof. destruct rest; reflexivity. Qed.

Lemma flat_map_keep (c : char) (rep : str) (sk : str) :
  Forall (fun x => N.eqb c x = false) sk ->
  flat_map (replaceUnit c rep) sk = sk.
Proof.
  induction 1 as [|x l Hx _ IH]; simpl; [reflexivity|].
  unfold replaceUnit at 1. rewrite Hx. simpl. now rewrite IH.
Qed.

Lemma findFrom_chr (c : char) (rest : str) : forall sn,
  match findFrom (chr c) sn rest with
  | None => Forall (fun x => N.eqb c x = false) rest
  | Some (sk, cur) =>
      Forall (fun x => N.eqb c x = false) sk /\ rest = sk ++ c :: ahead cur
  end.
Proof.
  induction rest as [|x t IH]; intros sn; cbn [findFrom]; rewrite matchAt_chr.
  - constructor.
  - destruct (N.eqb_spec c x) as [<-|Hne].
    + split; [constructor | reflexivity].
    + specialize (IH (x :: sn)).
      destruct (findFrom (chr c) (x :: sn) t) as [[sk cur]|].
      * destruct IH as [Hsk ->]. split; [|reflexivity].
        constructor; [now apply N.eqb_neq | exact Hsk].
      * constructor; [now apply N.eqb_neq | exact IH].
Qed.

Lemma replaceAllFrom_chr (c : char) (rep : str) (fuel : nat) : forall sn rest,
  List.length rest < fuel ->
  replaceAllFrom fuel (chr c) rep sn rest = flat_map (replaceUnit c rep) rest.
Proof.
  induction fuel as [|f IH]; intros sn rest Hf; [lia|].
  cbn [replaceAllFrom].
  pose proof (findFrom_chr c rest sn) as H.
  destruct (findFrom (chr c) sn rest) as [[sk cur]|].
  - destruct H as [Hsk E]. subst rest.
    assert (Hlt : (List.length (ahead cur) + List.length sk
                   <? List.length (sk ++ c :: ahead cur)) = true).
    { apply Nat.ltb_lt. rewrite length_app. simpl. lia. }
    rewrite Hlt, IH.
    + rewrite flat_map_app, (flat_map_keep c rep sk Hsk). cbn [flat_map].
      unfold replaceUnit at 2. now rewrite N.eqb_refl.
    + rewrite length_app in Hf. simpl in Hf. lia.
  - symmetry. now apply flat_map_keep.
Qed.

(** A global replacement of one code unit rewrites each occurrence. *)
Lemma replaceAll_chr (c : char) (rep s : str) :
  replaceAll (chr c) rep s = flat_map (replaceUnit c rep) s.
Proof. apply replaceAllFrom_chr. lia. Qed.

Lemma escapeUnit_passes (x : char) :
  flat_map (replaceUnit CR [backslash; code "r"])
    (flat_map (replaceUnit LF [backslash; code "n"])
       (replaceUnit dquote [backslash; dquote] x))
  = escapeUnit x.
Proof.
  unfold escapeUnit, replaceUnit at 3. rewrite (N.eqb_sym dquote x).
  destruct (N.eqb_spec x dquote) as [->|Hq]; [reflexivity|].
  cbn [flat_map app]. unfold replaceUnit at 2. rewrite (N.eqb_sym LF x).
  destruct (N.eqb_spec x LF) as [->|Hl]; [reflexivity|].
  cbn [flat_map app]. unfold replaceUnit. rewrite (N.eqb_sym CR x).
  destruct (N.eqb_spec x CR) as [->|Hr]; reflexivity.
Qed.

Lemma escapeJSON_flat (s : str) : escapeJSON s = flat_map escapeUnit s.
Proof.
  unfold escapeJSON. rewrite !replaceAll_chr.
  induction s as [|x s IH]; [reflexivity|].
  cbn [flat_map]. rewrite !flat_map_app, IH. f_equal. apply escapeUnit_passes.
Qed.

(** X13: [escapeJSON] rewrites each code unit on its own: a double quote
    becomes backslash and quote, a line feed backslash and n, a carriage
    return backslash and r, and every other code unit (the backslash too) is
    kept; so its result has no line feed and no carriage return, and is its
    argument when the argument has none of the three. *)
Theorem escapeJSON_units (s : str) :
  escapeJSON s = flat_map escapeUnit s
  /\ ~ In LF (escapeJSON s)
  /\ ~ In CR (escapeJSON s)
  /\ (forallb (fun x => negb (N.eqb x dquote || N.eqb x LF || N.eqb x CR)) s = true ->
      escapeJSON s = s).
Proof.
  pose proof (escapeJSON_flat s) as E.
  assert (Hunit : forall x y, In y (escapeUnit x) -> y <> LF /\ y <> CR).
  { intros x y. unfold escapeUnit.
    destruct (N.eqb_spec x dquote); [intros [<-|[<-|[]]]; split; discriminate|].
    destruct (N.eqb_spec x LF); [intros [<-|[<-|[]]]; split; discriminate|].
    destruct (N.eqb_spec x CR); [intros [<-|[<-|[]]]; split; discriminate|].
    intros [<-|[]]. now split. }
  split; [exact E|]. rewrite E. split; [|split].
  - rewrite in_flat_map. intros (x & _ & Hy). now destruct (Hunit x LF Hy).
  - rewrite in_flat_map. intros (x & _ & Hy). now destruct (Hunit x CR Hy).
  - intros H. clear E. induction s as [|x s IH]; [reflexivity|].
    cbn [forallb] in H. apply andb_true_iff in H as [Hx Hs].
    cbn [flat_map]. rewrite (IH Hs). unfold escapeUnit.
    destruct (N.eqb x dquote); [discriminate|].
    destruct (N.eqb x LF); [discriminate|].
    destruct (N.eqb x CR); [discriminate | reflexivity].
Qed.

(** X13 at a plain title. *)
Lemma escapeJSON_units_witness : escapeJSON (lit "A plain title") = lit "A plain title".
Proof.
  apply (proj2 (proj2 (proj2 (escapeJSON_units (lit "A plain title"))))).
  reflexivity.
Defined.

End EscapeProperties.

Section LookupProperties.

Lemma str_eqb_eq (a b : str) : str_eqb a b = true <-> a = b.
Proof.
  revert b. induction a as [|x a IH]; intros [|y b]; simpl;
    try (split; [discriminate | discriminate]); [tauto|].
  rewrite andb_true_iff, N.eqb_eq, IH. split.
  - intros [-> ->]. reflexivity.
  - intros H. inversion H. now split.
Qed.

Lemma find_first {A} (f : A -> bool) (l : list A) (x : A) :
  find f l = Some x ->
  exists before after,
    l = before ++ x :: after /\ f x = true /\ Forall (fun y => f y = false) before.
Proof.
  induction l as [|y l IH]; simpl; [discriminate|].
  destruct (f y) eqn:E.
  - intros H. inversion H; subst. exists [], l. repeat split; [exact E | constructor].
  - intros H. destruct (IH H) as (b & a & -> & Hx & Hb).
    exists (y :: b), a. repeat split; [exact Hx | now constructor].
Qed.

(** X14: [createStoryGenerator] answers with the first template of the list
    that has the requested id, and fails (the error of the source) exactly
    when no template has it. *)
Theorem createStoryGenerator_lookup (templateId : str) (templates : list StoryTemplate) :
  match createStoryGenerator templateId templates with
  | Some t =>
      Template.id t = templateId
      /\ exists before after,
           templates = before ++ t :: after
           /\ Forall (fun u => Template.id u <> templateId) before
  | None => Forall (fun u => Template.id u <> templateId) templates
  end.
Proof.
  unfold createStoryGenerator.
  destruct (find _ templates) as [t|] eqn:E.
  - destruct (find_first _ _ _ E) as (b & a & -> & Ht & Hb).
    split; [now apply str_eqb_eq|]. exists b, a. split; [reflexivity|].
    eapply Forall_impl; [|exact Hb]. cbv beta. intros u Hu Heq.
    apply str_eqb_eq in Heq. congruence.
  - apply Forall_forall. intros u Hu Heq.
    pose proof (find_none _ _ E u Hu) as Hn. cbv beta in Hn.
    apply str_eqb_eq in Heq. congruence.
Qed.

End LookupProperties.

Section ColourProperties.

(** X15: a background that is not a gradient is the same for every slide;
    the variants of a gradient repeat with period 4, and every fourth slide
    has the base colour. *)
Theorem getVariantColor_cycle (baseColor : str) (index : nat) :
  (includes baseColor (lit "gradient") = false ->
   getVariantColor baseColor index = baseColor)
  /\ getVariantColor baseColor (index + 4) = getVariantColor baseColor index
  /\ getVariantColor baseColor (4 * index) = baseColor.
Proof.
  unfold getVariantColor. cbn [List.length].
  destruct (includes baseColor (lit "gradient")).
  - split; [discriminate|]. split.
    + replace ((index + 4) mod 4) with (index mod 4); [reflexivity|].
      replace (index + 4) with (index + 1 * 4) by lia.
      now rewrite Nat.Div0.mod_add.
    + replace ((4 * index) mod 4) with 0; [reflexivity|].
      rewrite Nat.mul_comm. now rewrite Nat.Div0.mod_mul.
  - repeat split.
Qed.

(** X15 at a plain colour. *)
Lemma getVariantColor_cycle_witness :
  getVariantColor (lit "#336699") 7 = lit "#336699".
Proof. apply (proj1 (getVariantColor_cycle (lit "#336699") 7)). reflexivity. Defined.

End ColourProperties.

Section AnimationProperties.

(** X16: for a Number [r] with [0 <= r < 1], as [Math.random] returns, and a
    list of animations that is not empty, [getRandomAnimation] returns an
    animation of the list, although the product of [r] and the length is
    rounded; on an empty list it returns nothing (the animation of the slide
    is undefined). *)
Theorem getRandomAnimation_member (r : Q) (animations : list str) :
  isDouble r -> (0 <= r)%Q -> (r < 1)%Q ->
  (animations <> [] ->
   exists a, getRandomAnimation r animations = Some a /\ In a animations)
  /\ getRandomAnimation r [] = None.
Proof.
  intros Hd H0 H1. split.
  - intros Hne. unfold getRandomAnimation, fmul.
    set (n := Z.of_nat (List.length animations)).
    assert (Hn : (0 < n)%Z).
    { subst n. destruct animations; [congruence | simpl; lia]. }
    assert (HnQ : (0 < inject_Z n)%Q).
    { change 0%Q with (inject_Z 0). now rewrite <- Zlt_Qlt. }
    assert (Hlo : (0 <= Qfloor (fl (r * inject_Z n)))%Z).
    { change 0%Z with (Qfloor 0). apply Qfloor_resp_le, fl_nonneg.
      apply Qmult_le_0_compat; [exact H0 | now apply Qlt_le_weak]. }
    assert (Hhi : (Qfloor (fl (r * inject_Z n)) < n)%Z).
    { rewrite Zlt_Qlt. eapply Qle_lt_trans; [apply Qfloor_le|].
      apply fl_scale_lt; auto. lia. }
    destruct (Z.ltb_spec (Qfloor (fl (r * inject_Z n))) 0) as [Hneg|_]; [lia|].
    destruct (nth_error animations (Z.to_nat (Qfloor (fl (r * inject_Z n))))) as [a|] eqn:E.
    + exists a. split; [reflexivity|]. exact (nth_error_In _ _ E).
    + apply nth_error_None in E. subst n. lia.
  - unfold getRandomAnimation, fmul. cbn [List.length Z.of_nat].
    rewrite fl_zero by (change (inject_Z 0) with 0%Q; ring).
    reflexivity.
Qed.

(** X16 at the Number just below one third and three animations: the
    product rounds to 1, and the second animation is returned. *)
Lemma getRandomAnimation_member_witness :
  exists a, getRandomAnimation belowOneThird
              [lit "fade-in"; lit "fly-in-left"; lit "pulse"] = Some a
            /\ In a [lit "fade-in"; lit "fly-in-left"; lit "pulse"].
Proof.
  apply (proj1 (getRandomAnimation_member belowOneThird
                  [lit "fade-in"; lit "fly-in-left"; lit "pulse"]
                  ltac:(vm_compute; reflexivity)
                  ltac:(vm_compute; discriminate) ltac:(reflexivity))).
  discriminate.
Defined.

(** The same call returns the second animation, where the exact product,
    which is below 1, would select the first. *)
Example getRandomAnimation_rounds :
  getRandomAnimation belowOneThird [lit "fade-in"; lit "fly-in-left"; lit "pulse"]
  = Some (lit "fly-in-left")
  /\ Qfloor (belowOneThird * 3) = 0%Z.
Proof. split; vm_compute; reflexivity. Qed.

End AnimationProperties.

Section QuoteTextProperties.

(** X17: on a paragraph that starts with the quote marker and holds no
    opening angle bracket, [cleanQuoteText] removes the marker and one white
    space after it, and trims the rest. *)
Theorem cleanQuoteText_marker_first (rest : str) :
  forallb (fun x => negb (N.eqb x (code "<"))) rest = true ->
  cleanQuoteText (gt_ :: rest) = trim (afterQuoteMark rest).
Proof.
  intros H. unfold cleanQuoteText.
  rewrite (replaceAll_none reBlockquoteTag (N.eqb lt_) [] (gt_ :: rest) eq_refl).
  - f_equal. unfold replaceFirst, reQuoteMark, opt, chr, space.
    destruct rest as [|x t];
      cbn [findFrom matchAt run seen ahead grp isEmpty afterQuoteMark];
      rewrite N.eqb_refl; [reflexivity|].
    cbn [ahead seen grp]. destruct (isSpace x); reflexivity.
  - constructor; [reflexivity|]. apply Forall_forall. intros x Hx.
    rewrite forallb_forall in H. specialize (H x Hx). rewrite N.eqb_sym.
    change lt_ with (code "<"). now destruct (N.eqb x (code "<")).
Qed.

(** X17 at a quote line. *)
Lemma cleanQuoteText_marker_first_witness :
  cleanQuoteText (gt_ :: lit " Stay hungry. ") = lit "Stay hungry.".
Proof.
  rewrite (cleanQuoteText_marker_first (lit " Stay hungry. ") eq_refl).
  vm_compute. reflexivity.
Defined.

End QuoteTextProperties.

Section TitleGuessProperties.

Lemma filter_head {A} (f : A -> bool) (l : list A) (x : A) (r : list A) :
  filter f l = x :: r -> f x = true.
Proof.
  intros H. assert (Hin : In x (filter f l)) by (rewrite H; now left).
  apply filter_In in Hin. tauto.
Qed.

(** X18: a title guessed by [extractTitle] is never empty, has no white
    space at either end, and has fewer than 100 code units. *)
Theorem extractTitle_tidy (text title : str) :
  extractTitle text = Some title ->
  title <> [] /\ trim title = title /\ List.length title < 100.
Proof.
  unfold extractTitle. cbv zeta.
  destruct (filter _ (splitOn LF [] text)) as [|l0 more] eqn:E; [discriminate|].
  pose proof (filter_head _ _ _ _ E) as Hl0. cbv beta in Hl0.
  destruct more as [|l1 more']; [discriminate|].
  destruct (_ && _) eqn:C; [|discriminate].
  intros H. inversion H; subst title. clear H.
  apply andb_true_iff in C as [C1 _]. apply Nat.ltb_lt in C1.
  split; [|split; [apply trim_idem | exact C1]].
  intros Hnil. rewrite Hnil in Hl0. discriminate.
Qed.

(** X18 at a short line above a longer one. *)
Lemma extractTitle_tidy_witness :
  lit "Short line" <> [] /\ trim (lit "Short line") = lit "Short line"
  /\ List.length (lit "Short line") < 100.
Proof.
  apply (extractTitle_tidy
           (lit "  Short line " ++ [LF] ++ lit "followed by a much longer line")).
  vm_compute. reflexivity.
Defined.

End TitleGuessProperties.

(* ================================================================== *)
(** ** Further properties: validation and rendering *)
(* ================================================================== *)

Section ValidatorProperties.

Lemma includes_within (s pre m post : str) :
  includes s (pre ++ m ++ post) = true -> includes s m = true.
Proof.
  intros H. destruct (includes_decompose _ _ H) as (a & b & ->).
  rewrite <- !app_assoc. rewrite (app_assoc a pre). apply includes_compose.
Qed.

Lemma pushIf_keeps {A} (cond : bool) (x y : A) (l : list A) :
  In y l -> In y (pushIf cond x l).
Proof. intros H. unfold pushIf. destruct cond; [apply in_or_app; now left | exact H]. Qed.

Lemma includes_amp (s : str) :
  includes s (lit "amp-story") = true -> includes s (lit "amp") = true.
Proof. apply (includes_within s [] (lit "amp") (lit "-story")). Qed.

(** X19: the verdict of [validateAMPHTML] only depends on two markers: a
    document is valid exactly when it contains "amp-story" and "viewport".
    The test of the format marker adds nothing: its error is never reported
    without the error of the missing story component. *)
Theorem validateAMPHTML_verdict (ampHTML : str) :
  Validation.isValid (validateAMPHTML ampHTML)
  = includes ampHTML (lit "amp-story") && includes ampHTML (lit "viewport")
  /\ (In (lit "Missing AMP attribute in html tag")
         (Validation.errors (validateAMPHTML ampHTML)) ->
      In (lit "Missing amp-story component")
         (Validation.errors (validateAMPHTML ampHTML))).
Proof.
  rewrite validateAMPHTML_unfold. cbv zeta.
  cbn [Validation.isValid Validation.errors].
  pose proof (includes_amp ampHTML) as Hamp.
  destruct (includes ampHTML (lit "amp-story")) eqn:Es.
  - rewrite (Hamp eq_refl), andb_false_r. cbn [negb pushIf].
    destruct (includes ampHTML (lit "viewport")); cbn [negb pushIf andb app].
    + split; [reflexivity | intros []].
    + split; [reflexivity|]. intros [H|[]]. apply lit_inj in H. discriminate.
  - cbn [negb andb]. split.
    + destruct (_ && _), (negb (includes ampHTML (lit "viewport"))); reflexivity.
    + intros _. apply pushIf_keeps. now apply pushIf_In.
Qed.

End ValidatorProperties.

Section RenderingProperties.

Variable escapeHTML : str -> str.
Variable nowISO : str.

Ltac find_literal :=
  repeat first
    [ apply includes_app_l; vm_compute; reflexivity
    | apply includes_app_r ].

Lemma ampTemplate_has_structured_data (slides : list StorySlide) (metadata : Metadata.t) :
  includes (ampTemplate escapeHTML nowISO slides metadata)
           (lit "application/ld+json") = true.
Proof. unfold ampTemplate. find_literal. Qed.

Lemma ampTemplate_has_canonical (slides : list StorySlide) (metadata : Metadata.t) :
  includes (ampTemplate escapeHTML nowISO slides metadata) (lit "canonical") = true.
Proof. unfold ampTemplate. find_literal. Qed.

(** Trimming keeps an occurrence of a text that starts and ends with a code
    unit that is not white space. *)
Lemma includes_trim_ends (s m : str) :
  (exists c m', m = c :: m' /\ isSpace c = false) ->
  (exists m' d, m = m' ++ [d] /\ isSpace d = false) ->
  includes s m = true -> includes (trim s) m = true.
Proof.
  intros (c & m1 & E1 & Hc) (m2 & d & E2 & Hd) H.
  destruct m2 as [|c0 m2].
  - simpl in E2. subst m. inversion E2; subst.
    now apply includes_trim_single.
  - rewrite E2 in E1. simpl in E1. inversion E1; subst c0.
    subst m. change ((c :: m2) ++ [d]) with (c :: m2 ++ [d]) in *.
    now apply includes_trim.
Qed.

(** X20: the document rendered for any slides and any metadata passes
    [validateAMPHTML] with no error and no warning; in particular the
    warning of a missing canonical URL cannot be raised on a rendered
    document, even when the canonical URL of the metadata is empty, because
    the shell always contains the word. *)
Theorem rendered_document_clean (slides : list StorySlide) (metadata : Metadata.t) :
  validateAMPHTML (generateAMPHTML escapeHTML nowISO slides metadata)
  = {| Validation.isValid := true;
       Validation.errors := [];
       Validation.warnings := [] |}.
Proof.
  rewrite validateAMPHTML_unfold. cbv zeta. unfold generateAMPHTML.
  set (T := ampTemplate escapeHTML nowISO slides metadata).
  assert (Hf : includes (trim T) [highVoltage] = true).
  { apply includes_trim_single; [reflexivity | apply ampTemplate_has_format]. }
  assert (Hv : includes (trim T) (lit "viewport") = true).
  { apply (includes_trim _ (code "v") (lit "iewpor") (code "t"));
      [reflexivity | reflexivity | apply ampTemplate_has_viewport]. }
  assert (Hs : includes (trim T) (lit "amp-story") = true).
  { apply (includes_trim _ (code "a") (lit "mp-stor") (code "y"));
      [reflexivity | reflexivity | apply ampTemplate_has_story]. }
  assert (Hj : includes (trim T) (lit "application/ld+json") = true).
  { apply (includes_trim _ (code "a") (lit "pplication/ld+jso") (code "n"));
      [reflexivity | reflexivity | apply ampTemplate_has_structured_data]. }
  assert (Hc : includes (trim T) (lit "canonical") = true).
  { apply (includes_trim _ (code "c") (lit "anonica") (code "l"));
      [reflexivity | reflexivity | apply ampTemplate_has_canonical]. }
  rewrite Hf, Hv, Hs, Hj, Hc. reflexivity.
Qed.

(** *** One page per slide *)

Lemma startsWith_split (s m : str) :
  startsWith s m = true -> exists b, s = m ++ b.
Proof.
  revert s. induction m as [|x m IH]; intros s H; [now exists s|].
  destruct s as [|y s]; [discriminate|]. simpl in H.
  apply andb_true_iff in H as [H1 H2]. apply N.eqb_eq in H1. subst y.
  destruct (IH _ H2) as [b ->]. now exists b.
Qed.

(** A text spliced between the end of one literal and the start of another. *)
Lemma includes_spliced (l1 s l2 t1 t2 x more : str) :
  startsWith (rev (l1 ++ s)) (rev t1) = true ->
  startsWith l2 t2 = true ->
  includes (l1 ++ (s ++ x) ++ l2 ++ more) (t1 ++ x ++ t2) = true.
Proof.
  intros H1 H2.
  destruct (startsWith_split _ _ H1) as [a Ea].
  destruct (startsWith_split _ _ H2) as [b ->].
  apply (f_equal (@rev char)) in Ea. rewrite rev_involutive, rev_app_distr,
    rev_involutive in Ea.
  replace (l1 ++ (s ++ x) ++ (t2 ++ b) ++ more)
    with (rev a ++ (t1 ++ x ++ t2) ++ (b ++ more)).
  - apply includes_compose.
  - rewrite <- !app_assoc. rewrite (app_assoc (rev a) t1), <- Ea.
    now rewrite <- !app_assoc.
Qed.

Lemma generateSlideAMP_tag (slide : StorySlide) (index : nat) :
  includes (generateSlideAMP escapeHTML slide index) (pageTag slide) = true.
Proof.
  unfold generateSlideAMP, pageTag. cbv zeta.
  apply includes_spliced; vm_compute; reflexivity.
Qed.

Lemma join_includes (sep : str) (l : list str) (x m : str) :
  In x l -> includes x m = true -> includes (join sep l) m = true.
Proof.
  intros Hin Hm. induction l as [|y l IH]; [destruct Hin|].
  destruct l as [|z l'].
  - destruct Hin as [->|[]]. exact Hm.
  - change (join sep (y :: z :: l')) with (y ++ sep ++ join sep (z :: l')).
    destruct Hin as [->|Hin].
    + now apply includes_app_l.
    + apply includes_app_r, includes_app_r. now apply IH.
Qed.

Lemma mapIndexed_In {A B} (f : A -> nat -> B) (l : list A) (x : A) : forall i,
  In x l -> exists j, In (f x j) (mapIndexed f i l).
Proof.
  induction l as [|y l IH]; intros i Hin; [destruct Hin|].
  cbn [mapIndexed]. destruct Hin as [->|Hin].
  - exists i. now left.
  - destruct (IH (S i) Hin) as [j Hj]. exists j. now right.
Qed.

(** X21: the rendered document has a page for every slide: it contains the
    opening tag of a story page whose id is the id of the slide after
    "slide-". *)
Theorem rendered_pages (slides : list StorySlide) (metadata : Metadata.t)
    (slide : StorySlide) :
  In slide slides ->
  includes (generateAMPHTML escapeHTML nowISO slides metadata) (pageTag slide) = true.
Proof.
  intros Hin. unfold generateAMPHTML.
  apply includes_trim_ends.
  - unfold pageTag. eexists _, _. split; [reflexivity | reflexivity].
  - unfold pageTag. exists (tpl "<amp-story-page id=`slide-" ++ Slide.id slide ++ [dquote]), gt_.
    split; [|reflexivity]. now rewrite <- !app_assoc.
  - destruct (mapIndexed_In (generateSlideAMP escapeHTML) slides slide 0 Hin) as [j Hj].
    pose proof (join_includes [LF] _ _ (pageTag slide) Hj
                  (generateSlideAMP_tag slide j)) as H.
    unfold ampTemplate.
    repeat first [ apply includes_app_l; exact H | apply includes_app_r ].
Qed.

(** *** The ends of the document *)

Lemma suffix_app (a b e : str) :
  (exists x, b = x ++ e) -> exists x, a ++ b = x ++ e.
Proof. intros [x ->]. exists (a ++ x). now rewrite app_assoc. Qed.

Lemma trim_between (d mid e : str) (c z : char) :
  isSpace c = false -> isSpace z = false ->
  trim (LF :: (c :: d) ++ mid ++ e ++ [z]) = (c :: d) ++ mid ++ e ++ [z].
Proof.
  intros Hc Hz. unfold trim. cbn [trimStart app]. change (isSpace LF) with true.
  cbv iota. rewrite Hc.
  change (c :: d ++ mid ++ e ++ [z]) with ((c :: d) ++ mid ++ e ++ [z]).
  rewrite !app_assoc. now apply trimEnd_last_nonspace.
Qed.

(** X22: the rendered document starts with the document type declaration
    and ends with the closing tag of the html element: the line break that
    opens the template is trimmed. *)
Theorem rendered_document_ends (slides : list StorySlide) (metadata : Metadata.t) :
  exists body,
    generateAMPHTML escapeHTML nowISO slides metadata
    = lit "<!doctype html>" ++ body ++ lit "</html>".
Proof.
  unfold generateAMPHTML.
  assert (H : exists mid,
            ampTemplate escapeHTML nowISO slides metadata
            = LF :: lit "<!doctype html>" ++ mid ++ lit "</html>").
  { unfold ampTemplate.
    match goal with
    | |- exists mid, ?a1 ++ ?rest = _ =>
        assert (Hs : exists x, rest = x ++ lit "</html>");
        [ repeat apply suffix_app;
          match goal with
          | |- exists x, ?L = x ++ ?E =>
              exists (firstn (List.length L - List.length E) L);
              vm_compute; reflexivity
          end
        | destruct Hs as [x ->];
          exists (skipn 16 a1 ++ x);
          change (LF :: lit "<!doctype html>" ++ (skipn 16 a1 ++ x) ++ lit "</html>")
            with ((LF :: lit "<!doctype html>" ++ skipn 16 a1) ++ x ++ lit "</html>");
          rewrite !app_assoc; do 2 f_equal; vm_compute; reflexivity ]
    end. }
  destruct H as [mid ->]. exists mid.
  change (lit "</html>") with (lit "</html" ++ [gt_]).
  change (lit "<!doctype html>") with (lt_ :: lit "!doctype html>").
  apply trim_between; reflexivity.
Qed.

End RenderingProperties.

(** X21 at the story of the scenario. *)
Lemma rendered_pages_witness :
  includes
    (generateAMPHTML (fun s => s) (lit "2024-01-01T00:00:00.000Z")
       (generateStory sampleTemplate sampleRandom (postWith twoParagraphs)
          (optionsWith 3 true true))
       {| Metadata.title := lit "Hello World";
          Metadata.description := lit "A post";
          Metadata.author := lit "Ada";
          Metadata.publisherName := lit "Site";
          Metadata.publisherLogo := lit "logo.png";
          Metadata.canonicalUrl := lit "https://example.org/hello" |})
    (tpl "<amp-story-page id=`slide-cta`>") = true.
Proof.
  apply (rendered_pages (fun s => s) (lit "2024-01-01T00:00:00.000Z")
           (generateStory sampleTemplate sampleRandom (postWith twoParagraphs)
              (optionsWith 3 true true)) _
           (createCTASlide (postWith twoParagraphs) (Template.config sampleTemplate)
              (lit "Read Full Article") (lit "#"))).
  vm_compute. right. right. left. reflexivity.
Defined.

(** X19 at a bare document: both errors are reported. *)
Lemma validateAMPHTML_verdict_witness :
  In (lit "Missing amp-story component")
     (Validation.errors (validateAMPHTML (lit "<html></html>"))).
Proof.
  apply (proj2 (validateAMPHTML_verdict (lit "<html></html>"))).
  vm_compute. left. reflexivity.
Defined.


(* ================================================================== *)
(** ** The story of ten paragraphs *)
(* ================================================================== *)

Section StoryShape.

Variable template : StoryTemplate.
Variable random : nat -> Q.

(** With a title, a CTA and [maxSlides = 5], the story is the title slide,
    the content slides made with the budget 3, and the CTA slide. *)
Lemma story_of_five (post : WordPressPostData) (options : Options.t) :
  optMaxSlides options = 5%Z ->
  optIncludeTitle options = true ->
  optIncludeCTA options = true ->
  generateStory template random post options
  = createTitleSlide random post
      (mergeConfig (Template.config template) (optCustomizations options)) 0
    :: createContentSlides random post
         (mergeConfig (Template.config template) (optCustomizations options)) 3 1
    ++ [createCTASlide post
          (mergeConfig (Template.config template) (optCustomizations options))
          (optCtaText options) (optCtaUrl options)].
Proof.
  intros Hmax Ht Hc. rewrite generateStory_shape.
  unfold contentBudget. rewrite Hmax, Ht, Hc. reflexivity.
Qed.

Lemma length_framed {A} (t c : A) (mid : list A) :
  List.length (t :: mid ++ [c]) = 2 + List.length mid.
Proof. cbn [List.length]. rewrite length_app. cbn [List.length]. lia. Qed.

Lemma segmentContent_one_to_three (htmlContent : str) :
  10 <= List.length (paragraphsOf (cleanHTML htmlContent)) ->
  1 <= List.length (segmentContent htmlContent 3) <= 3.
Proof.
  intros Hlen. unfold segmentContent. split.
  - assert (Hne : segmentParagraphs (paragraphsOf (cleanHTML htmlContent)) 3 <> []).
    { apply segmentParagraphs_nonempty; [|apply paragraphs_nonblank|lia].
      intros E. rewrite E in Hlen. cbn [List.length] in Hlen. lia. }
    destruct (segmentParagraphs _ 3); [congruence | cbn [List.length]; lia].
  - pose proof (@segmentParagraphs_length_le (paragraphsOf (cleanHTML htmlContent)) 3). lia.
Qed.

Lemma segmentContent_count (htmlContent : str) (m : Z) :
  (3 <= m)%Z ->
  List.length (segmentContent htmlContent 3)
  = Nat.min 3 (List.length (segmentContent htmlContent m)).
Proof.
  intros Hm. unfold segmentContent.
  rewrite (segmentParagraphs_prefix _ 3 m) by lia.
  now rewrite length_firstn.
Qed.

Lemma segmentContent_packed (htmlContent : str) :
  10 <= List.length (paragraphsOf (cleanHTML htmlContent)) ->
  Forall (fun p => 10 < wordCount p) (paragraphsOf (cleanHTML htmlContent)) ->
  List.length (segmentContent htmlContent 3) = 3.
Proof.
  intros Hlen Hlong. unfold segmentContent.
  apply segmentParagraphs_packed; [lia | assumption].
Qed.

Lemma segmentContent_closing (htmlContent : str) :
  3 <= countClosing (paragraphsOf (cleanHTML htmlContent)) ->
  List.length (segmentContent htmlContent 3) = 3.
Proof. intros H. unfold segmentContent. now apply segmentParagraphs_closing. Qed.

(** C1 (as amended): with [maxSlides = 5], a title and a CTA requested, and
    content of at least 10 paragraphs, [generateStory] returns a title slide,
    then one slide of type content, quote or image for each chunk that
    [segmentContent(content, 3)] returns, which are one to three, then a cta
    slide.  The story has exactly five slides if and only if the paragraphs
    make at least three chunks, whatever cap of 3 or more the chunks are
    counted with.  They do so when every paragraph has more than 10 words,
    so that no five paragraphs fit one chunk, and when three paragraphs or
    more are quotes or hold an image, each of which closes a chunk. *)
Theorem C1_story_shape (post : WordPressPostData) (options : Options.t) :
  optMaxSlides options = 5%Z ->
  optIncludeTitle options = true ->
  optIncludeCTA options = true ->
  10 <= List.length (paragraphsOf (cleanHTML (Post.content post))) ->
  let story := generateStory template random post options in
  (exists t mid c,
     story = t :: mid ++ [c]
     /\ Slide.type t = title_
     /\ Slide.type c = cta_
     /\ Forall (fun s => isMiddleType (Slide.type s)) mid
     /\ List.length mid = List.length (segmentContent (Post.content post) 3)
     /\ 1 <= List.length mid <= 3)
  /\ (forall m, (3 <= m)%Z ->
        List.length story = 5
        <-> 3 <= List.length (segmentContent (Post.content post) m))
  /\ (Forall (fun p => 10 < wordCount p) (paragraphsOf (cleanHTML (Post.content post)))
      -> List.length story = 5)
  /\ (3 <= countClosing (paragraphsOf (cleanHTML (Post.content post)))
      -> List.length story = 5).
Proof.
  intros Hmax Ht Hc Hlen. cbv zeta.
  rewrite (story_of_five post options Hmax Ht Hc).
  pose proof (createContentSlides_types random post
                (mergeConfig (Template.config template) (optCustomizations options))
                3 1) as Htypes.
  pose proof (createContentSlides_length random post
                (mergeConfig (Template.config template) (optCustomizations options))
                3 1 ltac:(lia)) as Hmid.
  generalize dependent (createContentSlides random post
                (mergeConfig (Template.config template) (optCustomizations options))
                3 1).
  intros mid Htypes Hmid.
  generalize (createTitleSlide random post
                (mergeConfig (Template.config template) (optCustomizations options)) 0)
             (eq_refl : Slide.type (createTitleSlide random post
                (mergeConfig (Template.config template) (optCustomizations options)) 0)
                        = title_).
  intros t Ht'.
  generalize (createCTASlide post
                (mergeConfig (Template.config template) (optCustomizations options))
                (optCtaText options) (optCtaUrl options))
             (eq_refl : Slide.type (createCTASlide post
                (mergeConfig (Template.config template) (optCustomizations options))
                (optCtaText options) (optCtaUrl options)) = cta_).
  intros c Hc'.
  rewrite length_framed, Hmid.
  pose proof (segmentContent_one_to_three (Post.content post) Hlen) as Hnb.
  split; [|split; [|split]].
  - exists t, mid, c. rewrite Hmid. auto 10.
  - intros m Hm. rewrite (segmentContent_count (Post.content post) m Hm). lia.
  - intros Hlong. now rewrite (segmentContent_packed (Post.content post) Hlen Hlong).
  - intros Hq. now rewrite (segmentContent_closing (Post.content post) Hq).
Qed.

End StoryShape.

(** C1 at ten quote paragraphs of two words each: every quote closes a
    chunk, and the story has five slides. *)
Lemma C1_witness :
  map Slide.type
      (generateStory sampleTemplate sampleRandom (postWith tenQuoteParagraphs)
         (optionsWith 5 true true))
  = [title_; quote_; quote_; quote_; cta_]
  /\ List.length
       (generateStory sampleTemplate sampleRandom (postWith tenQuoteParagraphs)
          (optionsWith 5 true true)) = 5.
Proof.
  split; [vm_compute; reflexivity|].
  apply (proj2 (proj2 (proj2 (C1_story_shape sampleTemplate sampleRandom
                         (postWith tenQuoteParagraphs) (optionsWith 5 true true)
                         eq_refl eq_refl eq_refl ltac:(vm_compute; lia))))).
  vm_compute. lia.
Defined.

(** Ten paragraphs of 20 words each make five chunks of two paragraphs, and
    a story of five slides; ten paragraphs of 26 words each make ten chunks. *)
Example stories_of_five_slides :
  List.length (segmentContent tenMediumParagraphs 10) = 5
  /\ map Slide.type
         (generateStory sampleTemplate sampleRandom (postWith tenMediumParagraphs)
            (optionsWith 5 true true))
     = [title_; content_; content_; content_; cta_]
  /\ map Slide.type
         (generateStory sampleTemplate sampleRandom (postWith tenLongParagraphs)
            (optionsWith 5 true true))
     = [title_; content_; content_; content_; cta_].
Proof. repeat split; vm_compute; reflexivity. Qed.
